(** * LimeSuiteCalibrate: loopback corrections calibration

    A shallow embedding of [src/SoapyLMS7/LimeSuiteCalibrate.py] and the
    properties of its calibration search.

    Numbers.  The script computes with Python floats and complex numbers.
    They are embedded as the real numbers [R] and pairs of reals: every
    arithmetic operation is the exact one, and the [math], [cmath] and
    [numpy] functions are their mathematical definitions.  Rounding,
    infinities, NaN and signed zeros are outside the model.  The properties
    of the calibration are therefore stated on what rounding leaves alone:
    they name the values the code computes ([rect (Cabs b) (phase b)], the
    block less its mean) instead of equating them with an exact result,
    they compare levels and they follow the calls; bounds are given on the
    numbers a value is built from, and a depth that is quantified stays
    where [1.0/(2**depth)] is defined.

    Device.  [limeSDR] is an external object.  It is embedded as a record of
    state transformers ([Device]).  The calibration code runs in a monad
    that threads the device state and a store of Python list objects,
    records every device call and every measured level in a trace, and
    propagates a raised exception.

    Loops.  The only loop that may not end is the read loop of [readSamps];
    it takes a budget of reads ([fuel]).  The plot that ends
    [CalibrateAtFreq] and the console output are left out. *)

From Stdlib Require Import String Bool ZArith Reals Lra Lia Psatz List.
Import ListNotations.
Open Scope R_scope.

(* ================================================================== *)
(** * Python numbers                                                   *)
(* ================================================================== *)

(** Python's [complex], with its [.real] and [.imag] attributes. *)
Record complex : Type := Complex { real : R; imag : R }.

(** A float used where a complex number is expected ([1.0], [0.0]). *)
Definition of_float (x : R) : complex := Complex x 0.

Definition Cadd (a b : complex) : complex :=
  Complex (real a + real b) (imag a + imag b).

Definition Csub (a b : complex) : complex :=
  Complex (real a - real b) (imag a - imag b).

Definition Cmul (a b : complex) : complex :=
  Complex (real a * real b - imag a * imag b)
          (real a * imag b + imag a * real b).

(** [z / n] for a real [n]. *)
Definition Cdiv_real (z : complex) (n : R) : complex :=
  Complex (real z / n) (imag z / n).

(** The imaginary unit [1j]. *)
Definition Cj : complex := Complex 0 1.

(** [abs(z)]. *)
Definition Cabs (z : complex) : R :=
  sqrt (real z * real z + imag z * imag z).

(** [math.atan2(y, x)]: the angle of the point [(x, y)], in (-pi, pi]. *)
Definition atan2 (y x : R) : R :=
  if Rlt_dec 0 x then atan (y / x)
  else if Rlt_dec x 0 then
         (if Rle_dec 0 y then atan (y / x) + PI else atan (y / x) - PI)
       else if Rlt_dec 0 y then PI / 2
            else if Rlt_dec y 0 then - (PI / 2)
                 else 0.

(** [cmath.phase(z)]. *)
Definition phase (z : complex) : R := atan2 (imag z) (real z).

(** [cmath.rect(r, phi)]. *)
Definition rect (r phi : R) : complex := Complex (r * cos phi) (r * sin phi).

(** [np.exp(z)] on one complex number. *)
Definition Cexp (z : complex) : complex :=
  Complex (exp (real z) * cos (imag z)) (exp (real z) * sin (imag z)).

(** [math.log10]. *)
Definition log10 (x : R) : R := ln x / ln 10.

(** The builtin [min(a, b)]: the first argument unless the second is smaller. *)
Definition py_min (a b : R) : R := if Rlt_dec b a then b else a.

(** The builtin [max(a, b)]: the first argument unless the second is greater. *)
Definition py_max (a b : R) : R := if Rlt_dec a b then b else a.

(** [2**depth] for an integer [depth], and [2**gain] for a float [gain]. *)
Definition pow2_int (depth : Z) : R := powerRZ 2 depth.
Definition pow2_float (gain : R) : R := Rpower 2 gain.

(* ================================================================== *)
(** * numpy                                                            *)
(* ================================================================== *)

(** [np.linspace(start, stop, num)]: [num] evenly spaced values over the
    closed interval, both ends included. *)
Definition linspace (start stop : R) (num : nat) : list R :=
  match num with
  | O => []
  | S O => [start]
  | _ => map (fun i => start + INR i * ((stop - start) / INR (num - 1)))
             (seq 0 num)
  end.

Definition Csum (l : list complex) : complex :=
  fold_right Cadd (Complex 0 0) l.

(** [np.mean(a)]. *)
Definition np_mean (l : list complex) : complex :=
  Cdiv_real (Csum l) (INR (length l)).

(** Element-wise product of two arrays of the same size. *)
Fixpoint np_mul (a b : list complex) : list complex :=
  match a, b with
  | x :: a', y :: b' => Cmul x y :: np_mul a' b'
  | _, _ => []
  end.

(* ================================================================== *)
(** * Calibration constants                                            *)
(* ================================================================== *)

Definition SAMPLE_RATE : R := 10000000.
Definition PGA_GAIN : R := 0.
Definition TX_FREQ_DELTA : R := 700000.
Definition TX_CORDIC_FREQ : list R := [1100000; 1500000].
Definition MAX_SEARCH_DEPTHS : list Z := [2; 3; 4; 5; 6; 7; 8; 9; 10]%Z.
Definition NUM_STEPS_PER_ITER : nat := 3.
Definition SAMPS_PER_CAPTURE : nat := 1024 * 8.

(* ================================================================== *)
(** * Generate test points for IQ and DC                               *)
(* ================================================================== *)

(** [1.0/(2**depth)].  For a depth from 0 to 1023 the float is this number
    exactly; from 1024 on the division raises OverflowError, which
    [GenerateTestPoints_py] below adds to the generator. *)
Definition scale (depth : Z) : R := 1 / pow2_int depth.
Definition phaseMax (depth : Z) : R := (PI / 2) * scale depth.
Definition gainMax (depth : Z) : R := 1 * scale depth.
Definition offMax (depth : Z) : R := 1 * scale depth.

Definition dcPoints (depth : Z) : list complex :=
  flat_map (fun dcI =>
    map (fun dcQ => Complex dcI dcQ)
        (linspace (- offMax depth) (offMax depth) NUM_STEPS_PER_ITER))
    (linspace (- offMax depth) (offMax depth) NUM_STEPS_PER_ITER).

Definition iqPoints (depth : Z) : list complex :=
  flat_map (fun ph =>
    map (fun gain => rect (pow2_float gain) ph)
        (linspace (- gainMax depth) (gainMax depth) NUM_STEPS_PER_ITER))
    (linspace (- phaseMax depth) (phaseMax depth) NUM_STEPS_PER_ITER).

Definition GenerateTestPoints (depth : Z) : list (complex * complex) :=
  combine (dcPoints depth) (iqPoints depth).

(** How a call of [GenerateTestPoints] ends: it returns the pairs, or it
    raises the OverflowError of [1.0/(2**depth)]. *)
Inductive generated : Type :=
| Points (l : list (complex * complex))
| OverflowError.

(** [GenerateTestPoints(depth)] for a depth that is not negative, with the
    error of its first line.  [2**depth] is then an integer, and
    [1.0/(2**depth)] converts it to a float before it divides: from
    [2**1024] on the conversion raises OverflowError, and the call returns
    no pairs. *)
Definition GenerateTestPoints_py (depth : N) : generated :=
  if (2 ^ depth <? 2 ^ 1024)%N
  then Points (GenerateTestPoints (Z.of_N depth))
  else OverflowError.

(* ================================================================== *)
(** * Tone level                                                       *)
(* ================================================================== *)

Definition measureToneLevel (samps : list complex) (freq rate : R) : R :=
  let step := -2 * PI * freq / rate in
  let shifted :=
    np_mul samps
      (map (fun t => Cexp (Cmul Cj (of_float t)))
           (linspace 0 (INR (length samps) * step) (length samps))) in
  20 * log10 (py_max 1e-20 (Cabs (np_mean shifted))).

(* ================================================================== *)
(** * Python lists held in variables                                   *)
(* ================================================================== *)

(** A Python list is an object: two variables may name the same list, and
    [l[i] = v] changes it for both.  The lists of best corrections and best
    levels live in a store and the variables hold references; [copy.copy]
    allocates a new list. *)

Definition ref : Type := nat.

Definition store (A : Type) : Type := list (list A).

Fixpoint list_set {A : Type} (l : list A) (i : nat) (v : A) : list A :=
  match l, i with
  | [], _ => []
  | _ :: l', O => v :: l'
  | x :: l', S i' => x :: list_set l' i' v
  end.

Definition store_alloc {A : Type} (s : store A) (l : list A) : ref * store A :=
  (length s, s ++ [l]).

Definition store_get {A : Type} (s : store A) (r : ref) : option (list A) :=
  nth_error s r.

Definition store_set {A : Type} (s : store A) (r : ref) (l : list A) : store A :=
  list_set s r l.

(* ================================================================== *)
(** * The device                                                       *)
(* ================================================================== *)

Inductive direction : Type := SOAPY_SDR_TX | SOAPY_SDR_RX.

(** What one [readStream] call gives back: the status [ret] and the samples
    the driver stored at the start of the two buffers it was handed. *)
Record StreamResult : Type := {
  ret : Z;
  chan0 : list complex;
  chan1 : list complex
}.

(** The calls the calibration makes on [limeSDR]. *)
Record Device : Type := {
  dev_state : Type;
  dev_setFrequency : direction -> nat -> string -> R -> dev_state -> dev_state;
  dev_setGain : direction -> nat -> string -> R -> dev_state -> dev_state;
  dev_setIQBalance : direction -> nat -> complex -> dev_state -> dev_state;
  dev_setDCOffset : direction -> nat -> complex -> dev_state -> dev_state;
  dev_activateStream : nat -> dev_state -> dev_state;
  dev_readStream : nat -> dev_state -> StreamResult * dev_state
}.

(** The trace of a run: every device call with its arguments, and every
    tone level the calibration measures (a history of the run; the script
    keeps no such record). *)
Inductive event : Type :=
| SetFrequency (d : direction) (ch : nat) (name : string) (f : R)
| SetGain (d : direction) (ch : nat) (name : string) (g : R)
| SetIQBalance (d : direction) (ch : nat) (c : complex)
| SetDCOffset (d : direction) (ch : nat) (c : complex)
| ActivateStream (numElems : nat)
| ReadStream (numElems : nat) (status : Z)
| Measured (freq lvl : R).

Inductive exn : Type :=
| StreamError (status : Z)     (* raise Exception(str(sr)) *)
| IndexError.                  (* list index out of range *)

(** How a call ends: it returns, it raises, or the model's budget of
    stream reads is used up before the loop in [readSamps] ends. *)
Inductive result (A : Type) : Type :=
| Returned (a : A)
| Raised (e : exn)
| OutOfFuel.
Arguments Returned {A} a.
Arguments Raised {A} e.
Arguments OutOfFuel {A}.

Section Calibration.

Context {D : Device}.

Record world : Type := World {
  hw : dev_state D;
  trace : list event;
  clists : store complex;      (* lists of complex corrections *)
  flists : store R             (* lists of float levels *)
}.

Definition M (A : Type) : Type := world -> result A * world.

Definition mret {A : Type} (a : A) : M A := fun w => (Returned a, w).

Definition mbind {A B : Type} (m : M A) (k : A -> M B) : M B :=
  fun w =>
    match m w with
    | (Returned a, w') => k a w'
    | (Raised e, w') => (Raised e, w')
    | (OutOfFuel, w') => (OutOfFuel, w')
    end.

Definition raise {A : Type} (e : exn) : M A := fun w => (Raised e, w).

Notation "x <- m ;; k" := (mbind m (fun x => k))
  (at level 61, m at next level, right associativity).
Notation "m ;; k" := (mbind m (fun _ => k))
  (at level 61, right associativity).

Fixpoint foldM {A S : Type} (f : S -> A -> M S) (s : S) (l : list A) : M S :=
  match l with
  | [] => mret s
  | a :: l' => s' <- f s a ;; foldM f s' l'
  end.

(** [for a in l: body]. *)
Definition for_each {A : Type} (l : list A) (body : A -> M unit) : M unit :=
  foldM (fun _ a => body a) tt l.

Definition emit (e : event) (f : dev_state D -> dev_state D) : M unit :=
  fun w => (Returned tt,
            {| hw := f (hw w); trace := trace w ++ [e];
               clists := clists w; flists := flists w |}).

Definition setFrequency (d : direction) (ch : nat) (name : string) (f : R)
  : M unit :=
  emit (SetFrequency d ch name f) (dev_setFrequency D d ch name f).

Definition setGain (d : direction) (ch : nat) (name : string) (g : R)
  : M unit :=
  emit (SetGain d ch name g) (dev_setGain D d ch name g).

Definition setIQBalance (d : direction) (ch : nat) (c : complex) : M unit :=
  emit (SetIQBalance d ch c) (dev_setIQBalance D d ch c).

Definition setDCOffset (d : direction) (ch : nat) (c : complex) : M unit :=
  emit (SetDCOffset d ch c) (dev_setDCOffset D d ch c).

Definition activateStream (numElems : nat) : M unit :=
  emit (ActivateStream numElems) (dev_activateStream D numElems).

Definition readStream (numElems : nat) : M StreamResult :=
  fun w =>
    let (sr, h) := dev_readStream D numElems (hw w) in
    (Returned sr,
     {| hw := h; trace := trace w ++ [ReadStream numElems (ret sr)];
        clists := clists w; flists := flists w |}).

(** [measureToneLevel(samps, freq)] with the default rate, noted in the
    trace. *)
Definition measure (samps : list complex) (freq : R) : M R :=
  fun w =>
    let lvl := measureToneLevel samps freq SAMPLE_RATE in
    (Returned lvl,
     {| hw := hw w; trace := trace w ++ [Measured freq lvl];
        clists := clists w; flists := flists w |}).

(** ** Lists of corrections *)

(** [[x]*2] and [copy.copy(l)]: a new list object. *)
Definition new_clist (l : list complex) : M ref :=
  fun w =>
    let (r, s) := store_alloc (clists w) l in
    (Returned r,
     {| hw := hw w; trace := trace w; clists := s; flists := flists w |}).

Definition copy_copy (r : ref) : M ref :=
  fun w =>
    match store_get (clists w) r with
    | Some l => new_clist l w
    | None => (Raised IndexError, w)
    end.

(** [l[i]]. *)
Definition getitem (r : ref) (i : nat) : M complex :=
  fun w =>
    match store_get (clists w) r with
    | Some l => match nth_error l i with
                | Some v => (Returned v, w)
                | None => (Raised IndexError, w)
                end
    | None => (Raised IndexError, w)
    end.

(** [l[i] = v]. *)
Definition setitem (r : ref) (i : nat) (v : complex) : M unit :=
  fun w =>
    match store_get (clists w) r with
    | Some l =>
        if (i <? length l)%nat then
          (Returned tt,
           {| hw := hw w; trace := trace w;
              clists := store_set (clists w) r (list_set l i v);
              flists := flists w |})
        else (Raised IndexError, w)
    | None => (Raised IndexError, w)
    end.

(** ** Lists of levels *)

Definition new_flist (l : list R) : M ref :=
  fun w =>
    let (r, s) := store_alloc (flists w) l in
    (Returned r,
     {| hw := hw w; trace := trace w; clists := clists w; flists := s |}).

Definition getlevel (r : ref) (i : nat) : M R :=
  fun w =>
    match store_get (flists w) r with
    | Some l => match nth_error l i with
                | Some v => (Returned v, w)
                | None => (Raised IndexError, w)
                end
    | None => (Raised IndexError, w)
    end.

Definition setlevel (r : ref) (i : nat) (v : R) : M unit :=
  fun w =>
    match store_get (flists w) r with
    | Some l =>
        if (i <? length l)%nat then
          (Returned tt,
           {| hw := hw w; trace := trace w; clists := clists w;
              flists := store_set (flists w) r (list_set l i v) |})
        else (Raised IndexError, w)
    | None => (Raised IndexError, w)
    end.

(* ================================================================== *)
(** * Sample utilities                                                 *)
(* ================================================================== *)

(** A write through a numpy view: [data] lands in [buf] from index [pos]
    on, as far as the buffer goes. *)
Definition blit (buf : list complex) (pos : nat) (data : list complex)
  : list complex :=
  firstn pos buf ++ firstn (length buf - pos) data
    ++ skipn (pos + length data) buf.

(** The [while b0.size] loop.  [b0] and [b1] are views of [rxSamples[0]] and
    [rxSamples[1]] that start at index [pos]; [b0 = b0[sr.ret:]] moves the
    start.  [fuel] bounds the number of reads. *)
Fixpoint read_loop (fuel : nat) (rx0 rx1 : list complex) (pos : nat)
  : M (list complex * list complex) :=
  let size := (length rx0 - pos)%nat in
  if (size =? 0)%nat then mret (rx0, rx1)
  else
    match fuel with
    | O => fun w => (OutOfFuel, w)
    | S fuel' =>
        sr <- readStream size ;;
        if (ret sr <? 0)%Z then raise (StreamError (ret sr))
        else read_loop fuel'
               (blit rx0 pos (chan0 sr)) (blit rx1 pos (chan1 sr))
               (pos + Nat.min (Z.to_nat (ret sr)) size)
    end.

(** [a -= np.mean(a)]. *)
Definition remove_dc (a : list complex) : list complex :=
  map (fun s => Csub s (np_mean a)) a.

Definition readSamps (fuel numSamps : nat) : M (list (list complex)) :=
  let zeros := repeat (Complex 0 0) numSamps in
  activateStream numSamps ;;
  rxSamples <- read_loop fuel zeros zeros 0 ;;
  mret [remove_dc (fst rxSamples); remove_dc (snd rxSamples)].

(* ================================================================== *)
(** * Calibrate at a specified frequency                               *)
(* ================================================================== *)

(** [for ch in [0, 1]]. *)
Definition channels : list nat := [0; 1]%nat.

(** Set the RF frequency and clear the corrections. *)
Definition prepare (freq : R) : M unit :=
  setFrequency SOAPY_SDR_RX 0 "RF" freq ;;
  setFrequency SOAPY_SDR_TX 0 "RF" (freq + TX_FREQ_DELTA) ;;
  for_each channels (fun channel =>
    setFrequency SOAPY_SDR_TX channel "BB" 0 ;;
    setFrequency SOAPY_SDR_RX channel "BB" 0 ;;
    setDCOffset SOAPY_SDR_TX channel (of_float 0) ;;
    setIQBalance SOAPY_SDR_TX channel (of_float 1) ;;
    setIQBalance SOAPY_SDR_RX channel (of_float 1)).

(** Adjust gain for best levels. *)
Definition adjust_rx_gain (fuel : nat) : M unit :=
  for_each channels (fun ch => setGain SOAPY_SDR_RX ch "PGA" PGA_GAIN) ;;
  samps <- readSamps fuel SAMPS_PER_CAPTURE ;;
  for_each channels (fun ch =>
    lvldB <- measure (nth ch samps []) TX_FREQ_DELTA ;;
    let deltadB := -10 - lvldB in
    setGain SOAPY_SDR_RX ch "PGA" (py_min 19 (PGA_GAIN + deltadB))).

(** ** Sweep for best Rx IQ correction *)

(** The first inner loop of a test point: compose and apply the candidates.
    [newIqCorrs] is a list made and read within one test point. *)
Definition rx_candidates (bestRxIqCorrsIter : ref) (iqPoint : complex)
  : M (list complex) :=
  foldM (fun newIqCorrs ch =>
           b <- getitem bestRxIqCorrsIter ch ;;
           let newIqCorr :=
             rect (Cabs iqPoint * Cabs b) (phase iqPoint + phase b) in
           setIQBalance SOAPY_SDR_RX ch newIqCorr ;;
           mret (newIqCorrs ++ [newIqCorr]))
        [] channels.

(** The second inner loop: keep the candidates that measure better. *)
Definition rx_keep_best (bestRxIqCorrs bestRxIqLevels : ref)
    (newIqCorrs : list complex) (samps : list (list complex)) : M unit :=
  for_each channels (fun ch =>
    lvl <- measure (nth ch samps []) (- TX_FREQ_DELTA) ;;
    best <- getlevel bestRxIqLevels ch ;;
    if Rlt_dec lvl best then
      setitem bestRxIqCorrs ch (nth ch newIqCorrs (of_float 0)) ;;
      setlevel bestRxIqLevels ch lvl
    else mret tt).

Definition rx_point (fuel : nat)
    (bestRxIqCorrs bestRxIqLevels bestRxIqCorrsIter : ref)
    (point : complex * complex) : M unit :=
  let iqPoint := snd point in
  newIqCorrs <- rx_candidates bestRxIqCorrsIter iqPoint ;;
  samps <- readSamps fuel SAMPS_PER_CAPTURE ;;
  rx_keep_best bestRxIqCorrs bestRxIqLevels newIqCorrs samps.

Definition rx_depth (fuel : nat) (bestRxIqCorrs bestRxIqLevels : ref)
    (depth : Z) : M unit :=
  bestRxIqCorrsIter <- copy_copy bestRxIqCorrs ;;
  for_each (GenerateTestPoints depth)
    (rx_point fuel bestRxIqCorrs bestRxIqLevels bestRxIqCorrsIter).

(** The search stage, from [rxInitial] to [rxFinal]. *)
Definition rx_iq_search (fuel : nat) : M unit :=
  readSamps fuel SAMPS_PER_CAPTURE ;;                       (* rxInitial *)
  bestRxIqCorrs <- new_clist [of_float 1; of_float 1] ;;
  bestRxIqLevels <- new_flist [1; 1] ;;
  for_each MAX_SEARCH_DEPTHS
    (rx_depth fuel bestRxIqCorrs bestRxIqLevels) ;;
  for_each channels (fun ch =>
    c <- getitem bestRxIqCorrs ch ;;
    setIQBalance SOAPY_SDR_RX ch c) ;;
  readSamps fuel SAMPS_PER_CAPTURE ;;                       (* rxFinal *)
  mret tt.

(** ** Sweep for best Tx IQ and DC correction *)

Definition tx_candidates (bestTxIqCorrsIter bestTxDcCorrsIter : ref)
    (dcPoint iqPoint : complex) : M (list complex * list complex) :=
  foldM (fun new ch =>
           bIq <- getitem bestTxIqCorrsIter ch ;;
           let newIqCorr :=
             rect (Cabs iqPoint * Cabs bIq) (phase iqPoint + phase bIq) in
           bDcRe <- getitem bestTxDcCorrsIter ch ;;
           bDcIm <- getitem bestTxDcCorrsIter ch ;;
           let newDcCorr :=
             Complex
               (py_max (py_min (real bDcRe + real dcPoint) 1) (-1))
               (py_max (py_min (imag bDcIm + imag dcPoint) 1) (-1)) in
           setIQBalance SOAPY_SDR_TX ch newIqCorr ;;
           setDCOffset SOAPY_SDR_TX ch newDcCorr ;;
           mret (fst new ++ [newIqCorr], snd new ++ [newDcCorr]))
        ([], []) channels.

Definition tx_keep_best
    (bestTxIqCorrs bestTxIqLevels bestTxDcCorrs bestTxDcLevels : ref)
    (newIqCorrs newDcCorrs : list complex) (samps : list (list complex))
  : M unit :=
  for_each channels (fun ch =>
    lvl <- measure (nth ch samps [])
             (TX_FREQ_DELTA - nth ch TX_CORDIC_FREQ 0) ;;
    bestIq <- getlevel bestTxIqLevels ch ;;
    (if Rlt_dec lvl bestIq then
       setitem bestTxIqCorrs ch (nth ch newIqCorrs (of_float 0)) ;;
       setlevel bestTxIqLevels ch lvl
     else mret tt) ;;
    lvl <- measure (nth ch samps []) TX_FREQ_DELTA ;;
    bestDc <- getlevel bestTxDcLevels ch ;;
    if Rlt_dec lvl bestDc then
      setitem bestTxDcCorrs ch (nth ch newDcCorrs (of_float 0)) ;;
      setlevel bestTxDcLevels ch lvl
    else mret tt).

Definition tx_point (fuel : nat)
    (bestTxIqCorrs bestTxIqLevels bestTxDcCorrs bestTxDcLevels : ref)
    (bestTxIqCorrsIter bestTxDcCorrsIter : ref)
    (point : complex * complex) : M unit :=
  let dcPoint := fst point in
  let iqPoint := snd point in
  new <- tx_candidates bestTxIqCorrsIter bestTxDcCorrsIter dcPoint iqPoint ;;
  samps <- readSamps fuel SAMPS_PER_CAPTURE ;;
  tx_keep_best bestTxIqCorrs bestTxIqLevels bestTxDcCorrs bestTxDcLevels
    (fst new) (snd new) samps.

Definition tx_depth (fuel : nat)
    (bestTxIqCorrs bestTxIqLevels bestTxDcCorrs bestTxDcLevels : ref)
    (depth : Z) : M unit :=
  bestTxIqCorrsIter <- copy_copy bestTxIqCorrs ;;
  bestTxDcCorrsIter <- copy_copy bestTxDcCorrs ;;
  for_each (GenerateTestPoints depth)
    (tx_point fuel bestTxIqCorrs bestTxIqLevels bestTxDcCorrs bestTxDcLevels
       bestTxIqCorrsIter bestTxDcCorrsIter).

(** The search stage, from [txInitial] to [txFinal]. *)
Definition tx_iq_dc_search (fuel : nat) : M unit :=
  for_each channels (fun ch =>
    setFrequency SOAPY_SDR_TX ch "BB" (nth ch TX_CORDIC_FREQ 0)) ;;
  readSamps fuel SAMPS_PER_CAPTURE ;;                       (* txInitial *)
  bestTxIqCorrs <- new_clist [of_float 1; of_float 1] ;;
  bestTxIqLevels <- new_flist [1; 1] ;;
  bestTxDcCorrs <- new_clist [of_float 0; of_float 0] ;;
  bestTxDcLevels <- new_flist [1; 1] ;;
  for_each MAX_SEARCH_DEPTHS
    (tx_depth fuel bestTxIqCorrs bestTxIqLevels bestTxDcCorrs bestTxDcLevels) ;;
  for_each channels (fun ch =>
    cIq <- getitem bestTxIqCorrs ch ;;
    setIQBalance SOAPY_SDR_TX ch cIq ;;
    cDc <- getitem bestTxDcCorrs ch ;;
    setDCOffset SOAPY_SDR_TX ch cDc) ;;
  readSamps fuel SAMPS_PER_CAPTURE ;;                       (* txFinal *)
  mret tt.

(** The whole calibration; the plot that ends it is left out. *)
Definition CalibrateAtFreq (fuel : nat) (freq : R) : M unit :=
  prepare freq ;;
  adjust_rx_gain fuel ;;
  rx_iq_search fuel ;;
  tx_iq_dc_search fuel.

End Calibration.

Arguments world D : clear implicits.
Arguments M D A : clear implicits.

(* ================================================================== *)
(** * Vocabulary of the properties                                     *)
(* ================================================================== *)

(** ** The tone level as the specification words it *)

(** The tone level as the specification words it: sample [n] is multiplied
    by [exp(-2 pi i freq n / rate)]. *)
Definition shift_spec (freq rate : R) (n : nat) : complex :=
  Cexp (Cmul Cj (of_float (-2 * PI * freq * INR n / rate))).

Definition measureToneLevel_spec (samps : list complex) (freq rate : R) : R :=
  let shifted :=
    np_mul samps (map (shift_spec freq rate) (seq 0 (length samps))) in
  20 * log10 (py_max 1e-20 (Cabs (np_mean shifted))).

(** ** Ranges of the test points *)

(** The ranges of a DC delta and of an IQ delta at depth [D]. *)
Definition dc_in_range (D : Z) (dc : complex) : Prop :=
  Rabs (real dc) <= powerRZ 2 (- D) /\ Rabs (imag dc) <= powerRZ 2 (- D).

Definition iq_in_range (D : Z) (iq : complex) : Prop :=
  - ((PI / 2) * powerRZ 2 (- D)) <= phase iq <= (PI / 2) * powerRZ 2 (- D) /\
  Rpower 2 (- powerRZ 2 (- D)) <= Cabs iq <= Rpower 2 (powerRZ 2 (- D)).

(** ** Streams and captures *)

(** The events of the stream: activation and reads. *)
Definition is_stream (e : event) : Prop :=
  match e with
  | ActivateStream _ | ReadStream _ _ => True
  | _ => False
  end.

(** No read in [evs] reported a negative status. *)
Definition reads_nonneg (evs : list event) : Prop :=
  forall n s, In (ReadStream n s) evs -> (0 <= s)%Z.

(** Some read in [evs] reported a negative status. *)
Definition read_failed (evs : list event) : Prop :=
  exists n s, In (ReadStream n s) evs /\ (s < 0)%Z.

(** Every read that asks for at least one sample delivers at least one. *)
Definition delivers (D : Device) : Prop :=
  forall (n : nat) (st : dev_state D),
    (0 < n)%nat -> (0 < ret (fst (dev_readStream D n st)))%Z.

(** Every capture of [SAMPS_PER_CAPTURE] samples returns. *)
Definition acquires (D : Device) (fuel : nat) : Prop :=
  forall w : world D,
    exists samps w', readSamps fuel SAMPS_PER_CAPTURE w = (Returned samps, w').

(** The sample blocks that some capture returns. *)
Definition captured {D : Device} (fuel : nat) (samps : list (list complex))
  : Prop :=
  exists w w' : world D,
    readSamps fuel SAMPS_PER_CAPTURE w = (Returned samps, w').

(** ** Events of a run *)

(** What running [m] from the world [w] adds to the trace. *)
Definition events_of {D : Device} {A : Type} (m : M D A) (w : world D)
  : list event :=
  skipn (length (trace w)) (trace (snd (m w))).

(** The calls that apply a correction. *)
Definition is_setter (e : event) : bool :=
  match e with
  | SetIQBalance _ _ _ | SetDCOffset _ _ _ => true
  | _ => false
  end.

(** Every event that [m] adds to the trace satisfies [P], and a value it
    returns satisfies [Q]. *)
Definition emits {D : Device} {A : Type} (P : event -> Prop) (Q : A -> Prop)
    (m : M D A) : Prop :=
  forall w : world D,
    exists evs,
      trace (snd (m w)) = trace w ++ evs /\ Forall P evs /\
      forall a, fst (m w) = Returned a -> Q a.

(** ** Candidates *)

(** The IQ candidate for test point [iqPoint] on top of the correction [b]. *)
Definition composed (iqPoint b : complex) : complex :=
  rect (Cabs iqPoint * Cabs b) (phase iqPoint + phase b).

(** The DC clamp, and the DC candidate for [dcPoint] on top of [b]. *)
Definition dc_clamp (x : R) : R := py_max (py_min x 1) (-1).

Definition shifted (dcPoint b : complex) : complex :=
  Complex (dc_clamp (real b + real dcPoint)) (dc_clamp (imag b + imag dcPoint)).

(** The setter calls of one Rx test point, from the corrections [c0], [c1]. *)
Definition rx_applied (c0 c1 : complex) (point : complex * complex)
  : list event :=
  [SetIQBalance SOAPY_SDR_RX 0 (composed (snd point) c0);
   SetIQBalance SOAPY_SDR_RX 1 (composed (snd point) c1)].

(** The setter calls of one Tx test point. *)
Definition tx_applied (iq0 iq1 dc0 dc1 : complex) (point : complex * complex)
  : list event :=
  [SetIQBalance SOAPY_SDR_TX 0 (composed (snd point) iq0);
   SetDCOffset SOAPY_SDR_TX 0 (shifted (fst point) dc0);
   SetIQBalance SOAPY_SDR_TX 1 (composed (snd point) iq1);
   SetDCOffset SOAPY_SDR_TX 1 (shifted (fst point) dc1)].

(** A DC correction with both parts in [-1, 1]. *)
Definition in_box (c : complex) : Prop :=
  -1 <= real c <= 1 /\ -1 <= imag c <= 1.

(** A call that sets a DC correction sets one in the box. *)
Definition dc_in_box (e : event) : Prop :=
  match e with
  | SetDCOffset _ _ c => in_box c
  | _ => True
  end.

(** ** Keeping the best *)

(** What [if lvl < best: ...] leaves in the two lists. *)
Definition better (lvl l : R) (n b : complex) : complex :=
  if Rlt_dec lvl l then n else b.

Definition lower (lvl l : R) : R := if Rlt_dec lvl l then lvl else l.

(** The two levels measured on channel [ch] at one Tx test point. *)
Definition tx_iq_level (samps : list (list complex)) (ch : nat) : R :=
  measureToneLevel (nth ch samps [])
    (TX_FREQ_DELTA - nth ch TX_CORDIC_FREQ 0) SAMPLE_RATE.

Definition tx_dc_level (samps : list (list complex)) (ch : nat) : R :=
  measureToneLevel (nth ch samps []) TX_FREQ_DELTA SAMPLE_RATE.

(** A list of the store holds the two values [x]. *)
Definition holds {A : Type} (s : store A) (r : ref) (x : A * A) : Prop :=
  store_get s r = Some [fst x; snd x].

(** How a best correction [b] with level [l] may have become [b'] with
    level [l'] while the events [evs] happened: the level did not go up; if
    it is the same, so is the correction; if it is lower, it is a level
    that was measured. *)
Definition progress (b : complex) (l : R) (b' : complex) (l' : R)
    (evs : list event) : Prop :=
  l' <= l /\ (l' = l -> b' = b) /\
  (l' < l -> exists f, In (Measured f l') evs).

(** [progress] on both channels. *)
Definition progress2 (b : complex * complex) (l : R * R)
    (b' : complex * complex) (l' : R * R) (evs : list event) : Prop :=
  progress (fst b) (fst l) (fst b') (fst l') evs /\
  progress (snd b) (snd l) (snd b') (snd l') evs.

(** The tones whose level the calibration measures. *)
Definition tone_freqs : list R :=
  [TX_FREQ_DELTA; - TX_FREQ_DELTA;
   TX_FREQ_DELTA - nth 0 TX_CORDIC_FREQ 0;
   TX_FREQ_DELTA - nth 1 TX_CORDIC_FREQ 0].

(** A measured level is the level of a captured block, at one of the
    measured tones. *)
Definition measured_from_capture (D : Device) (fuel : nat) (e : event) : Prop :=
  match e with
  | Measured f lvl =>
      exists samps ch,
        @captured D fuel samps /\ (ch < 2)%nat /\ In f tone_freqs /\
        lvl = measureToneLevel (nth ch samps []) f SAMPLE_RATE
  | _ => True
  end.

(** ** Devices to run the calibration on *)

(** The amplitude of the loud block; the model puts no bound on a sample. *)
Definition TONE_AMPLITUDE : R := 1000000.

(** A block whose first two samples are [+A] and [-A], the rest zero. *)
Definition tone_block (n : nat) : list complex :=
  match n with
  | S (S k) =>
      of_float TONE_AMPLITUDE :: of_float (- TONE_AMPLITUDE)
        :: repeat (Complex 0 0) k
  | _ => repeat (Complex 0 0) n
  end.

(** A device whose every read fills the whole buffer with [block n], [n]
    being the size asked for; the setters change nothing. *)
Definition block_device (block : nat -> list complex) : Device := {|
  dev_state := unit;
  dev_setFrequency := fun _ _ _ _ st => st;
  dev_setGain := fun _ _ _ _ st => st;
  dev_setIQBalance := fun _ _ _ st => st;
  dev_setDCOffset := fun _ _ _ st => st;
  dev_activateStream := fun _ st => st;
  dev_readStream := fun n st =>
    ({| ret := Z.of_nat n; chan0 := block n; chan1 := block n |}, st)
|}.

(** The device that delivers the loud block, and the one that delivers
    silence. *)
Definition loud_device : Device := block_device tone_block.

Definition quiet_device : Device := block_device (repeat (Complex 0 0)).

(** Every read on this device reports zero samples. *)
Definition stalled_device : Device := {|
  dev_state := unit;
  dev_setFrequency := fun _ _ _ _ st => st;
  dev_setGain := fun _ _ _ _ st => st;
  dev_setIQBalance := fun _ _ _ st => st;
  dev_setDCOffset := fun _ _ _ st => st;
  dev_activateStream := fun _ st => st;
  dev_readStream := fun n st => ({| ret := 0; chan0 := []; chan1 := [] |}, st)
|}.

(** A world with nothing in the trace and nothing in the store. *)
Definition fresh (D : Device) (st : dev_state D) : world D :=
  {| hw := st; trace := []; clists := []; flists := [] |}.

(** A world that holds the six lists as the searches create them. *)
Definition search_world (D : Device) (st : dev_state D) : world D :=
  {| hw := st; trace := [];
     clists := [[of_float 1; of_float 1]; [of_float 1; of_float 1];
                [of_float 0; of_float 0]];
     flists := [[1; 1]; [1; 1]; [1; 1]] |}.

(** ** The reads of a capture *)

(** A read of the stream. *)
Definition is_read (e : event) : Prop :=
  match e with
  | ReadStream _ _ => True
  | _ => False
  end.

(** What is still missing of a capture of [missing] samples after the reads
    [reads], when each of them asked for exactly what was missing at its
    time, asked only while something was missing, and reported a status that
    is not negative; [None] for any other sequence of events. *)
Fixpoint missing_after (missing : nat) (reads : list event) : option nat :=
  match reads with
  | [] => Some missing
  | ReadStream n s :: reads' =>
      if ((n =? missing)%nat && (0 <? missing)%nat && (0 <=? s)%Z)%bool
      then missing_after (missing - Z.to_nat s) reads'
      else None
  | _ :: _ => None
  end.

(** The sizes that the reads of [evs] asked for. *)
Definition requests (evs : list event) : list nat :=
  flat_map (fun e => match e with
                     | ReadStream n _ => [n]
                     | _ => []
                     end) evs.

(** What the device answers to reads of the sizes [reqs], issued in this
    order from the state [st]. *)
Fixpoint stream_replay (D : Device) (st : dev_state D) (reqs : list nat)
  : list StreamResult :=
  match reqs with
  | [] => []
  | n :: reqs' =>
      let (sr, st') := dev_readStream D n st in
      sr :: stream_replay D st' reqs'
  end.

(** The reads of sizes [reqs] as the trace records them, with the statuses
    of the answers [srs]. *)
Definition answered (reqs : list nat) (srs : list StreamResult) : list event :=
  map (fun p => ReadStream (fst p) (ret (snd p))) (combine reqs srs).

(** The two buffers after the answers [srs] have been stored: each answer
    lands where the views start ([pos]), and the views then move on by the
    count it reported. *)
Fixpoint collected (rx0 rx1 : list complex) (pos : nat)
    (srs : list StreamResult) : list complex * list complex :=
  match srs with
  | [] => (rx0, rx1)
  | sr :: srs' =>
      collected (blit rx0 pos (chan0 sr)) (blit rx1 pos (chan1 sr))
                (pos + Nat.min (Z.to_nat (ret sr)) (length rx0 - pos)) srs'
  end.

(** A pair of chunks of the same length, one per channel. *)
Definition same_length (c : list complex * list complex) : Prop :=
  length (fst c) = length (snd c).

(** ** A device that plays a script *)

(** A device that plays a script: each read hands over the next pair of
    chunks, whatever the size asked for, and reports a timeout (-1) once the
    script is over. *)
Definition scripted_device : Device := {|
  dev_state := list (list complex * list complex);
  dev_setFrequency := fun _ _ _ _ st => st;
  dev_setGain := fun _ _ _ _ st => st;
  dev_setIQBalance := fun _ _ _ st => st;
  dev_setDCOffset := fun _ _ _ st => st;
  dev_activateStream := fun _ st => st;
  dev_readStream := fun n st =>
    match st with
    | [] => ({| ret := -1; chan0 := []; chan1 := [] |}, [])
    | (c0, c1) :: rest =>
        ({| ret := Z.of_nat (length c0); chan0 := c0; chan1 := c1 |}, rest)
    end
|}.

(** ** Loops and test points as relations *)

(** A loop [for x in xs] over a state [S], as a relation: each round that
    returns hands its state to the next one, and the first round that does
    not return ends the loop. *)
Inductive steps {X S : Type}
    (step : X -> S -> list event -> result unit -> S -> Prop)
  : list X -> S -> list event -> result unit -> S -> Prop :=
| steps_nil (s : S) : steps step [] s [] (Returned tt) s
| steps_next (x : X) (xs : list X) (s s1 s' : S) (evs1 evs : list event)
    (r : result unit) :
    step x s evs1 (Returned tt) s1 ->
    steps step xs s1 evs r s' ->
    steps step (x :: xs) s (evs1 ++ evs) r s'
| steps_stop (x : X) (xs : list X) (s s' : S) (evs : list event)
    (r : result unit) :
    step x s evs r s' -> r <> Returned tt ->
    steps step (x :: xs) s evs r s'.

(** The bests of the Rx search: the two corrections and their levels. *)
Definition rx_state : Type := (complex * complex) * (R * R).

(** The level measured on channel [ch] at one Rx test point. *)
Definition rx_level (samps : list (list complex)) (ch : nat) : R :=
  measureToneLevel (nth ch samps []) (- TX_FREQ_DELTA) SAMPLE_RATE.

(** The levels measured at one Rx test point, channel 0 then channel 1. *)
Definition rx_levels (samps : list (list complex)) : list event :=
  [Measured (- TX_FREQ_DELTA) (rx_level samps 0);
   Measured (- TX_FREQ_DELTA) (rx_level samps 1)].

(** The bests of the Tx search: IQ corrections and levels, DC corrections
    and levels. *)
Definition tx_state : Type :=
  ((complex * complex) * (R * R)) * ((complex * complex) * (R * R)).

(** The levels measured at one Tx test point: per channel, the level of the
    IQ tone and then the level of the DC tone. *)
Definition tx_levels (samps : list (list complex)) : list event :=
  [Measured (TX_FREQ_DELTA - nth 0 TX_CORDIC_FREQ 0) (tx_iq_level samps 0);
   Measured TX_FREQ_DELTA (tx_dc_level samps 0);
   Measured (TX_FREQ_DELTA - nth 1 TX_CORDIC_FREQ 0) (tx_iq_level samps 1);
   Measured TX_FREQ_DELTA (tx_dc_level samps 1)].

(** The store of [w] holds the bests [s] in the lists [best] and [lv]. *)
Definition rx_stored {D : Device} (best lv : ref) (w : world D)
    (s : rx_state) : Prop :=
  holds (clists w) best (fst s) /\ holds (flists w) lv (snd s).

(** The same for the four lists of the Tx search. *)
Definition tx_stored {D : Device} (bIq lIq bDc lDc : ref) (w : world D)
    (s : tx_state) : Prop :=
  (holds (clists w) bIq (fst (fst s)) /\ holds (flists w) lIq (snd (fst s))) /\
  (holds (clists w) bDc (fst (snd s)) /\ holds (flists w) lDc (snd (snd s))).

(** ** Recording a candidate *)

(** One comparison [if lvl < best: ...] on lists whose best level [l] is at
    most 1.0, for the candidate [n] whose level measured [m]: either the
    candidate is recorded with its own level, which is then below [l] and
    below 1.0, or the lists keep the correction [b] and the level [l]. *)
Definition recorded_or_kept (m l : R) (n b b' : complex) (l' : R) : Prop :=
  (m < l /\ m < 1 /\ b' = n /\ l' = m) \/ (l <= m /\ b' = b /\ l' = l).

(** One Rx test point [p] of a depth whose candidates are built on [c],
    from the bests [s] to the bests [s'].  The best levels are at most 1.0
    when it starts.  When it returns, its events are the setter calls of
    the candidates, the events of one capture and the two levels measured
    on the captured block, and each channel compares its own level with its
    own best level.  When the capture fails, the bests are unchanged. *)
Definition rx_point_outcome (D : Device) (fuel : nat)
    (c p : complex * complex) (s : rx_state) (evs : list event)
    (r : result unit) (s' : rx_state) : Prop :=
  let '((b0, b1), (l0, l1)) := s in
  let '((b0', b1'), (l0', l1')) := s' in
  (l0 <= 1 /\ l1 <= 1) /\
  match r with
  | Returned _ =>
      exists cevs samps,
        @captured D fuel samps /\ Forall is_stream cevs /\
        evs = rx_applied (fst c) (snd c) p ++ cevs ++ rx_levels samps /\
        recorded_or_kept (rx_level samps 0) l0
          (composed (snd p) (fst c)) b0 b0' l0' /\
        recorded_or_kept (rx_level samps 1) l1
          (composed (snd p) (snd c)) b1 b1' l1'
  | _ => s' = s
  end.

(** One depth of the Rx search: its test points in turn, the candidates
    being built on the bests at the start of the depth. *)
Definition rx_depth_outcome (D : Device) (fuel : nat) (depth : Z)
    (s : rx_state) (evs : list event) (r : result unit) (s' : rx_state)
  : Prop :=
  steps (rx_point_outcome D fuel (fst s)) (GenerateTestPoints depth)
        s evs r s'.

(** One Tx test point, the IQ candidates being built on [ci] and the DC
    candidates on [cd].  On each channel the IQ candidate is compared on the
    level of the IQ tone with the best IQ level, and the DC candidate on the
    level of the DC tone with the best DC level. *)
Definition tx_point_outcome (D : Device) (fuel : nat)
    (ci cd p : complex * complex) (s : tx_state) (evs : list event)
    (r : result unit) (s' : tx_state) : Prop :=
  let '(((q0, q1), (a0, a1)), ((d0, d1), (e0, e1))) := s in
  let '(((q0', q1'), (a0', a1')), ((d0', d1'), (e0', e1'))) := s' in
  (a0 <= 1 /\ a1 <= 1 /\ e0 <= 1 /\ e1 <= 1) /\
  match r with
  | Returned _ =>
      exists cevs samps,
        @captured D fuel samps /\ Forall is_stream cevs /\
        evs = tx_applied (fst ci) (snd ci) (fst cd) (snd cd) p ++ cevs
                ++ tx_levels samps /\
        recorded_or_kept (tx_iq_level samps 0) a0
          (composed (snd p) (fst ci)) q0 q0' a0' /\
        recorded_or_kept (tx_dc_level samps 0) e0
          (shifted (fst p) (fst cd)) d0 d0' e0' /\
        recorded_or_kept (tx_iq_level samps 1) a1
          (composed (snd p) (snd ci)) q1 q1' a1' /\
        recorded_or_kept (tx_dc_level samps 1) e1
          (shifted (fst p) (snd cd)) d1 d1' e1'
  | _ => s' = s
  end.

(** One depth of the Tx search: both kinds of candidates are built on the
    bests at the start of the depth. *)
Definition tx_depth_outcome (D : Device) (fuel : nat) (depth : Z)
    (s : tx_state) (evs : list event) (r : result unit) (s' : tx_state)
  : Prop :=
  steps (tx_point_outcome D fuel (fst (fst s)) (fst (snd s)))
        (GenerateTestPoints depth) s evs r s'.

(** The best levels of a state are at most 1.0. *)
Definition rx_below_one (s : rx_state) : Prop :=
  fst (snd s) <= 1 /\ snd (snd s) <= 1.

Definition tx_below_one (s : tx_state) : Prop :=
  (fst (snd (fst s)) <= 1 /\ snd (snd (fst s)) <= 1) /\
  (fst (snd (snd s)) <= 1 /\ snd (snd (snd s)) <= 1).

(** The bests after the test point [p] measured on [samps], the candidates
    being built on the snapshot [c]. *)
Definition rx_update (c : complex * complex) (p : complex * complex)
    (samps : list (list complex)) (s : rx_state) : rx_state :=
  ((better (rx_level samps 0) (fst (snd s))
      (composed (snd p) (fst c)) (fst (fst s)),
    better (rx_level samps 1) (snd (snd s))
      (composed (snd p) (snd c)) (snd (fst s))),
   (lower (rx_level samps 0) (fst (snd s)),
    lower (rx_level samps 1) (snd (snd s)))).

(** The bests after one Tx test point, the IQ candidates being built on
    [ci] and the DC candidates on [cd]. *)
Definition tx_update (ci cd : complex * complex) (p : complex * complex)
    (samps : list (list complex)) (s : tx_state) : tx_state :=
  let q := fst (fst s) in let a := snd (fst s) in
  let d := fst (snd s) in let e := snd (snd s) in
  (((better (tx_iq_level samps 0) (fst a) (composed (snd p) (fst ci)) (fst q),
     better (tx_iq_level samps 1) (snd a) (composed (snd p) (snd ci)) (snd q)),
    (lower (tx_iq_level samps 0) (fst a), lower (tx_iq_level samps 1) (snd a))),
   ((better (tx_dc_level samps 0) (fst e) (shifted (fst p) (fst cd)) (fst d),
     better (tx_dc_level samps 1) (snd e) (shifted (fst p) (snd cd)) (snd d)),
    (lower (tx_dc_level samps 0) (fst e), lower (tx_dc_level samps 1) (snd e)))).

(** ** The calls of a run *)

(** The run stopped at a read that reported the negative status [s]: the
    read is the last event, and the exception carries its status. *)
Definition stream_failure (x : exn) (evs : list event) : Prop :=
  exists pre n s,
    evs = pre ++ [ReadStream n s] /\ (s < 0)%Z /\ x = StreamError s.

(** The start of a capture, and the number of captures started in [evs]. *)
Definition is_activation (e : event) : bool :=
  match e with
  | ActivateStream _ => true
  | _ => false
  end.

Definition activations (evs : list event) : nat :=
  length (filter is_activation evs).

(** The events of one capture of [SAMPS_PER_CAPTURE] samples that ended as
    [r]: the activation, then reads only; a raised exception is the failure
    of the last read. *)
Definition capture_ends {A : Type} (evs : list event) (r : result A) : Prop :=
  (exists reads,
      evs = ActivateStream SAMPS_PER_CAPTURE :: reads /\ Forall is_read reads) /\
  (forall x, r = Raised x -> stream_failure x evs).

(** One Rx test point: the candidates are applied, a capture is made, and
    when it returns the levels are measured and the bests updated. *)
Inductive rx_point_sem (c : complex * complex) (p : complex * complex)
    (s : rx_state) : list event -> result unit -> rx_state -> Prop :=
| rx_point_measured (cevs : list event) (samps : list (list complex)) :
    capture_ends cevs (Returned samps) ->
    rx_point_sem c p s
      (rx_applied (fst c) (snd c) p ++ cevs ++ rx_levels samps)
      (Returned tt) (rx_update c p samps s)
| rx_point_stopped (cevs : list event) (r : result unit) :
    capture_ends cevs r -> r <> Returned tt ->
    rx_point_sem c p s (rx_applied (fst c) (snd c) p ++ cevs) r s.

(** One depth of the Rx search: the snapshot is the bests at its start. *)
Definition rx_depth_sem (depth : Z) (s : rx_state) (evs : list event)
    (r : result unit) (s' : rx_state) : Prop :=
  steps (rx_point_sem (fst s)) (GenerateTestPoints depth) s evs r s'.

(** One Tx test point. *)
Inductive tx_point_sem (ci cd : complex * complex) (p : complex * complex)
    (s : tx_state) : list event -> result unit -> tx_state -> Prop :=
| tx_point_measured (cevs : list event) (samps : list (list complex)) :
    capture_ends cevs (Returned samps) ->
    tx_point_sem ci cd p s
      (tx_applied (fst ci) (snd ci) (fst cd) (snd cd) p ++ cevs
         ++ tx_levels samps)
      (Returned tt) (tx_update ci cd p samps s)
| tx_point_stopped (cevs : list event) (r : result unit) :
    capture_ends cevs r -> r <> Returned tt ->
    tx_point_sem ci cd p s
      (tx_applied (fst ci) (snd ci) (fst cd) (snd cd) p ++ cevs) r s.

(** One depth of the Tx search. *)
Definition tx_depth_sem (depth : Z) (s : tx_state) (evs : list event)
    (r : result unit) (s' : tx_state) : Prop :=
  steps (tx_point_sem (fst (fst s)) (fst (snd s)))
        (GenerateTestPoints depth) s evs r s'.

(** ** How far the search can move a correction *)

(** How far the depths [depths] can move a correction: the sum of their
    scales. *)
Definition total_reach (depths : list Z) : R :=
  fold_right (fun d acc => scale d + acc) 0 depths.

(** An IQ correction with modulus [2^g] and phase [phi], [g] within [B] and
    [phi] within [(pi/2) B] of zero; a DC correction with both parts within
    [B] of zero. *)
Definition iq_reach (B : R) (c : complex) : Prop :=
  exists g phi,
    c = rect (pow2_float g) phi /\ Rabs g <= B /\ Rabs phi <= (PI / 2) * B.

Definition dc_reach (B : R) (c : complex) : Prop :=
  Rabs (real c) <= B /\ Rabs (imag c) <= B.

(** What the calibration may ask of the device: IQ corrections within
    reach; DC corrections on Tx only, within reach; no gain but the Rx PGA,
    at 19 dB at most. *)
Definition event_allowed (B : R) (e : event) : Prop :=
  match e with
  | SetIQBalance _ _ c => iq_reach B c
  | SetDCOffset d _ c => d = SOAPY_SDR_TX /\ dc_reach B c
  | SetGain d _ name g => d = SOAPY_SDR_RX /\ name = "PGA"%string /\ g <= 19
  | _ => True
  end.

(** The gains and DC offsets the calibration may set. *)
Definition rx_pga_only (e : event) : Prop :=
  match e with
  | SetGain d _ name g => d = SOAPY_SDR_RX /\ name = "PGA"%string /\ g <= 19
  | SetDCOffset d _ _ => d = SOAPY_SDR_TX
  | _ => True
  end.

(** A call that sets a DC correction sets one with both parts within [B]
    of zero. *)
Definition dc_within (B : R) (e : event) : Prop :=
  match e with
  | SetDCOffset _ _ c => Rabs (real c) <= B /\ Rabs (imag c) <= B
  | _ => True
  end.

(** The bests of a search are within reach [B]. *)
Definition rx_reach (B : R) (s : rx_state) : Prop :=
  iq_reach B (fst (fst s)) /\ iq_reach B (snd (fst s)).

Definition tx_reach (B : R) (s : tx_state) : Prop :=
  (iq_reach B (fst (fst (fst s))) /\ iq_reach B (snd (fst (fst s)))) /\
  (dc_reach B (fst (fst (snd s))) /\ dc_reach B (snd (fst (snd s)))).

(** A run that added the events [evs] and ended as [r]: every correction it
    applied is within reach [B]; if it raised, it stopped at a failed read;
    if it returned, it started [k] captures. *)
Definition run_ok {A : Type} (B : R) (k : nat) (evs : list event)
    (r : result A) : Prop :=
  Forall (event_allowed B) evs /\
  (forall x, r = Raised x -> stream_failure x evs) /\
  (forall a, r = Returned a -> activations evs = k).

Definition ran {D : Device} {A : Type} (B : R) (k : nat) (m : M D A)
    (w : world D) : Prop :=
  exists evs,
    trace (snd (m w)) = trace w ++ evs /\ run_ok B k evs (fst (m w)).

Definition runs {D : Device} {A : Type} (B : R) (k : nat) (m : M D A) : Prop :=
  forall w : world D, ran B k m w.

(* ================================================================== *)
(** * Complex numbers in polar form                                    *)
(* ================================================================== *)

Lemma complex_eq (a b : complex) :
  real a = real b -> imag a = imag b -> a = b.
Proof. destruct a, b; simpl; intros -> ->; reflexivity. Qed.

Lemma Cabs_nonneg (z : complex) : 0 <= Cabs z.
Proof. apply sqrt_pos. Qed.

Lemma Cabs_sq (z : complex) :
  Cabs z * Cabs z = real z * real z + imag z * imag z.
Proof. unfold Cabs. apply sqrt_sqrt. nra. Qed.

(** [sqrt (1 + t^2)] for the slope [t = y / x] of a point off the axis. *)
Lemma slope_norm (x y : R) :
  x <> 0 -> sqrt (1 + (y / x)²) = sqrt (x * x + y * y) / Rabs x.
Proof.
  intros Hx.
  assert (Hax : 0 < Rabs x) by (apply Rabs_pos_lt; exact Hx).
  assert (Hsq : Rabs x * Rabs x = x * x).
  { unfold Rabs; destruct (Rcase_abs x); ring. }
  replace (1 + (y / x)²) with ((x * x + y * y) / (Rabs x * Rabs x)).
  - rewrite sqrt_div_alt by nra.
    rewrite sqrt_square by lra. reflexivity.
  - rewrite Hsq. unfold Rsqr. field. exact Hx.
Qed.

Lemma radius_pos (x y : R) : x <> 0 -> 0 < sqrt (x * x + y * y).
Proof. intros Hx. apply sqrt_lt_R0. nra. Qed.

(** The modulus and the phase give the number back. *)
Lemma rect_Cabs_phase (z : complex) : rect (Cabs z) (phase z) = z.
Proof.
  destruct z as [x y]. unfold rect, phase, Cabs, atan2. simpl.
  destruct (Rlt_dec 0 x) as [Hpos | Hnpos].
  - (* right half plane *)
    assert (Hx : x <> 0) by lra.
    pose proof (radius_pos x y Hx) as Hr.
    rewrite cos_atan, sin_atan, (slope_norm x y Hx).
    rewrite (Rabs_right x) by lra.
    apply complex_eq; simpl; field; lra.
  - destruct (Rlt_dec x 0) as [Hneg | Hnneg].
    + (* left half plane *)
      assert (Hx : x <> 0) by lra.
      pose proof (radius_pos x y Hx) as Hr.
      destruct (Rle_dec 0 y) as [Hy | Hy].
      * rewrite neg_cos, neg_sin, cos_atan, sin_atan, (slope_norm x y Hx).
        rewrite (Rabs_left x) by lra.
        apply complex_eq; simpl; field; lra.
      * replace (atan (y / x) - PI) with (- (- atan (y / x) + PI)) by ring.
        rewrite cos_neg, sin_neg, neg_cos, neg_sin, cos_neg, sin_neg.
        rewrite cos_atan, sin_atan, (slope_norm x y Hx).
        rewrite (Rabs_left x) by lra.
        apply complex_eq; simpl; field; lra.
    + (* the imaginary axis *)
      assert (Hx : x = 0) by lra. subst x.
      replace (0 * 0 + y * y) with (y * y) by ring.
      destruct (Rlt_dec 0 y) as [Hy | Hy].
      * rewrite cos_PI2, sin_PI2, sqrt_square by lra.
        apply complex_eq; simpl; ring.
      * destruct (Rlt_dec y 0) as [Hy' | Hy'].
        -- rewrite cos_neg, sin_neg, cos_PI2, sin_PI2.
           replace (y * y) with ((- y) * (- y)) by ring.
           rewrite sqrt_square by lra.
           apply complex_eq; simpl; ring.
        -- assert (Hy0 : y = 0) by lra. subst y.
           rewrite Rmult_0_l, sqrt_0.
           apply complex_eq; simpl; ring.
Qed.

Lemma real_polar (z : complex) : Cabs z * cos (phase z) = real z.
Proof. pose proof (rect_Cabs_phase z) as H. apply (f_equal real) in H. exact H. Qed.

Lemma imag_polar (z : complex) : Cabs z * sin (phase z) = imag z.
Proof. pose proof (rect_Cabs_phase z) as H. apply (f_equal imag) in H. exact H. Qed.

(** Product of moduli and sum of phases is the complex product. *)
Lemma rect_product (a b : complex) :
  rect (Cabs a * Cabs b) (phase a + phase b) = Cmul a b.
Proof.
  unfold rect, Cmul. rewrite cos_plus, sin_plus.
  rewrite <- (real_polar a), <- (imag_polar a), <- (real_polar b), <- (imag_polar b).
  apply complex_eq; simpl; ring.
Qed.

Lemma Cabs_rect (r phi : R) : 0 <= r -> Cabs (rect r phi) = r.
Proof.
  intros Hr. unfold Cabs, rect. simpl.
  replace (r * cos phi * (r * cos phi) + r * sin phi * (r * sin phi))
    with (r * r * ((sin phi)² + (cos phi)²)) by (unfold Rsqr; ring).
  rewrite sin2_cos2, Rmult_1_r. apply sqrt_square. exact Hr.
Qed.

Lemma phase_rect (r phi : R) :
  0 < r -> - (PI / 2) < phi < PI / 2 -> phase (rect r phi) = phi.
Proof.
  intros Hr Hphi. unfold phase, rect, atan2. simpl.
  assert (Hc : 0 < cos phi) by (apply cos_gt_0; lra).
  destruct (Rlt_dec 0 (r * cos phi)) as [_ | Hn].
  - replace (r * sin phi / (r * cos phi)) with (tan phi)
      by (unfold tan; field; lra).
    apply atan_tan. exact Hphi.
  - exfalso. apply Hn. apply Rmult_lt_0_compat; assumption.
Qed.

(* ================================================================== *)
(** * The grid of test points                                          *)
(* ================================================================== *)

Lemma linspace_symmetric_3 (x : R) : linspace (- x) x 3 = [- x; 0; x].
Proof.
  unfold linspace. simpl.
  repeat (f_equal; try field).
Qed.

Lemma scale_as_power (D : Z) : scale D = powerRZ 2 (- D).
Proof. unfold scale, pow2_int. rewrite powerRZ_neg'. field. apply powerRZ_NOR. lra. Qed.

Lemma scale_pos (D : Z) : 0 < scale D.
Proof. rewrite scale_as_power. apply powerRZ_lt. lra. Qed.

Lemma scale_quarter (D : Z) : (2 <= D)%Z -> scale D <= / 4.
Proof.
  intros HD. unfold scale, pow2_int.
  replace D with (2 + Z.of_nat (Z.to_nat (D - 2)))%Z by lia.
  rewrite powerRZ_add by lra. rewrite <- pow_powerRZ.
  pose proof (pow_R1_Rle 2 (Z.to_nat (D - 2))) as Hp.
  assert (H1 : 1 <= 2 ^ Z.to_nat (D - 2)) by (apply Hp; lra).
  simpl (powerRZ 2 2).
  unfold Rdiv. rewrite Rmult_1_l.
  apply Rinv_le_contravar; nra.
Qed.

Lemma dcPoints_grid (D : Z) :
  dcPoints D =
  let s := offMax D in
  [Complex (- s) (- s); Complex (- s) 0; Complex (- s) s;
   Complex 0 (- s);     Complex 0 0;     Complex 0 s;
   Complex s (- s);     Complex s 0;     Complex s s].
Proof.
  unfold dcPoints, NUM_STEPS_PER_ITER. rewrite linspace_symmetric_3. reflexivity.
Qed.

Lemma iqPoints_grid (D : Z) :
  iqPoints D =
  let g := gainMax D in
  let p := phaseMax D in
  [rect (pow2_float (- g)) (- p); rect (pow2_float 0) (- p); rect (pow2_float g) (- p);
   rect (pow2_float (- g)) 0;     rect (pow2_float 0) 0;     rect (pow2_float g) 0;
   rect (pow2_float (- g)) p;     rect (pow2_float 0) p;     rect (pow2_float g) p].
Proof.
  unfold iqPoints, NUM_STEPS_PER_ITER. rewrite !linspace_symmetric_3. reflexivity.
Qed.

Lemma pow2_float_pos (g : R) : 0 < pow2_float g.
Proof. unfold pow2_float, Rpower. apply exp_pos. Qed.

Lemma pow2_float_mono (g h : R) : g <= h -> pow2_float g <= pow2_float h.
Proof. intros H. unfold pow2_float. apply Rle_Rpower; lra. Qed.

Lemma pow2_float_0 : pow2_float 0 = 1.
Proof. unfold pow2_float. apply Rpower_O. lra. Qed.

(** The middle point of the IQ grid is the number one. *)
Lemma rect_unit : rect (pow2_float 0) 0 = of_float 1.
Proof.
  rewrite pow2_float_0. unfold rect, of_float. rewrite cos_0, sin_0.
  apply complex_eq; simpl; ring.
Qed.

(** One point of the IQ grid: modulus [2^g], phase [ph]. *)
Lemma iq_point_bounds (s g ph : R) :
  0 < s <= / 4 -> - s <= g <= s ->
  - ((PI / 2) * s) <= ph <= (PI / 2) * s ->
  - ((PI / 2) * s) <= phase (rect (pow2_float g) ph) <= (PI / 2) * s /\
  pow2_float (- s) <= Cabs (rect (pow2_float g) ph) <= pow2_float s.
Proof.
  intros Hs Hg Hph.
  pose proof PI2_RGT_0 as Hpi.
  rewrite phase_rect; [| apply pow2_float_pos | nra].
  rewrite Cabs_rect by (left; apply pow2_float_pos).
  split; [exact Hph |].
  split; apply pow2_float_mono; lra.
Qed.

Lemma test_point_in_range (D : Z) (dc iq : complex) :
  (2 <= D)%Z -> In (dc, iq) (GenerateTestPoints D) ->
  dc_in_range D dc /\ iq_in_range D iq.
Proof.
  intros HD Hin.
  pose proof (scale_pos D) as Hs0.
  pose proof (scale_quarter D HD) as Hs4.
  unfold dc_in_range, iq_in_range. rewrite <- scale_as_power.
  assert (Hiq : forall g ph,
             - scale D <= g <= scale D ->
             - ((PI / 2) * scale D) <= ph <= (PI / 2) * scale D ->
             - ((PI / 2) * scale D) <= phase (rect (pow2_float g) ph)
               <= (PI / 2) * scale D /\
             Rpower 2 (- scale D) <= Cabs (rect (pow2_float g) ph)
               <= Rpower 2 (scale D)).
  { intros g ph Hg Hph. apply iq_point_bounds; auto. }
  pose proof PI2_RGT_0 as Hpi.
  assert (Hp : 0 <= (PI / 2) * scale D) by nra.
  unfold GenerateTestPoints in Hin.
  rewrite dcPoints_grid, iqPoints_grid in Hin.
  unfold offMax, gainMax, phaseMax in Hin. rewrite !Rmult_1_l in Hin.
  simpl in Hin.
  repeat (destruct Hin as [Hin | Hin];
          [ injection Hin as <- <-; simpl;
            split;
            [ split; (rewrite ?Rabs_Ropp, ?Rabs_R0, ?(Rabs_right (scale D)) by lra; lra)
            | apply Hiq; lra ]
          | ]).
  contradiction.
Qed.

(* ================================================================== *)
(** * Tone level                                                       *)
(* ================================================================== *)

Lemma Cexp_j (t : R) : Cexp (Cmul Cj (of_float t)) = Complex (cos t) (sin t).
Proof.
  unfold Cexp, Cmul, Cj, of_float. simpl.
  replace (0 * t - 1 * 0) with 0 by ring.
  replace (0 * 0 + 1 * t) with t by ring.
  rewrite exp_0. apply complex_eq; simpl; ring.
Qed.

Lemma ln_10_pos : 0 < ln 10.
Proof. rewrite <- ln_1. apply ln_increasing; lra. Qed.

Lemma log10_increasing (x y : R) : 0 < x -> x < y -> log10 x < log10 y.
Proof.
  intros Hx Hxy. unfold log10.
  apply Rmult_lt_compat_r.
  - apply Rinv_0_lt_compat, ln_10_pos.
  - apply ln_increasing; assumption.
Qed.

Lemma log10_tiny : log10 1e-20 = -20.
Proof.
  unfold log10.
  replace 1e-20 with (/ 10 ^ 20) by lra.
  rewrite ln_Rinv by (apply pow_lt; lra).
  rewrite ln_pow by lra.
  pose proof ln_10_pos. simpl INR. field. lra.
Qed.

Lemma py_max_Rmax (a b : R) : py_max a b = Rmax a b.
Proof.
  unfold py_max, Rmax.
  destruct (Rlt_dec a b), (Rle_dec a b); try reflexivity; lra.
Qed.

Lemma py_min_Rmin (a b : R) : py_min a b = Rmin a b.
Proof.
  unfold py_min, Rmin.
  destruct (Rlt_dec b a), (Rle_dec a b); try reflexivity; lra.
Qed.

(** The floor at 1e-20 keeps every level at or above -400 dB. *)
Lemma measureToneLevel_floor (samps : list complex) (freq rate : R) :
  -400 <= measureToneLevel samps freq rate.
Proof.
  unfold measureToneLevel.
  set (m := Cabs _).
  unfold py_max. destruct (Rlt_dec 1e-20 m) as [Hlt | Hge].
  - pose proof (log10_increasing 1e-20 m ltac:(lra) Hlt) as H.
    rewrite log10_tiny in H. lra.
  - rewrite log10_tiny. lra.
Qed.

Lemma nth_map_in {A B : Type} (f : A -> B) (l : list A) (n : nat) (d : B) (d' : A) :
  (n < length l)%nat -> nth n (map f l) d = f (nth n l d').
Proof.
  revert n. induction l as [| a l IH]; intros [| n] Hn; simpl in *; try lia.
  - reflexivity.
  - apply IH. lia.
Qed.

(** The phase ramp the code builds: [size] points from 0 to [size * step],
    both ends included, so that consecutive points are
    [size * step / (size - 1)] apart. *)
Lemma ramp_spacing (size : nat) (step : R) (n : nat) :
  (2 <= size)%nat -> (n < size)%nat ->
  nth n (linspace 0 (INR size * step) size) 0 =
  INR n * (INR size * step / INR (size - 1)).
Proof.
  intros H2 Hn. unfold linspace.
  destruct size as [| [| k]]; [lia | lia |].
  set (N := S (S k)) in *.
  rewrite (nth_map_in _ _ n 0 0%nat) by (rewrite length_seq; exact Hn).
  rewrite seq_nth by exact Hn.
  simpl (0 + n)%nat. unfold Rdiv. ring.
Qed.

Lemma sqrt_half_pos : 0 < sqrt (1 / 2).
Proof. apply sqrt_lt_R0. lra. Qed.

Lemma measureToneLevel_two_ones :
  measureToneLevel [of_float 1; of_float 1] 1 8 = 20 * log10 (sqrt (1 / 2)).
Proof.
  unfold measureToneLevel, linspace. simpl length. simpl seq. simpl map.
  rewrite !Cexp_j.
  replace (0 + 0 * (((1 + 1) * (-2 * PI * 1 / 8) - 0) / 1)) with 0 by field.
  replace (0 + 1 * (((1 + 1) * (-2 * PI * 1 / 8) - 0) / 1))
    with (- (PI / 2)) by field.
  rewrite cos_0, sin_0, cos_neg, sin_neg, cos_PI2, sin_PI2.
  unfold np_mean, np_mul, Csum, Cmul, Cadd, Cdiv_real, Cabs, of_float.
  simpl.
  match goal with |- context [sqrt ?e] =>
    replace e with (1 / 2) by field end.
  pose proof sqrt_half_pos as Hs.
  assert (Hlt : 1e-20 < sqrt (1 / 2)).
  { apply Rsqr_incrst_0; [| lra | lra].
    rewrite Rsqr_sqrt by lra. unfold Rsqr. lra. }
  unfold py_max. destruct (Rlt_dec 1e-20 (sqrt (1 / 2))); [reflexivity | lra].
Qed.

Lemma inv_sqrt2_sq : / sqrt 2 * / sqrt 2 = 1 / 2.
Proof.
  assert (H2 : 0 < sqrt 2) by (apply sqrt_lt_R0; lra).
  rewrite <- Rinv_mult. rewrite sqrt_sqrt by lra. lra.
Qed.

Lemma measureToneLevel_spec_two_ones :
  measureToneLevel_spec [of_float 1; of_float 1] 1 8 =
  20 * log10 (sqrt ((1 + / sqrt 2) / 2)).
Proof.
  unfold measureToneLevel_spec, shift_spec. simpl length. simpl seq. simpl map.
  rewrite !Cexp_j. simpl INR.
  replace (-2 * PI * 1 * 0 / 8) with 0 by field.
  replace (-2 * PI * 1 * 1 / 8) with (- (PI / 4)) by field.
  rewrite cos_0, sin_0, cos_neg, sin_neg, cos_PI4, sin_PI4.
  unfold np_mean, np_mul, Csum, Cmul, Cadd, Cdiv_real, Cabs, of_float.
  simpl.
  assert (H2 : 0 < sqrt 2) by (apply sqrt_lt_R0; lra).
  pose proof inv_sqrt2_sq as Hc.
  assert (Hi : 0 < / sqrt 2) by (apply Rinv_0_lt_compat; exact H2).
  match goal with |- context [sqrt ?e] =>
    match e with
    | 2 => fail 1
    | _ => replace e with ((1 + / sqrt 2) / 2)
    end
  end.
  - assert (Hlt : 1e-20 < sqrt ((1 + / sqrt 2) / 2)).
    { apply Rsqr_incrst_0; [| lra | apply sqrt_pos].
      rewrite Rsqr_sqrt by lra. unfold Rsqr. lra. }
    unfold py_max.
    destruct (Rlt_dec 1e-20 (sqrt ((1 + / sqrt 2) / 2))); [reflexivity | lra].
  - unfold Rdiv. rewrite !Rmult_1_l. nra.
Qed.

(* ================================================================== *)
(** * Lists in the store                                               *)
(* ================================================================== *)

Lemma length_list_set {A : Type} (l : list A) (i : nat) (v : A) :
  length (list_set l i v) = length l.
Proof.
  revert i. induction l as [| x l IH]; intros [| i]; simpl; auto.
Qed.

Lemma nth_error_list_set_eq {A : Type} (l : list A) (i : nat) (v : A) :
  (i < length l)%nat -> nth_error (list_set l i v) i = Some v.
Proof.
  revert i. induction l as [| x l IH]; intros [| i] Hi; simpl in *; try lia.
  - reflexivity.
  - apply IH. lia.
Qed.

Lemma nth_error_list_set_neq {A : Type} (l : list A) (i j : nat) (v : A) :
  i <> j -> nth_error (list_set l i v) j = nth_error l j.
Proof.
  revert i j. induction l as [| x l IH]; intros [| i] [| j] Hij; simpl;
    try reflexivity; try congruence.
  apply IH. congruence.
Qed.

Lemma list_set_same {A : Type} (l : list A) (i : nat) (v : A) :
  nth_error l i = Some v -> list_set l i v = l.
Proof.
  revert i. induction l as [| x l IH]; intros [| i] H; simpl in *;
    try congruence.
  f_equal. apply IH. exact H.
Qed.

Lemma list_set_twice {A : Type} (l : list A) (i : nat) (u v : A) :
  list_set (list_set l i u) i v = list_set l i v.
Proof.
  revert i. induction l as [| x l IH]; intros [| i]; simpl; try reflexivity.
  f_equal. apply IH.
Qed.

Lemma store_get_valid {A : Type} (s : store A) (r : ref) (l : list A) :
  store_get s r = Some l -> (r < length s)%nat.
Proof. unfold store_get. intros H. apply nth_error_Some. congruence. Qed.

Lemma store_get_set_eq {A : Type} (s : store A) (r : ref) (l l' : list A) :
  store_get s r = Some l' -> store_get (store_set s r l) r = Some l.
Proof.
  intros H. unfold store_get, store_set.
  apply nth_error_list_set_eq. eapply store_get_valid; eauto.
Qed.

Lemma store_get_set_neq {A : Type} (s : store A) (r r' : ref) (l : list A) :
  r <> r' -> store_get (store_set s r l) r' = store_get s r'.
Proof. intros H. apply nth_error_list_set_neq. exact H. Qed.

Lemma store_set_same {A : Type} (s : store A) (r : ref) (l : list A) :
  store_get s r = Some l -> store_set s r l = s.
Proof. apply list_set_same. Qed.

Lemma store_set_twice {A : Type} (s : store A) (r : ref) (l l' : list A) :
  store_set (store_set s r l) r l' = store_set s r l'.
Proof. apply list_set_twice. Qed.

Lemma store_get_alloc_old {A : Type} (s : store A) (l l' : list A) (r : ref) :
  store_get s r = Some l' -> store_get (snd (store_alloc s l)) r = Some l'.
Proof.
  intros H. unfold store_alloc, store_get in *. simpl.
  rewrite nth_error_app1; [exact H |]. apply nth_error_Some. congruence.
Qed.

Lemma store_get_alloc_new {A : Type} (s : store A) (l : list A) :
  store_get (snd (store_alloc s l)) (fst (store_alloc s l)) = Some l.
Proof.
  unfold store_alloc, store_get. simpl.
  rewrite nth_error_app2 by lia. rewrite Nat.sub_diag. reflexivity.
Qed.

(* ================================================================== *)
(** * Reading samples                                                  *)
(* ================================================================== *)

Lemma length_blit (buf : list complex) (pos : nat) (data : list complex) :
  length (blit buf pos data) = length buf.
Proof.
  unfold blit. rewrite !length_app, !length_firstn, length_skipn. lia.
Qed.

Lemma reads_nonneg_nil : reads_nonneg [].
Proof. intros n s []. Qed.

Lemma reads_nonneg_cons_read (n : nat) (s : Z) (evs : list event) :
  (0 <= s)%Z -> reads_nonneg evs -> reads_nonneg (ReadStream n s :: evs).
Proof.
  intros Hs H n' s' [Heq | Hin].
  - injection Heq as _ <-. exact Hs.
  - eapply H; eauto.
Qed.

Lemma Csum_remove (a : list complex) (m : complex) :
  Csum (map (fun s => Csub s m) a) =
  Csub (Csum a) (Complex (INR (length a) * real m) (INR (length a) * imag m)).
Proof.
  induction a as [| x a IH].
  - simpl. apply complex_eq; simpl; ring.
  - change (Csum (map (fun s => Csub s m) (x :: a)))
      with (Cadd (Csub x m) (Csum (map (fun s => Csub s m) a))).
    rewrite IH.
    change (Csum (x :: a)) with (Cadd x (Csum a)).
    change (length (x :: a)) with (S (length a)). rewrite S_INR.
    apply complex_eq; simpl; ring.
Qed.

(** After [a -= np.mean(a)] the samples sum to zero, so their mean is zero. *)
Lemma remove_dc_zero_mean (a : list complex) :
  (1 <= length a)%nat -> np_mean (remove_dc a) = Complex 0 0.
Proof.
  intros Hlen.
  assert (Hn : INR (length a) <> 0) by (apply not_0_INR; lia).
  unfold np_mean, remove_dc at 1. rewrite Csum_remove.
  unfold np_mean, Cdiv_real, Csub.
  unfold remove_dc. rewrite length_map.
  apply complex_eq; simpl; field; auto.
Qed.

Lemma length_remove_dc (a : list complex) : length (remove_dc a) = length a.
Proof. unfold remove_dc. apply length_map. Qed.

Section Reading.

Context {D : Device}.

Lemma mbind_returned {A B : Type} (m : M D A) (k : A -> M D B)
    (w w1 : world D) (a : A) :
  m w = (Returned a, w1) -> mbind m k w = k a w1.
Proof. intros H. unfold mbind. rewrite H. reflexivity. Qed.

Lemma mbind_raised {A B : Type} (m : M D A) (k : A -> M D B)
    (w w1 : world D) (e : exn) :
  m w = (Raised e, w1) -> mbind m k w = (Raised e, w1).
Proof. intros H. unfold mbind. rewrite H. reflexivity. Qed.

Lemma mbind_out_of_fuel {A B : Type} (m : M D A) (k : A -> M D B)
    (w w1 : world D) :
  m w = (OutOfFuel, w1) -> mbind m k w = (OutOfFuel, w1).
Proof. intros H. unfold mbind. rewrite H. reflexivity. Qed.

(** The outcome of the read loop, for any device. *)
Lemma read_loop_spec (fuel : nat) :
  forall (rx0 rx1 : list complex) (pos : nat) (w : world D),
  exists r w' evs,
    read_loop fuel rx0 rx1 pos w = (r, w') /\
    clists w' = clists w /\ flists w' = flists w /\
    trace w' = trace w ++ evs /\ Forall is_stream evs /\
    match r with
    | Returned ab =>
        length (fst ab) = length rx0 /\ length (snd ab) = length rx1 /\
        reads_nonneg evs
    | Raised e => read_failed evs
    | OutOfFuel => reads_nonneg evs
    end.
Proof.
  induction fuel as [| fuel IH]; intros rx0 rx1 pos w; simpl.
  - destruct (length rx0 - pos =? 0)%nat.
    + exists (Returned (rx0, rx1)), w, []. rewrite app_nil_r.
      repeat split; auto using reads_nonneg_nil.
    + exists OutOfFuel, w, []. rewrite app_nil_r.
      repeat split; auto using reads_nonneg_nil.
  - destruct (length rx0 - pos =? 0)%nat.
    + exists (Returned (rx0, rx1)), w, []. rewrite app_nil_r.
      repeat split; auto using reads_nonneg_nil.
    + unfold mbind at 1, readStream at 1.
      destruct (dev_readStream D (length rx0 - pos) (hw w)) as [sr h].
      set (w1 := {| hw := h;
                    trace := trace w ++ [ReadStream (length rx0 - pos) (ret sr)];
                    clists := clists w; flists := flists w |}).
      destruct (ret sr <? 0)%Z eqn:Hneg.
      * exists (Raised (StreamError (ret sr))), w1,
          [ReadStream (length rx0 - pos) (ret sr)].
        repeat split; auto.
        -- repeat constructor.
        -- exists (length rx0 - pos)%nat, (ret sr). split; [left; reflexivity |].
           apply Z.ltb_lt. exact Hneg.
      * destruct (IH (blit rx0 pos (chan0 sr)) (blit rx1 pos (chan1 sr))
                     (pos + Nat.min (Z.to_nat (ret sr)) (length rx0 - pos))%nat w1)
          as (r & w' & evs & Hrun & Hc & Hf & Ht & Hs & Hr).
        exists r, w', (ReadStream (length rx0 - pos) (ret sr) :: evs).
        rewrite Hrun. rewrite Ht. simpl trace. rewrite <- app_assoc. simpl.
        repeat split; auto.
        -- constructor; [exact I | exact Hs].
        -- apply Z.ltb_ge in Hneg.
           destruct r as [[a b] | e |]; simpl in *.
           ++ rewrite !length_blit in Hr. destruct Hr as (Ha & Hb & Hn).
              repeat split; auto using reads_nonneg_cons_read.
           ++ destruct Hr as (n & s & Hin & Hlt).
              exists n, s. split; [right; exact Hin | exact Hlt].
           ++ auto using reads_nonneg_cons_read.
Qed.

(** On a device that delivers, the loop ends within as many reads as there
    are samples left to collect. *)
Lemma read_loop_returns (fuel : nat) :
  delivers D ->
  forall (rx0 rx1 : list complex) (pos : nat) (w : world D),
    (length rx0 - pos <= fuel)%nat ->
    exists ab w', read_loop fuel rx0 rx1 pos w = (Returned ab, w').
Proof.
  intros Hdel. induction fuel as [| fuel IH]; intros rx0 rx1 pos w Hfuel; simpl.
  - replace (length rx0 - pos)%nat with 0%nat by lia. simpl.
    exists (rx0, rx1), w. reflexivity.
  - destruct (length rx0 - pos =? 0)%nat eqn:Hsize.
    + exists (rx0, rx1), w. reflexivity.
    + apply Nat.eqb_neq in Hsize.
      unfold mbind at 1, readStream at 1.
      pose proof (Hdel (length rx0 - pos)%nat (hw w) ltac:(lia)) as Hpos.
      destruct (dev_readStream D (length rx0 - pos) (hw w)) as [sr h].
      simpl in Hpos.
      replace (ret sr <? 0)%Z with false by (symmetry; apply Z.ltb_ge; lia).
      apply IH. rewrite length_blit.
      assert (1 <= Nat.min (Z.to_nat (ret sr)) (length rx0 - pos))%nat by lia.
      lia.
Qed.

End Reading.

Section Acquisition.

Context {D : Device}.

(** The outcome of [readSamps], for any device. *)
Lemma readSamps_spec (fuel numSamps : nat) (w : world D) :
  exists r w' evs,
    readSamps fuel numSamps w = (r, w') /\
    clists w' = clists w /\ flists w' = flists w /\
    trace w' = trace w ++ evs /\ Forall is_stream evs /\
    match r with
    | Returned samps =>
        exists a b, samps = [a; b] /\
          length a = numSamps /\ length b = numSamps /\
          ((1 <= numSamps)%nat ->
           np_mean a = Complex 0 0 /\ np_mean b = Complex 0 0) /\
          reads_nonneg evs
    | Raised e => read_failed evs
    | OutOfFuel => reads_nonneg evs
    end.
Proof.
  unfold readSamps, mbind at 1, activateStream, emit.
  set (w1 := {| hw := dev_activateStream D numSamps (hw w);
                trace := trace w ++ [ActivateStream numSamps];
                clists := clists w; flists := flists w |}).
  set (zeros := repeat (Complex 0 0) numSamps).
  destruct (read_loop_spec fuel zeros zeros 0 w1)
    as (r & w' & evs & Hrun & Hc & Hf & Ht & Hs & Hr).
  assert (Hact : forall n s, In (ReadStream n s) (ActivateStream numSamps :: evs) ->
                             In (ReadStream n s) evs).
  { intros n s [Hbad | Hin]; [discriminate | exact Hin]. }
  assert (Hnn : reads_nonneg evs -> reads_nonneg (ActivateStream numSamps :: evs)).
  { intros H n s Hin. apply (H n s). apply Hact. exact Hin. }
  unfold mbind. rewrite Hrun.
  destruct r as [[a b] | e |].
  - exists (Returned [remove_dc a; remove_dc b]), w', (ActivateStream numSamps :: evs).
    rewrite Ht. simpl trace. rewrite <- app_assoc. simpl.
    repeat split; auto.
    + constructor; [exact I | exact Hs].
    + simpl in Hr. destruct Hr as (Ha & Hb & Hn).
      unfold zeros in Ha, Hb. rewrite repeat_length in Ha, Hb.
      exists (remove_dc a), (remove_dc b).
      rewrite !length_remove_dc.
      repeat split; auto; apply remove_dc_zero_mean; lia.
  - exists (Raised e), w', (ActivateStream numSamps :: evs).
    rewrite Ht. simpl trace. rewrite <- app_assoc. simpl.
    repeat split; auto.
    + constructor; [exact I | exact Hs].
    + destruct Hr as (n & s & Hin & Hlt). exists n, s. split; [right |]; auto.
  - exists OutOfFuel, w', (ActivateStream numSamps :: evs).
    rewrite Ht. simpl trace. rewrite <- app_assoc. simpl.
    repeat split; auto.
    constructor; [exact I | exact Hs].
Qed.

(** On a device that delivers, [numSamps] reads are enough. *)
Lemma readSamps_returns (fuel numSamps : nat) (w : world D) :
  delivers D -> (numSamps <= fuel)%nat ->
  exists samps w', readSamps fuel numSamps w = (Returned samps, w').
Proof.
  intros Hdel Hfuel.
  unfold readSamps, mbind at 1, activateStream, emit.
  set (w1 := {| hw := dev_activateStream D numSamps (hw w);
                trace := trace w ++ [ActivateStream numSamps];
                clists := clists w; flists := flists w |}).
  set (zeros := repeat (Complex 0 0) numSamps).
  destruct (read_loop_returns fuel Hdel zeros zeros 0 w1) as (ab & w' & Hrun).
  { unfold zeros. rewrite repeat_length. lia. }
  unfold mbind. rewrite Hrun. eexists. eexists. reflexivity.
Qed.

Lemma delivers_acquires (fuel : nat) :
  delivers D -> (SAMPS_PER_CAPTURE <= fuel)%nat -> acquires D fuel.
Proof. intros Hdel Hfuel w. apply readSamps_returns; assumption. Qed.

End Acquisition.

(* ================================================================== *)
(** * Keeping the best                                                 *)
(* ================================================================== *)

Lemma progress_refl (b : complex) (l : R) (evs : list event) :
  progress b l b l evs.
Proof. unfold progress. repeat split; try lra; auto. Qed.

Lemma progress_trans (b : complex) (l : R) (b' : complex) (l' : R)
    (b'' : complex) (l'' : R) (evs1 evs2 : list event) :
  progress b l b' l' evs1 -> progress b' l' b'' l'' evs2 ->
  progress b l b'' l'' (evs1 ++ evs2).
Proof.
  intros (H1 & H2 & H3) (K1 & K2 & K3). unfold progress.
  split; [lra |]. split.
  - intros Heq. assert (l'' = l') by lra. assert (l' = l) by lra.
    rewrite K2, H2; auto.
  - intros Hlt. destruct (Rlt_dec l'' l') as [Hlt' | Hge].
    + destruct (K3 Hlt') as (f & Hin). exists f. apply in_or_app. right. exact Hin.
    + assert (Heq : l'' = l') by lra. rewrite Heq in *.
      destruct (H3 Hlt) as (f & Hin). exists f. apply in_or_app. left. exact Hin.
Qed.

Lemma progress_more (b : complex) (l : R) (b' : complex) (l' : R)
    (pre evs post : list event) :
  progress b l b' l' evs -> progress b l b' l' (pre ++ evs ++ post).
Proof.
  intros (H1 & H2 & H3). unfold progress. repeat split; auto.
  intros Hlt. destruct (H3 Hlt) as (f & Hin). exists f.
  apply in_or_app. right. apply in_or_app. left. exact Hin.
Qed.

(** One comparison: what is kept is progress. *)
Lemma progress_step (b : complex) (l : R) (n : complex) (f m : R)
    (evs : list event) :
  In (Measured f m) evs ->
  progress b l (better m l n b) (lower m l) evs.
Proof.
  intros Hin. unfold progress, better, lower.
  destruct (Rlt_dec m l) as [Hlt | Hge]; repeat split; try lra; auto.
  - intros _. exists f. exact Hin.
Qed.

Lemma filter_setter_stream (evs : list event) :
  Forall is_stream evs -> filter is_setter evs = [].
Proof.
  induction 1 as [| e evs He _ IH]; [reflexivity |].
  destruct e; simpl in *; try contradiction; exact IH.
Qed.

(* ================================================================== *)
(** * The Rx IQ search                                                 *)
(* ================================================================== *)

(** Split a conjunction as far as it is written as one. *)
Ltac splits := repeat match goal with |- _ /\ _ => split end.

Section RxSearch.

Context {D : Device}.

Lemma rx_candidates_run (iter : ref) (iqPoint : complex) (w : world D)
    (c0 c1 : complex) :
  store_get (clists w) iter = Some [c0; c1] ->
  exists w',
    rx_candidates iter iqPoint w =
      (Returned [composed iqPoint c0; composed iqPoint c1], w') /\
    clists w' = clists w /\ flists w' = flists w /\
    trace w' = trace w ++
      [SetIQBalance SOAPY_SDR_RX 0 (composed iqPoint c0);
       SetIQBalance SOAPY_SDR_RX 1 (composed iqPoint c1)].
Proof.
  intros Hc.
  unfold rx_candidates, channels. simpl foldM.
  unfold mbind, getitem, setIQBalance, emit, mret.
  repeat (progress (simpl; rewrite ?Hc)).
  eexists. split; [reflexivity |]. simpl.
  rewrite <- app_assoc. auto.
Qed.

(** The exact effect of the comparison loop of one Rx test point. *)
Lemma rx_keep_best_run (best lv : ref) (n0 n1 : complex)
    (samps : list (list complex)) (w : world D) (b0 b1 : complex) (l0 l1 : R) :
  store_get (clists w) best = Some [b0; b1] ->
  store_get (flists w) lv = Some [l0; l1] ->
  let m0 := measureToneLevel (nth 0 samps []) (- TX_FREQ_DELTA) SAMPLE_RATE in
  let m1 := measureToneLevel (nth 1 samps []) (- TX_FREQ_DELTA) SAMPLE_RATE in
  exists w',
    rx_keep_best best lv [n0; n1] samps w = (Returned tt, w') /\
    hw w' = hw w /\
    trace w' = trace w ++
      [Measured (- TX_FREQ_DELTA) m0; Measured (- TX_FREQ_DELTA) m1] /\
    clists w' =
      store_set (clists w) best [better m0 l0 n0 b0; better m1 l1 n1 b1] /\
    flists w' = store_set (flists w) lv [lower m0 l0; lower m1 l1].
Proof.
  intros Hb Hl m0 m1.
  unfold rx_keep_best, for_each, channels. simpl foldM.
  unfold mbind, measure, getlevel, setitem, setlevel, mret.
  fold m0 m1. unfold better, lower.
  repeat (progress (simpl; rewrite ?Hb, ?Hl, ?(store_get_set_eq _ _ _ _ Hb),
                      ?(store_get_set_eq _ _ _ _ Hl))).
  destruct (Rlt_dec m0 l0);
  repeat (progress (simpl; rewrite ?Hb, ?Hl, ?(store_get_set_eq _ _ _ _ Hb),
                      ?(store_get_set_eq _ _ _ _ Hl)));
  destruct (Rlt_dec m1 l1);
  repeat (progress (simpl; rewrite ?Hb, ?Hl, ?(store_get_set_eq _ _ _ _ Hb),
                      ?(store_get_set_eq _ _ _ _ Hl)));
  (eexists; split; [reflexivity |]; simpl;
   rewrite <- app_assoc, ?store_set_twice,
     ?(store_set_same _ _ _ Hb), ?(store_set_same _ _ _ Hl); auto).
Qed.

(** One Rx test point. *)
Lemma rx_point_spec (fuel : nat) (best lv iter : ref)
    (point : complex * complex) (w : world D)
    (c0 c1 b0 b1 : complex) (l0 l1 : R) :
  iter <> best ->
  store_get (clists w) iter = Some [c0; c1] ->
  store_get (clists w) best = Some [b0; b1] ->
  store_get (flists w) lv = Some [l0; l1] ->
  exists r w' evs b0' b1' l0' l1',
    rx_point fuel best lv iter point w = (r, w') /\
    trace w' = trace w ++ evs /\
    filter is_setter evs = rx_applied c0 c1 point /\
    store_get (clists w') iter = Some [c0; c1] /\
    store_get (clists w') best = Some [b0'; b1'] /\
    store_get (flists w') lv = Some [l0'; l1'] /\
    progress b0 l0 b0' l0' evs /\ progress b1 l1 b1' l1' evs /\
    (acquires D fuel -> r = Returned tt).
Proof.
  intros Hne Hc Hb Hl.
  unfold rx_point.
  destruct (rx_candidates_run iter (snd point) w c0 c1 Hc)
    as (w1 & Hrun1 & Hc1 & Hf1 & Ht1).
  rewrite (mbind_returned _ _ _ _ _ Hrun1).
  destruct (readSamps_spec fuel SAMPS_PER_CAPTURE w1)
    as (r2 & w2 & evs2 & Hrun2 & Hc2 & Hf2 & Ht2 & Hs2 & Hr2).
  assert (Hfail : forall e : result unit,
    r2 <> Returned (match r2 with Returned s => s | _ => [] end) ->
    exists r w' evs b0' b1' l0' l1',
      (e, w2) = (r, w') /\
      trace w' = trace w ++ evs /\
      filter is_setter evs = rx_applied c0 c1 point /\
      store_get (clists w') iter = Some [c0; c1] /\
      store_get (clists w') best = Some [b0'; b1'] /\
      store_get (flists w') lv = Some [l0'; l1'] /\
      progress b0 l0 b0' l0' evs /\ progress b1 l1 b1' l1' evs /\
      (acquires D fuel -> r = Returned tt)).
  { intros e Hnot.
    exists e, w2, (rx_applied c0 c1 point ++ evs2), b0, b1, l0, l1.
    rewrite Ht2, Ht1, Hc2, Hc1, Hf2, Hf1, <- app_assoc, filter_app,
      (filter_setter_stream _ Hs2), app_nil_r.
    splits; auto using progress_refl.
    intros Hacq. destruct (Hacq w1) as (s & w' & Hret).
    rewrite Hret in Hrun2. injection Hrun2 as <- _. congruence. }
  destruct r2 as [samps | e |].
  - rewrite (mbind_returned _ _ _ _ _ Hrun2).
    rewrite <- Hc1, <- Hc2 in Hb. rewrite <- Hf1, <- Hf2 in Hl.
    destruct (rx_keep_best_run best lv (composed (snd point) c0)
                (composed (snd point) c1) samps w2 b0 b1 l0 l1 Hb Hl)
      as (w3 & Hrun3 & _ & Ht3 & Hc3 & Hf3).
    rewrite Hrun3.
    set (m0 := measureToneLevel (nth 0 samps []) (- TX_FREQ_DELTA) SAMPLE_RATE) in *.
    set (m1 := measureToneLevel (nth 1 samps []) (- TX_FREQ_DELTA) SAMPLE_RATE) in *.
    set (levels := [Measured (- TX_FREQ_DELTA) m0; Measured (- TX_FREQ_DELTA) m1]) in *.
    exists (Returned tt), w3, (rx_applied c0 c1 point ++ evs2 ++ levels),
      (better m0 l0 (composed (snd point) c0) b0),
      (better m1 l1 (composed (snd point) c1) b1),
      (lower m0 l0), (lower m1 l1).
    split; [reflexivity |].
    split; [rewrite Ht3, Ht2, Ht1, <- !app_assoc; reflexivity |].
    split.
    { rewrite !filter_app, (filter_setter_stream _ Hs2). simpl.
      rewrite ?app_nil_r. reflexivity. }
    split.
    { rewrite Hc3, store_get_set_neq by congruence. rewrite Hc2, Hc1. exact Hc. }
    split; [rewrite Hc3; eapply store_get_set_eq; eauto |].
    split; [rewrite Hf3; eapply store_get_set_eq; eauto |].
    split; [| split; [| reflexivity]].
    + apply progress_step with (f := - TX_FREQ_DELTA).
      apply in_or_app. right. apply in_or_app. right. left. reflexivity.
    + apply progress_step with (f := - TX_FREQ_DELTA).
      apply in_or_app. right. apply in_or_app. right. right. left. reflexivity.
  - rewrite (mbind_raised _ _ _ _ _ Hrun2). apply Hfail. discriminate.
  - rewrite (mbind_out_of_fuel _ _ _ _ Hrun2). apply Hfail. discriminate.
Qed.

Lemma copy_copy_run (r : ref) (w : world D) (l : list complex) :
  store_get (clists w) r = Some l ->
  exists w',
    copy_copy r w = (Returned (length (clists w)), w') /\
    trace w' = trace w /\ flists w' = flists w /\
    store_get (clists w') (length (clists w)) = Some l /\
    forall r' l', store_get (clists w) r' = Some l' ->
                  store_get (clists w') r' = Some l'.
Proof.
  intros Hr. unfold copy_copy. rewrite Hr. unfold new_clist.
  eexists. split; [reflexivity |]. simpl. splits; auto.
  - apply (store_get_alloc_new (clists w) l).
  - intros r' l' H. apply (store_get_alloc_old (clists w) l l' r' H).
Qed.

(** The test points of one depth, with the snapshot in [iter]. *)
Lemma rx_points_spec (fuel : nat) (best lv iter : ref) (c0 c1 : complex) :
  iter <> best ->
  forall (points : list (complex * complex)) (w : world D)
         (b0 b1 : complex) (l0 l1 : R),
    store_get (clists w) iter = Some [c0; c1] ->
    store_get (clists w) best = Some [b0; b1] ->
    store_get (flists w) lv = Some [l0; l1] ->
    exists r w' evs b0' b1' l0' l1',
      for_each points (rx_point fuel best lv iter) w = (r, w') /\
      trace w' = trace w ++ evs /\
      (exists rest,
          flat_map (rx_applied c0 c1) points = filter is_setter evs ++ rest /\
          (r = Returned tt -> rest = [])) /\
      store_get (clists w') iter = Some [c0; c1] /\
      store_get (clists w') best = Some [b0'; b1'] /\
      store_get (flists w') lv = Some [l0'; l1'] /\
      progress b0 l0 b0' l0' evs /\ progress b1 l1 b1' l1' evs /\
      (acquires D fuel -> r = Returned tt).
Proof.
  intros Hne. induction points as [| p points IH]; intros w b0 b1 l0 l1 Hc Hb Hl.
  - exists (Returned tt), w, [], b0, b1, l0, l1.
    rewrite app_nil_r. splits; auto using progress_refl.
    exists []. auto.
  - destruct (rx_point_spec fuel best lv iter p w c0 c1 b0 b1 l0 l1 Hne Hc Hb Hl)
      as (r1 & w1 & evs1 & b0' & b1' & l0' & l1' & Hrun1 & Ht1 & Hset1
          & Hc1 & Hb1 & Hl1 & Hp0 & Hp1 & Hacq1).
    unfold for_each. simpl foldM.
    destruct r1 as [[] | e |].
    + rewrite (mbind_returned _ _ _ _ _ Hrun1).
      destruct (IH w1 b0' b1' l0' l1' Hc1 Hb1 Hl1)
        as (r & w' & evs & b0'' & b1'' & l0'' & l1'' & Hrun & Ht & (rest & Hset & Hrest)
            & Hc' & Hb' & Hl' & Hq0 & Hq1 & Hacq).
      exists r, w', (evs1 ++ evs), b0'', b1'', l0'', l1''.
      splits; eauto using progress_trans.
      * rewrite Ht, Ht1, <- app_assoc. reflexivity.
      * exists rest. split; [| exact Hrest].
        simpl flat_map. rewrite filter_app, Hset1, Hset, <- app_assoc. reflexivity.
    + rewrite (mbind_raised _ _ _ _ _ Hrun1).
      exists (Raised e), w1, evs1, b0', b1', l0', l1'.
      splits; auto.
      exists (flat_map (rx_applied c0 c1) points). split.
      * simpl flat_map. rewrite Hset1. reflexivity.
      * discriminate.
    + rewrite (mbind_out_of_fuel _ _ _ _ Hrun1).
      exists OutOfFuel, w1, evs1, b0', b1', l0', l1'.
      splits; auto.
      exists (flat_map (rx_applied c0 c1) points). split.
      * simpl flat_map. rewrite Hset1. reflexivity.
      * discriminate.
Qed.

(** One depth of the Rx search: the candidates are composed with the
    corrections that the list of bests held when the depth began. *)
Lemma rx_depth_spec (fuel : nat) (best lv : ref) (depth : Z) (w : world D)
    (b0 b1 : complex) (l0 l1 : R) :
  store_get (clists w) best = Some [b0; b1] ->
  store_get (flists w) lv = Some [l0; l1] ->
  exists r w' evs b0' b1' l0' l1',
    rx_depth fuel best lv depth w = (r, w') /\
    trace w' = trace w ++ evs /\
    (exists rest,
        flat_map (rx_applied b0 b1) (GenerateTestPoints depth)
          = filter is_setter evs ++ rest /\
        (r = Returned tt -> rest = [])) /\
    store_get (clists w') best = Some [b0'; b1'] /\
    store_get (flists w') lv = Some [l0'; l1'] /\
    progress b0 l0 b0' l0' evs /\ progress b1 l1 b1' l1' evs /\
    (acquires D fuel -> r = Returned tt).
Proof.
  intros Hb Hl. unfold rx_depth.
  destruct (copy_copy_run best w [b0; b1] Hb)
    as (w1 & Hrun1 & Ht1 & Hf1 & Hnew & Hold).
  rewrite (mbind_returned _ _ _ _ _ Hrun1).
  assert (Hne : length (clists w) <> best).
  { apply store_get_valid in Hb. lia. }
  rewrite <- Hf1 in Hl.
  destruct (rx_points_spec fuel best lv (length (clists w)) b0 b1 Hne
              (GenerateTestPoints depth) w1 b0 b1 l0 l1 Hnew (Hold _ _ Hb) Hl)
    as (r & w' & evs & b0' & b1' & l0' & l1' & Hrun & Ht & Hset
        & _ & Hb' & Hl' & Hp0 & Hp1 & Hacq).
  exists r, w', evs, b0', b1', l0', l1'.
  rewrite <- Ht1. splits; auto.
Qed.

(** The loop over the depths. *)
Lemma rx_depths_spec (fuel : nat) (best lv : ref) :
  forall (depths : list Z) (w : world D) (b0 b1 : complex) (l0 l1 : R),
    store_get (clists w) best = Some [b0; b1] ->
    store_get (flists w) lv = Some [l0; l1] ->
    exists r w' evs b0' b1' l0' l1',
      for_each depths (rx_depth fuel best lv) w = (r, w') /\
      trace w' = trace w ++ evs /\
      store_get (clists w') best = Some [b0'; b1'] /\
      store_get (flists w') lv = Some [l0'; l1'] /\
      progress b0 l0 b0' l0' evs /\ progress b1 l1 b1' l1' evs /\
      (acquires D fuel -> r = Returned tt).
Proof.
  induction depths as [| d depths IH]; intros w b0 b1 l0 l1 Hb Hl.
  - exists (Returned tt), w, [], b0, b1, l0, l1.
    rewrite app_nil_r. splits; auto using progress_refl.
  - destruct (rx_depth_spec fuel best lv d w b0 b1 l0 l1 Hb Hl)
      as (r1 & w1 & evs1 & b0' & b1' & l0' & l1' & Hrun1 & Ht1 & _
          & Hb1 & Hl1 & Hp0 & Hp1 & Hacq1).
    unfold for_each. simpl foldM.
    destruct r1 as [[] | e |].
    + rewrite (mbind_returned _ _ _ _ _ Hrun1).
      destruct (IH w1 b0' b1' l0' l1' Hb1 Hl1)
        as (r & w' & evs & b0'' & b1'' & l0'' & l1'' & Hrun & Ht
            & Hb' & Hl' & Hq0 & Hq1 & Hacq).
      exists r, w', (evs1 ++ evs), b0'', b1'', l0'', l1''.
      splits; eauto using progress_trans.
      rewrite Ht, Ht1, <- app_assoc. reflexivity.
    + rewrite (mbind_raised _ _ _ _ _ Hrun1).
      exists (Raised e), w1, evs1, b0', b1', l0', l1'. splits; auto.
    + rewrite (mbind_out_of_fuel _ _ _ _ Hrun1).
      exists OutOfFuel, w1, evs1, b0', b1', l0', l1'. splits; auto.
Qed.

Lemma new_clist_run (l : list complex) (w : world D) :
  exists w',
    new_clist l w = (Returned (length (clists w)), w') /\
    trace w' = trace w /\ flists w' = flists w /\
    store_get (clists w') (length (clists w)) = Some l /\
    forall r' l', store_get (clists w) r' = Some l' ->
                  store_get (clists w') r' = Some l'.
Proof.
  unfold new_clist. eexists. split; [reflexivity |]. simpl. splits; auto.
  - apply (store_get_alloc_new (clists w) l).
  - intros r' l' H. apply (store_get_alloc_old (clists w) l l' r' H).
Qed.

Lemma new_flist_run (l : list R) (w : world D) :
  exists w',
    new_flist l w = (Returned (length (flists w)), w') /\
    trace w' = trace w /\ clists w' = clists w /\
    store_get (flists w') (length (flists w)) = Some l /\
    forall r' l', store_get (flists w) r' = Some l' ->
                  store_get (flists w') r' = Some l'.
Proof.
  unfold new_flist. eexists. split; [reflexivity |]. simpl. splits; auto.
  - apply (store_get_alloc_new (flists w) l).
  - intros r' l' H. apply (store_get_alloc_old (flists w) l l' r' H).
Qed.

(** The loop that applies the final Rx corrections. *)
Lemma rx_apply_best_run (best : ref) (w : world D) (c0 c1 : complex) :
  store_get (clists w) best = Some [c0; c1] ->
  exists w',
    for_each channels
      (fun ch => mbind (getitem best ch)
                   (fun c => setIQBalance SOAPY_SDR_RX ch c)) w
      = (Returned tt, w') /\
    trace w' = trace w ++
      [SetIQBalance SOAPY_SDR_RX 0 c0; SetIQBalance SOAPY_SDR_RX 1 c1].
Proof.
  intros Hb. unfold for_each, channels. simpl foldM.
  unfold mbind, getitem, setIQBalance, emit, mret.
  repeat (progress (simpl; rewrite ?Hb)).
  eexists. split; [reflexivity |]. simpl. rewrite <- app_assoc. reflexivity.
Qed.

(** The Rx stage.  It returns when every capture does; and then the trace of
    the stage ends with the two calls that apply the final corrections,
    followed by the capture of [rxFinal]. *)
Lemma rx_iq_search_spec (fuel : nat) (w : world D) :
  exists r w' evs,
    rx_iq_search fuel w = (r, w') /\
    trace w' = trace w ++ evs /\
    (acquires D fuel -> r = Returned tt) /\
    (r = Returned tt ->
     exists pre post c0 c1 l0 l1,
       evs = pre ++ [SetIQBalance SOAPY_SDR_RX 0 c0;
                     SetIQBalance SOAPY_SDR_RX 1 c1] ++ post /\
       Forall is_stream post /\
       progress (of_float 1) 1 c0 l0 pre /\
       progress (of_float 1) 1 c1 l1 pre).
Proof.
  unfold rx_iq_search.
  destruct (readSamps_spec fuel SAMPS_PER_CAPTURE w)
    as (r0 & w0 & evs0 & Hrun0 & _ & _ & Ht0 & Hs0 & _).
  assert (Hacq0 : acquires D fuel -> r0 <> OutOfFuel /\ forall e, r0 <> Raised e).
  { intros Hacq. destruct (Hacq w) as (s & w' & Hret).
    rewrite Hret in Hrun0. injection Hrun0 as <- _. split; intros; discriminate. }
  destruct r0 as [samps0 | e |];
    [ rewrite (mbind_returned _ _ _ _ _ Hrun0)
    | rewrite (mbind_raised _ _ _ _ _ Hrun0);
      exists (Raised e), w0, evs0; splits; auto; try discriminate;
      intros Hacq; destruct (Hacq0 Hacq) as [_ H]; destruct (H e eq_refl)
    | rewrite (mbind_out_of_fuel _ _ _ _ Hrun0);
      exists OutOfFuel, w0, evs0; splits; auto; try discriminate;
      intros Hacq; destruct (Hacq0 Hacq) as [H _]; destruct (H eq_refl) ].
  destruct (new_clist_run [of_float 1; of_float 1] w0)
    as (w1 & Hrun1 & Ht1 & Hf1 & Hb1 & _).
  rewrite (mbind_returned _ _ _ _ _ Hrun1).
  destruct (new_flist_run [1; 1] w1) as (w2 & Hrun2 & Ht2 & Hc2 & Hl2 & _).
  rewrite (mbind_returned _ _ _ _ _ Hrun2).
  rewrite <- Hc2 in Hb1.
  set (best := length (clists w0)) in *.
  set (lv := length (flists w1)) in *.
  destruct (rx_depths_spec fuel best lv MAX_SEARCH_DEPTHS w2
              (of_float 1) (of_float 1) 1 1 Hb1 Hl2)
    as (r3 & w3 & evs3 & c0 & c1 & l0 & l1 & Hrun3 & Ht3 & Hb3 & Hl3
        & Hp0 & Hp1 & Hacq3).
  destruct r3 as [[] | e |];
    [ rewrite (mbind_returned _ _ _ _ _ Hrun3)
    | rewrite (mbind_raised _ _ _ _ _ Hrun3);
      exists (Raised e), w3, (evs0 ++ evs3); splits; auto; try discriminate;
      rewrite Ht3, Ht2, Ht1, Ht0, <- app_assoc; reflexivity
    | rewrite (mbind_out_of_fuel _ _ _ _ Hrun3);
      exists OutOfFuel, w3, (evs0 ++ evs3); splits; auto; try discriminate;
      rewrite Ht3, Ht2, Ht1, Ht0, <- app_assoc; reflexivity ].
  destruct (rx_apply_best_run best w3 c0 c1 Hb3) as (w4 & Hrun4 & Ht4).
  rewrite (mbind_returned _ _ _ _ _ Hrun4).
  destruct (readSamps_spec fuel SAMPS_PER_CAPTURE w4)
    as (r5 & w5 & evs5 & Hrun5 & _ & _ & Ht5 & Hs5 & _).
  assert (Hacq5 : acquires D fuel -> r5 <> OutOfFuel /\ forall e, r5 <> Raised e).
  { intros Hacq. destruct (Hacq w4) as (s & w' & Hret).
    rewrite Hret in Hrun5. injection Hrun5 as <- _. split; intros; discriminate. }
  set (final := [SetIQBalance SOAPY_SDR_RX 0 c0; SetIQBalance SOAPY_SDR_RX 1 c1]) in *.
  assert (Htrace : trace w5 = trace w ++ (evs0 ++ evs3) ++ final ++ evs5).
  { rewrite Ht5, Ht4, Ht3, Ht2, Ht1, Ht0, <- !app_assoc. reflexivity. }
  destruct r5 as [samps5 | e |];
    [ rewrite (mbind_returned _ _ _ _ _ Hrun5)
    | rewrite (mbind_raised _ _ _ _ _ Hrun5);
      exists (Raised e), w5, ((evs0 ++ evs3) ++ final ++ evs5);
      splits; auto; try discriminate;
      intros Hacq; destruct (Hacq5 Hacq) as [_ H]; destruct (H e eq_refl)
    | rewrite (mbind_out_of_fuel _ _ _ _ Hrun5);
      exists OutOfFuel, w5, ((evs0 ++ evs3) ++ final ++ evs5);
      splits; auto; try discriminate;
      intros Hacq; destruct (Hacq5 Hacq) as [H _]; destruct (H eq_refl) ].
  exists (Returned tt), w5, ((evs0 ++ evs3) ++ final ++ evs5).
  splits; auto.
  intros _. exists (evs0 ++ evs3), evs5, c0, c1, l0, l1.
  splits; auto.
  - apply (progress_more _ _ _ _ evs0 evs3 []) in Hp0.
    rewrite app_nil_r in Hp0. exact Hp0.
  - apply (progress_more _ _ _ _ evs0 evs3 []) in Hp1.
    rewrite app_nil_r in Hp1. exact Hp1.
Qed.

End RxSearch.

(* ================================================================== *)
(** * The Tx IQ and DC search                                          *)
(* ================================================================== *)

Lemma progress2_refl (b : complex * complex) (l : R * R) (evs : list event) :
  progress2 b l b l evs.
Proof. split; apply progress_refl. Qed.

Lemma progress2_trans (b : complex * complex) (l : R * R)
    (b' : complex * complex) (l' : R * R)
    (b'' : complex * complex) (l'' : R * R) (evs1 evs2 : list event) :
  progress2 b l b' l' evs1 -> progress2 b' l' b'' l'' evs2 ->
  progress2 b l b'' l'' (evs1 ++ evs2).
Proof. intros [H0 H1] [K0 K1]. split; eapply progress_trans; eauto. Qed.

Lemma progress2_more (b : complex * complex) (l : R * R)
    (b' : complex * complex) (l' : R * R) (pre evs post : list event) :
  progress2 b l b' l' evs -> progress2 b l b' l' (pre ++ evs ++ post).
Proof. intros [H0 H1]. split; apply progress_more; assumption. Qed.

Lemma length_store_set {A : Type} (s : store A) (r : ref) (l : list A) :
  length (store_set s r l) = length s.
Proof. apply length_list_set. Qed.

Lemma store_get_set_here {A : Type} (s : store A) (r : ref) (l : list A) :
  (r < length s)%nat -> store_get (store_set s r l) r = Some l.
Proof. intros H. apply nth_error_list_set_eq. exact H. Qed.

Ltac store_simpl :=
  repeat first
    [ rewrite store_get_set_here by (rewrite ?length_store_set; assumption)
    | rewrite store_get_set_neq by congruence ].

Ltac store_step Hq Hd Ha He :=
  repeat (progress (simpl; rewrite ?Hq, ?Hd, ?Ha, ?He; store_simpl)).

Section TxSearch.

Context {D : Device}.

Lemma tx_candidates_run (iIq iDc : ref) (dcPoint iqPoint : complex)
    (w : world D) (i0 i1 j0 j1 : complex) :
  store_get (clists w) iIq = Some [i0; i1] ->
  store_get (clists w) iDc = Some [j0; j1] ->
  exists w',
    tx_candidates iIq iDc dcPoint iqPoint w =
      (Returned ([composed iqPoint i0; composed iqPoint i1],
                 [shifted dcPoint j0; shifted dcPoint j1]), w') /\
    clists w' = clists w /\ flists w' = flists w /\
    trace w' = trace w ++ tx_applied i0 i1 j0 j1 (dcPoint, iqPoint).
Proof.
  intros Hi Hj.
  unfold tx_candidates, channels. simpl foldM.
  unfold mbind, getitem, setIQBalance, setDCOffset, emit, mret.
  repeat (progress (simpl; rewrite ?Hi, ?Hj)).
  eexists. split; [reflexivity |]. simpl.
  rewrite <- !app_assoc. auto.
Qed.

(** The exact effect of the comparison loop of one Tx test point. *)
Lemma tx_keep_best_run (bIq lIq bDc lDc : ref) (n0 n1 k0 k1 : complex)
    (samps : list (list complex)) (w : world D)
    (q0 q1 d0 d1 : complex) (a0 a1 e0 e1 : R) :
  bIq <> bDc -> lIq <> lDc ->
  store_get (clists w) bIq = Some [q0; q1] ->
  store_get (clists w) bDc = Some [d0; d1] ->
  store_get (flists w) lIq = Some [a0; a1] ->
  store_get (flists w) lDc = Some [e0; e1] ->
  exists w',
    tx_keep_best bIq lIq bDc lDc [n0; n1] [k0; k1] samps w = (Returned tt, w') /\
    hw w' = hw w /\
    trace w' = trace w ++
      [Measured (TX_FREQ_DELTA - nth 0 TX_CORDIC_FREQ 0) (tx_iq_level samps 0);
       Measured TX_FREQ_DELTA (tx_dc_level samps 0);
       Measured (TX_FREQ_DELTA - nth 1 TX_CORDIC_FREQ 0) (tx_iq_level samps 1);
       Measured TX_FREQ_DELTA (tx_dc_level samps 1)] /\
    store_get (clists w') bIq =
      Some [better (tx_iq_level samps 0) a0 n0 q0;
            better (tx_iq_level samps 1) a1 n1 q1] /\
    store_get (clists w') bDc =
      Some [better (tx_dc_level samps 0) e0 k0 d0;
            better (tx_dc_level samps 1) e1 k1 d1] /\
    store_get (flists w') lIq =
      Some [lower (tx_iq_level samps 0) a0; lower (tx_iq_level samps 1) a1] /\
    store_get (flists w') lDc =
      Some [lower (tx_dc_level samps 0) e0; lower (tx_dc_level samps 1) e1] /\
    (forall r l, r <> bIq -> r <> bDc ->
       store_get (clists w) r = Some l -> store_get (clists w') r = Some l).
Proof.
  intros Hnc Hnf Hq Hd Ha He.
  pose proof (store_get_valid _ _ _ Hq) as Vq.
  pose proof (store_get_valid _ _ _ Hd) as Vd.
  pose proof (store_get_valid _ _ _ Ha) as Va.
  pose proof (store_get_valid _ _ _ He) as Ve.
  cbv beta iota zeta delta [tx_keep_best for_each channels foldM mbind measure
                              getlevel setitem setlevel mret].
  fold (tx_iq_level samps 0) (tx_iq_level samps 1)
       (tx_dc_level samps 0) (tx_dc_level samps 1).
  generalize (tx_iq_level samps 0) (tx_iq_level samps 1)
             (tx_dc_level samps 0) (tx_dc_level samps 1)
             (TX_FREQ_DELTA - nth 0 TX_CORDIC_FREQ 0)
             (TX_FREQ_DELTA - nth 1 TX_CORDIC_FREQ 0).
  intros mi0 mi1 md0 md1 f0 f1.
  unfold better, lower.
  store_step Hq Hd Ha He.
  destruct (Rlt_dec mi0 a0) as [Hi0 | Hi0]; store_step Hq Hd Ha He;
  destruct (Rlt_dec md0 e0) as [Hd0 | Hd0]; store_step Hq Hd Ha He;
  destruct (Rlt_dec mi1 a1) as [Hi1 | Hi1]; store_step Hq Hd Ha He;
  destruct (Rlt_dec md1 e1) as [Hd1 | Hd1]; store_step Hq Hd Ha He;
  (eexists; split; [reflexivity |]; simpl;
   rewrite <- !app_assoc; simpl; store_simpl; splits; auto;
   intros r l Hr1 Hr2 Hg; store_simpl; exact Hg).
Qed.

(** One Tx test point. *)
Lemma tx_point_spec (fuel : nat) (bIq lIq bDc lDc iIq iDc : ref)
    (point : complex * complex) (w : world D)
    (ci cd q d : complex * complex) (a e : R * R) :
  bIq <> bDc -> lIq <> lDc ->
  iIq <> bIq -> iIq <> bDc -> iDc <> bIq -> iDc <> bDc ->
  holds (clists w) iIq ci -> holds (clists w) iDc cd ->
  holds (clists w) bIq q -> holds (clists w) bDc d ->
  holds (flists w) lIq a -> holds (flists w) lDc e ->
  exists r w' evs q' d' a' e',
    tx_point fuel bIq lIq bDc lDc iIq iDc point w = (r, w') /\
    trace w' = trace w ++ evs /\
    filter is_setter evs
      = tx_applied (fst ci) (snd ci) (fst cd) (snd cd) point /\
    holds (clists w') iIq ci /\ holds (clists w') iDc cd /\
    holds (clists w') bIq q' /\ holds (clists w') bDc d' /\
    holds (flists w') lIq a' /\ holds (flists w') lDc e' /\
    progress2 q a q' a' evs /\ progress2 d e d' e' evs /\
    (acquires D fuel -> r = Returned tt).
Proof.
  intros Hnc Hnf Hn1 Hn2 Hn3 Hn4 Hci Hcd Hq Hd Ha He.
  destruct point as [dcPoint iqPoint].
  destruct ci as [i0 i1], cd as [j0 j1], q as [q0 q1], d as [d0 d1],
    a as [a0 a1], e as [e0 e1].
  unfold holds in *. simpl fst in *. simpl snd in *.
  unfold tx_point. simpl fst. simpl snd.
  destruct (tx_candidates_run iIq iDc dcPoint iqPoint w i0 i1 j0 j1 Hci Hcd)
    as (w1 & Hrun1 & Hc1 & Hf1 & Ht1).
  rewrite (mbind_returned _ _ _ _ _ Hrun1). simpl fst. simpl snd.
  set (applied := tx_applied i0 i1 j0 j1 (dcPoint, iqPoint)) in *.
  destruct (readSamps_spec fuel SAMPS_PER_CAPTURE w1)
    as (r2 & w2 & evs2 & Hrun2 & Hc2 & Hf2 & Ht2 & Hs2 & _).
  assert (Hfail : forall r : result unit,
    (acquires D fuel -> r = Returned tt) ->
    exists r' w' evs q' d' a' e',
      (r, w2) = (r', w') /\
      trace w' = trace w ++ evs /\
      filter is_setter evs = applied /\
      store_get (clists w') iIq = Some [i0; i1] /\
      store_get (clists w') iDc = Some [j0; j1] /\
      store_get (clists w') bIq = Some [fst q'; snd q'] /\
      store_get (clists w') bDc = Some [fst d'; snd d'] /\
      store_get (flists w') lIq = Some [fst a'; snd a'] /\
      store_get (flists w') lDc = Some [fst e'; snd e'] /\
      progress2 (q0, q1) (a0, a1) q' a' evs /\
      progress2 (d0, d1) (e0, e1) d' e' evs /\
      (acquires D fuel -> r' = Returned tt)).
  { intros r Hr.
    exists r, w2, (applied ++ evs2), (q0, q1), (d0, d1), (a0, a1), (e0, e1).
    rewrite Ht2, Ht1, Hc2, Hc1, Hf2, Hf1, <- app_assoc, filter_app,
      (filter_setter_stream _ Hs2), app_nil_r.
    splits; auto using progress2_refl. }
  assert (Hacq2 : acquires D fuel -> r2 <> OutOfFuel /\ forall x, r2 <> Raised x).
  { intros Hacq. destruct (Hacq w1) as (s & w' & Hret).
    rewrite Hret in Hrun2. injection Hrun2 as <- _. split; intros; discriminate. }
  destruct r2 as [samps | x |].
  - rewrite (mbind_returned _ _ _ _ _ Hrun2).
    rewrite <- Hc1, <- Hc2 in Hq, Hd, Hci, Hcd. rewrite <- Hf1, <- Hf2 in Ha, He.
    destruct (tx_keep_best_run bIq lIq bDc lDc
                (composed iqPoint i0) (composed iqPoint i1)
                (shifted dcPoint j0) (shifted dcPoint j1)
                samps w2 q0 q1 d0 d1 a0 a1 e0 e1 Hnc Hnf Hq Hd Ha He)
      as (w3 & Hrun3 & _ & Ht3 & Hq3 & Hd3 & Ha3 & He3 & Hframe).
    rewrite Hrun3.
    set (levels :=
           [Measured (TX_FREQ_DELTA - nth 0 TX_CORDIC_FREQ 0) (tx_iq_level samps 0);
            Measured TX_FREQ_DELTA (tx_dc_level samps 0);
            Measured (TX_FREQ_DELTA - nth 1 TX_CORDIC_FREQ 0) (tx_iq_level samps 1);
            Measured TX_FREQ_DELTA (tx_dc_level samps 1)]) in *.
    exists (Returned tt), w3, (applied ++ evs2 ++ levels),
      (better (tx_iq_level samps 0) a0 (composed iqPoint i0) q0,
       better (tx_iq_level samps 1) a1 (composed iqPoint i1) q1),
      (better (tx_dc_level samps 0) e0 (shifted dcPoint j0) d0,
       better (tx_dc_level samps 1) e1 (shifted dcPoint j1) d1),
      (lower (tx_iq_level samps 0) a0, lower (tx_iq_level samps 1) a1),
      (lower (tx_dc_level samps 0) e0, lower (tx_dc_level samps 1) e1).
    simpl fst. simpl snd.
    assert (Hin : forall ev, In ev levels -> In ev (applied ++ evs2 ++ levels)).
    { intros ev H. apply in_or_app. right. apply in_or_app. right. exact H. }
    splits; auto.
    + rewrite Ht3, Ht2, Ht1, <- !app_assoc. reflexivity.
    + rewrite !filter_app, (filter_setter_stream _ Hs2). simpl.
      rewrite ?app_nil_r. reflexivity.
    + split; simpl.
      * eapply progress_step. apply Hin. left. reflexivity.
      * eapply progress_step. apply Hin. right. right. left. reflexivity.
    + split; simpl.
      * eapply progress_step. apply Hin. right. left. reflexivity.
      * eapply progress_step. apply Hin. right. right. right. left. reflexivity.
  - rewrite (mbind_raised _ _ _ _ _ Hrun2). apply Hfail.
    intros Hacq. destruct (Hacq2 Hacq) as [_ H]. destruct (H x eq_refl).
  - rewrite (mbind_out_of_fuel _ _ _ _ Hrun2). apply Hfail.
    intros Hacq. destruct (Hacq2 Hacq) as [H _]. destruct (H eq_refl).
Qed.

(** The test points of one depth, with the snapshots in [iIq] and [iDc]. *)
Lemma tx_points_spec (fuel : nat) (bIq lIq bDc lDc iIq iDc : ref)
    (ci cd : complex * complex) :
  bIq <> bDc -> lIq <> lDc ->
  iIq <> bIq -> iIq <> bDc -> iDc <> bIq -> iDc <> bDc ->
  forall (points : list (complex * complex)) (w : world D)
         (q d : complex * complex) (a e : R * R),
    holds (clists w) iIq ci -> holds (clists w) iDc cd ->
    holds (clists w) bIq q -> holds (clists w) bDc d ->
    holds (flists w) lIq a -> holds (flists w) lDc e ->
    exists r w' evs q' d' a' e',
      for_each points (tx_point fuel bIq lIq bDc lDc iIq iDc) w = (r, w') /\
      trace w' = trace w ++ evs /\
      (exists rest,
          flat_map (tx_applied (fst ci) (snd ci) (fst cd) (snd cd)) points
            = filter is_setter evs ++ rest /\
          (r = Returned tt -> rest = [])) /\
      holds (clists w') iIq ci /\ holds (clists w') iDc cd /\
      holds (clists w') bIq q' /\ holds (clists w') bDc d' /\
      holds (flists w') lIq a' /\ holds (flists w') lDc e' /\
      progress2 q a q' a' evs /\ progress2 d e d' e' evs /\
      (acquires D fuel -> r = Returned tt).
Proof.
  intros Hnc Hnf Hn1 Hn2 Hn3 Hn4.
  induction points as [| p points IH]; intros w q d a e Hci Hcd Hq Hd Ha He.
  - exists (Returned tt), w, [], q, d, a, e.
    rewrite app_nil_r. splits; auto using progress2_refl.
    exists []. auto.
  - destruct (tx_point_spec fuel bIq lIq bDc lDc iIq iDc p w ci cd q d a e
                Hnc Hnf Hn1 Hn2 Hn3 Hn4 Hci Hcd Hq Hd Ha He)
      as (r1 & w1 & evs1 & q' & d' & a' & e' & Hrun1 & Ht1 & Hset1
          & Hci1 & Hcd1 & Hq1 & Hd1 & Ha1 & He1 & Hp1 & Hp2 & Hacq1).
    unfold for_each. simpl foldM.
    destruct r1 as [[] | x |].
    + rewrite (mbind_returned _ _ _ _ _ Hrun1).
      destruct (IH w1 q' d' a' e' Hci1 Hcd1 Hq1 Hd1 Ha1 He1)
        as (r & w' & evs & q'' & d'' & a'' & e'' & Hrun & Ht
            & (rest & Hset & Hrest)
            & Hci' & Hcd' & Hq' & Hd' & Ha' & He' & Hr1 & Hr2 & Hacq).
      exists r, w', (evs1 ++ evs), q'', d'', a'', e''.
      splits; eauto using progress2_trans.
      * rewrite Ht, Ht1, <- app_assoc. reflexivity.
      * exists rest. split; [| exact Hrest].
        simpl flat_map. rewrite filter_app, Hset1, Hset, <- app_assoc. reflexivity.
    + rewrite (mbind_raised _ _ _ _ _ Hrun1).
      exists (Raised x), w1, evs1, q', d', a', e'.
      splits; auto.
      exists (flat_map (tx_applied (fst ci) (snd ci) (fst cd) (snd cd)) points).
      split; [simpl flat_map; rewrite Hset1; reflexivity | discriminate].
    + rewrite (mbind_out_of_fuel _ _ _ _ Hrun1).
      exists OutOfFuel, w1, evs1, q', d', a', e'.
      splits; auto.
      exists (flat_map (tx_applied (fst ci) (snd ci) (fst cd) (snd cd)) points).
      split; [simpl flat_map; rewrite Hset1; reflexivity | discriminate].
Qed.

(** One depth of the Tx search: the candidates are built on the corrections
    that the two lists of bests held when the depth began. *)
Lemma tx_depth_spec (fuel : nat) (bIq lIq bDc lDc : ref) (depth : Z)
    (w : world D) (q d : complex * complex) (a e : R * R) :
  bIq <> bDc -> lIq <> lDc ->
  holds (clists w) bIq q -> holds (clists w) bDc d ->
  holds (flists w) lIq a -> holds (flists w) lDc e ->
  exists r w' evs q' d' a' e',
    tx_depth fuel bIq lIq bDc lDc depth w = (r, w') /\
    trace w' = trace w ++ evs /\
    (exists rest,
        flat_map (tx_applied (fst q) (snd q) (fst d) (snd d))
          (GenerateTestPoints depth) = filter is_setter evs ++ rest /\
        (r = Returned tt -> rest = [])) /\
    holds (clists w') bIq q' /\ holds (clists w') bDc d' /\
    holds (flists w') lIq a' /\ holds (flists w') lDc e' /\
    progress2 q a q' a' evs /\ progress2 d e d' e' evs /\
    (acquires D fuel -> r = Returned tt).
Proof.
  intros Hnc Hnf Hq Hd Ha He. unfold tx_depth, holds in *.
  destruct (copy_copy_run bIq w _ Hq) as (w1 & Hrun1 & Ht1 & Hf1 & Hnew1 & Hold1).
  rewrite (mbind_returned _ _ _ _ _ Hrun1).
  pose proof (Hold1 _ _ Hd) as Hd1.
  destruct (copy_copy_run bDc w1 _ Hd1) as (w2 & Hrun2 & Ht2 & Hf2 & Hnew2 & Hold2).
  rewrite (mbind_returned _ _ _ _ _ Hrun2).
  pose proof (store_get_valid _ _ _ Hq) as Vq.
  pose proof (store_get_valid _ _ _ Hd) as Vd.
  pose proof (store_get_valid _ _ _ (Hold1 _ _ Hq)) as Vq1.
  pose proof (store_get_valid _ _ _ Hd1) as Vd1.
  rewrite <- Hf1, <- Hf2 in Ha, He.
  destruct (tx_points_spec fuel bIq lIq bDc lDc
              (length (clists w)) (length (clists w1)) q d
              Hnc Hnf ltac:(lia) ltac:(lia) ltac:(lia) ltac:(lia)
              (GenerateTestPoints depth) w2 q d a e
              (Hold2 _ _ Hnew1) Hnew2 (Hold2 _ _ (Hold1 _ _ Hq)) (Hold2 _ _ Hd1)
              Ha He)
    as (r & w' & evs & q' & d' & a' & e' & Hrun & Ht & Hset
        & _ & _ & Hq' & Hd' & Ha' & He' & Hp1 & Hp2 & Hacq).
  exists r, w', evs, q', d', a', e'.
  rewrite <- Ht1, <- Ht2. splits; auto.
Qed.

(** The loop over the depths. *)
Lemma tx_depths_spec (fuel : nat) (bIq lIq bDc lDc : ref) :
  bIq <> bDc -> lIq <> lDc ->
  forall (depths : list Z) (w : world D)
         (q d : complex * complex) (a e : R * R),
    holds (clists w) bIq q -> holds (clists w) bDc d ->
    holds (flists w) lIq a -> holds (flists w) lDc e ->
    exists r w' evs q' d' a' e',
      for_each depths (tx_depth fuel bIq lIq bDc lDc) w = (r, w') /\
      trace w' = trace w ++ evs /\
      holds (clists w') bIq q' /\ holds (clists w') bDc d' /\
      holds (flists w') lIq a' /\ holds (flists w') lDc e' /\
      progress2 q a q' a' evs /\ progress2 d e d' e' evs /\
      (acquires D fuel -> r = Returned tt).
Proof.
  intros Hnc Hnf.
  induction depths as [| dp depths IH]; intros w q d a e Hq Hd Ha He.
  - exists (Returned tt), w, [], q, d, a, e.
    rewrite app_nil_r. splits; auto using progress2_refl.
  - destruct (tx_depth_spec fuel bIq lIq bDc lDc dp w q d a e Hnc Hnf Hq Hd Ha He)
      as (r1 & w1 & evs1 & q' & d' & a' & e' & Hrun1 & Ht1 & _
          & Hq1 & Hd1 & Ha1 & He1 & Hp1 & Hp2 & Hacq1).
    unfold for_each. simpl foldM.
    destruct r1 as [[] | x |].
    + rewrite (mbind_returned _ _ _ _ _ Hrun1).
      destruct (IH w1 q' d' a' e' Hq1 Hd1 Ha1 He1)
        as (r & w' & evs & q'' & d'' & a'' & e'' & Hrun & Ht
            & Hq' & Hd' & Ha' & He' & Hr1 & Hr2 & Hacq).
      exists r, w', (evs1 ++ evs), q'', d'', a'', e''.
      splits; eauto using progress2_trans.
      rewrite Ht, Ht1, <- app_assoc. reflexivity.
    + rewrite (mbind_raised _ _ _ _ _ Hrun1).
      exists (Raised x), w1, evs1, q', d', a', e'. splits; auto.
    + rewrite (mbind_out_of_fuel _ _ _ _ Hrun1).
      exists OutOfFuel, w1, evs1, q', d', a', e'. splits; auto.
Qed.

(** The loop that applies the final Tx corrections. *)
Lemma tx_apply_best_run (bIq bDc : ref) (w : world D)
    (q d : complex * complex) :
  holds (clists w) bIq q -> holds (clists w) bDc d ->
  exists w',
    for_each channels
      (fun ch =>
         mbind (getitem bIq ch) (fun cIq =>
         mbind (setIQBalance SOAPY_SDR_TX ch cIq) (fun _ =>
         mbind (getitem bDc ch) (fun cDc =>
         setDCOffset SOAPY_SDR_TX ch cDc)))) w
      = (Returned tt, w') /\
    trace w' = trace w ++
      [SetIQBalance SOAPY_SDR_TX 0 (fst q); SetDCOffset SOAPY_SDR_TX 0 (fst d);
       SetIQBalance SOAPY_SDR_TX 1 (snd q); SetDCOffset SOAPY_SDR_TX 1 (snd d)].
Proof.
  unfold holds. intros Hq Hd. unfold for_each, channels. simpl foldM.
  unfold mbind, getitem, setIQBalance, setDCOffset, emit, mret.
  repeat (progress (simpl; rewrite ?Hq, ?Hd)).
  eexists. split; [reflexivity |]. simpl. rewrite <- !app_assoc. reflexivity.
Qed.

Lemma tx_set_cordic_run (w : world D) :
  exists w',
    for_each channels
      (fun ch => setFrequency SOAPY_SDR_TX ch "BB" (nth ch TX_CORDIC_FREQ 0)) w
      = (Returned tt, w') /\
    clists w' = clists w /\ flists w' = flists w /\
    trace w' = trace w ++
      [SetFrequency SOAPY_SDR_TX 0 "BB" (nth 0 TX_CORDIC_FREQ 0);
       SetFrequency SOAPY_SDR_TX 1 "BB" (nth 1 TX_CORDIC_FREQ 0)].
Proof.
  unfold for_each, channels. simpl foldM.
  unfold mbind, setFrequency, emit, mret.
  eexists. split; [reflexivity |]. simpl. rewrite <- !app_assoc. auto.
Qed.

(** The Tx stage.  It returns when every capture does; and then the trace of
    the stage ends with the four calls that apply the final corrections,
    followed by the capture of [txFinal]. *)
Lemma tx_iq_dc_search_spec (fuel : nat) (w : world D) :
  exists r w' evs,
    tx_iq_dc_search fuel w = (r, w') /\
    trace w' = trace w ++ evs /\
    (acquires D fuel -> r = Returned tt) /\
    (r = Returned tt ->
     exists pre post q d a e,
       evs = pre ++
         [SetIQBalance SOAPY_SDR_TX 0 (fst q); SetDCOffset SOAPY_SDR_TX 0 (fst d);
          SetIQBalance SOAPY_SDR_TX 1 (snd q); SetDCOffset SOAPY_SDR_TX 1 (snd d)]
         ++ post /\
       Forall is_stream post /\
       progress2 (of_float 1, of_float 1) (1, 1) q a pre /\
       progress2 (of_float 0, of_float 0) (1, 1) d e pre).
Proof.
  unfold tx_iq_dc_search.
  destruct (tx_set_cordic_run w) as (wc & Hrunc & _ & _ & Htc).
  rewrite (mbind_returned _ _ _ _ _ Hrunc).
  set (cordic := [SetFrequency SOAPY_SDR_TX 0 "BB" (nth 0 TX_CORDIC_FREQ 0);
                  SetFrequency SOAPY_SDR_TX 1 "BB" (nth 1 TX_CORDIC_FREQ 0)]) in *.
  destruct (readSamps_spec fuel SAMPS_PER_CAPTURE wc)
    as (r0 & w0 & evs0 & Hrun0 & _ & _ & Ht0 & Hs0 & _).
  assert (Hacq0 : acquires D fuel -> r0 <> OutOfFuel /\ forall x, r0 <> Raised x).
  { intros Hacq. destruct (Hacq wc) as (s & w' & Hret).
    rewrite Hret in Hrun0. injection Hrun0 as <- _. split; intros; discriminate. }
  assert (Htr0 : trace w0 = trace w ++ cordic ++ evs0).
  { rewrite Ht0, Htc, <- app_assoc. reflexivity. }
  destruct r0 as [samps0 | x |];
    [ rewrite (mbind_returned _ _ _ _ _ Hrun0)
    | rewrite (mbind_raised _ _ _ _ _ Hrun0);
      exists (Raised x), w0, (cordic ++ evs0); splits; auto; try discriminate;
      intros Hacq; destruct (Hacq0 Hacq) as [_ H]; destruct (H x eq_refl)
    | rewrite (mbind_out_of_fuel _ _ _ _ Hrun0);
      exists OutOfFuel, w0, (cordic ++ evs0); splits; auto; try discriminate;
      intros Hacq; destruct (Hacq0 Hacq) as [H _]; destruct (H eq_refl) ].
  destruct (new_clist_run [of_float 1; of_float 1] w0)
    as (w1 & Hrun1 & Ht1 & Hf1 & Hq1 & _).
  rewrite (mbind_returned _ _ _ _ _ Hrun1).
  destruct (new_flist_run [1; 1] w1) as (w2 & Hrun2 & Ht2 & Hc2 & Ha2 & _).
  rewrite (mbind_returned _ _ _ _ _ Hrun2).
  destruct (new_clist_run [of_float 0; of_float 0] w2)
    as (w3 & Hrun3 & Ht3 & Hf3 & Hd3 & Hold3).
  rewrite (mbind_returned _ _ _ _ _ Hrun3).
  destruct (new_flist_run [1; 1] w3) as (w4 & Hrun4 & Ht4 & Hc4 & He4 & Hold4).
  rewrite (mbind_returned _ _ _ _ _ Hrun4).
  rewrite <- Hc2 in Hq1.
  pose proof (store_get_valid _ _ _ Hq1) as Vq.
  apply Hold3 in Hq1. rewrite <- Hc4 in Hq1, Hd3.
  rewrite <- Hf3 in Ha2.
  pose proof (store_get_valid _ _ _ Ha2) as Va.
  apply Hold4 in Ha2.
  set (bIq := length (clists w0)) in *.
  set (lIq := length (flists w1)) in *.
  set (bDc := length (clists w2)) in *.
  set (lDc := length (flists w3)) in *.
  assert (Hnc : bIq <> bDc) by lia.
  assert (Hnf : lIq <> lDc) by lia.
  destruct (tx_depths_spec fuel bIq lIq bDc lDc Hnc Hnf MAX_SEARCH_DEPTHS w4
              (of_float 1, of_float 1) (of_float 0, of_float 0) (1, 1) (1, 1)
              Hq1 Hd3 Ha2 He4)
    as (r5 & w5 & evs5 & q & d & a & e & Hrun5 & Ht5 & Hq5 & Hd5 & _ & _
        & Hp1 & Hp2 & Hacq5).
  assert (Htr5 : trace w5 = trace w ++ (cordic ++ evs0) ++ evs5).
  { rewrite Ht5, Ht4, Ht3, Ht2, Ht1, Htr0, <- !app_assoc. reflexivity. }
  destruct r5 as [[] | x |];
    [ rewrite (mbind_returned _ _ _ _ _ Hrun5)
    | rewrite (mbind_raised _ _ _ _ _ Hrun5);
      exists (Raised x), w5, ((cordic ++ evs0) ++ evs5);
      splits; auto; discriminate
    | rewrite (mbind_out_of_fuel _ _ _ _ Hrun5);
      exists OutOfFuel, w5, ((cordic ++ evs0) ++ evs5);
      splits; auto; discriminate ].
  destruct (tx_apply_best_run bIq bDc w5 q d Hq5 Hd5) as (w6 & Hrun6 & Ht6).
  rewrite (mbind_returned _ _ _ _ _ Hrun6).
  destruct (readSamps_spec fuel SAMPS_PER_CAPTURE w6)
    as (r7 & w7 & evs7 & Hrun7 & _ & _ & Ht7 & Hs7 & _).
  assert (Hacq7 : acquires D fuel -> r7 <> OutOfFuel /\ forall x, r7 <> Raised x).
  { intros Hacq. destruct (Hacq w6) as (s & w' & Hret).
    rewrite Hret in Hrun7. injection Hrun7 as <- _. split; intros; discriminate. }
  set (final :=
         [SetIQBalance SOAPY_SDR_TX 0 (fst q); SetDCOffset SOAPY_SDR_TX 0 (fst d);
          SetIQBalance SOAPY_SDR_TX 1 (snd q); SetDCOffset SOAPY_SDR_TX 1 (snd d)])
    in *.
  set (pre := (cordic ++ evs0) ++ evs5) in *.
  assert (Htrace : trace w7 = trace w ++ pre ++ final ++ evs7).
  { rewrite Ht7, Ht6, Htr5, <- !app_assoc. reflexivity. }
  destruct r7 as [samps7 | x |];
    [ rewrite (mbind_returned _ _ _ _ _ Hrun7)
    | rewrite (mbind_raised _ _ _ _ _ Hrun7);
      exists (Raised x), w7, (pre ++ final ++ evs7);
      splits; auto; try discriminate;
      intros Hacq; destruct (Hacq7 Hacq) as [_ H]; destruct (H x eq_refl)
    | rewrite (mbind_out_of_fuel _ _ _ _ Hrun7);
      exists OutOfFuel, w7, (pre ++ final ++ evs7);
      splits; auto; try discriminate;
      intros Hacq; destruct (Hacq7 Hacq) as [H _]; destruct (H eq_refl) ].
  exists (Returned tt), w7, (pre ++ final ++ evs7).
  splits; auto.
  intros _. exists pre, evs7, q, d, a, e.
  splits; auto.
  - apply (progress2_more _ _ _ _ (cordic ++ evs0) evs5 []) in Hp1.
    rewrite app_nil_r in Hp1. exact Hp1.
  - apply (progress2_more _ _ _ _ (cordic ++ evs0) evs5 []) in Hp2.
    rewrite app_nil_r in Hp2. exact Hp2.
Qed.

End TxSearch.

(* ================================================================== *)
(** * What a run may put in the trace                                  *)
(* ================================================================== *)

Section Emits.

Context {D : Device}.

Lemma emits_mret {A : Type} (P : event -> Prop) (Q : A -> Prop) (a : A) :
  Q a -> emits (D := D) P Q (mret a).
Proof.
  intros HQ w. exists []. simpl. rewrite app_nil_r. splits; auto.
  intros a' H. injection H as <-. exact HQ.
Qed.

Lemma emits_mbind {A B : Type} (P : event -> Prop) (Q : A -> Prop)
    (R : B -> Prop) (m : M D A) (k : A -> M D B) :
  emits (D := D) P Q m -> (forall a, Q a -> emits (D := D) P R (k a)) -> emits (D := D) P R (mbind m k).
Proof.
  intros Hm Hk w. destruct (Hm w) as (evs1 & Ht1 & HP1 & HQ1).
  unfold mbind. destruct (m w) as [[a | e |] w1]; simpl in *.
  - destruct (Hk a (HQ1 a eq_refl) w1) as (evs2 & Ht2 & HP2 & HQ2).
    exists (evs1 ++ evs2). rewrite Ht2, Ht1, <- app_assoc. splits; auto.
    apply Forall_app. auto.
  - exists evs1. splits; auto. discriminate.
  - exists evs1. splits; auto. discriminate.
Qed.

Lemma emits_weaken {A : Type} (P : event -> Prop) (Q Q' : A -> Prop)
    (m : M D A) :
  (forall a, Q a -> Q' a) -> emits (D := D) P Q m -> emits (D := D) P Q' m.
Proof.
  intros HQ Hm w. destruct (Hm w) as (evs & Ht & HP & Hq).
  exists evs. splits; auto.
Qed.

Lemma emits_foldM {A S : Type} (P : event -> Prop) (I : S -> Prop)
    (f : S -> A -> M D S) (l : list A) :
  (forall s a, In a l -> I s -> emits (D := D) P I (f s a)) ->
  forall s, I s -> emits (D := D) P I (foldM f s l).
Proof.
  induction l as [| a l IH]; intros Hf s Hs; simpl.
  - apply emits_mret. exact Hs.
  - eapply emits_mbind; [apply Hf; [left; reflexivity | exact Hs] |].
    apply IH. intros s' a' Hin. apply Hf. right. exact Hin.
Qed.

Lemma emits_for_each {A : Type} (P : event -> Prop) (body : A -> M D unit)
    (l : list A) :
  (forall a, In a l -> emits (D := D) P (fun _ => True) (body a)) ->
  emits (D := D) P (fun _ => True) (for_each l body).
Proof.
  intros Hb. unfold for_each.
  apply (emits_foldM P (fun _ => True)); auto.
Qed.

Lemma emits_emit (P : event -> Prop) (e : event)
    (f : dev_state D -> dev_state D) :
  P e -> emits (D := D) P (fun _ => True) (emit e f).
Proof.
  intros He w. exists [e]. simpl. splits; auto.
Qed.

Lemma emits_silent {A : Type} (P : event -> Prop) (m : M D A) :
  (forall w, trace (snd (m w)) = trace w) -> emits (D := D) P (fun _ => True) m.
Proof.
  intros H w. exists []. rewrite app_nil_r. splits; auto.
Qed.

Lemma getitem_silent (r : ref) (i : nat) (w : world D) :
  trace (snd (getitem r i w)) = trace w.
Proof.
  unfold getitem. destruct (store_get (clists w) r) as [l |]; [| reflexivity].
  destruct (nth_error l i); reflexivity.
Qed.

Lemma getlevel_silent (r : ref) (i : nat) (w : world D) :
  trace (snd (getlevel r i w)) = trace w.
Proof.
  unfold getlevel. destruct (store_get (flists w) r) as [l |]; [| reflexivity].
  destruct (nth_error l i); reflexivity.
Qed.

Lemma setitem_silent (r : ref) (i : nat) (v : complex) (w : world D) :
  trace (snd (setitem r i v w)) = trace w.
Proof.
  unfold setitem. destruct (store_get (clists w) r) as [l |]; [| reflexivity].
  destruct (i <? length l)%nat; reflexivity.
Qed.

Lemma setlevel_silent (r : ref) (i : nat) (v : R) (w : world D) :
  trace (snd (setlevel r i v w)) = trace w.
Proof.
  unfold setlevel. destruct (store_get (flists w) r) as [l |]; [| reflexivity].
  destruct (i <? length l)%nat; reflexivity.
Qed.

Lemma copy_copy_silent (r : ref) (w : world D) :
  trace (snd (copy_copy r w)) = trace w.
Proof.
  unfold copy_copy. destruct (store_get (clists w) r); reflexivity.
Qed.

Lemma emits_readSamps (P : event -> Prop) (fuel : nat) :
  (forall e, is_stream e -> P e) ->
  emits (D := D) P (captured (D := D) fuel) (readSamps fuel SAMPS_PER_CAPTURE).
Proof.
  intros HP w.
  destruct (readSamps_spec fuel SAMPS_PER_CAPTURE w)
    as (r & w' & evs & Hrun & _ & _ & Ht & Hs & _).
  exists evs. rewrite Hrun. simpl. splits; auto.
  - eapply Forall_impl; [| exact Hs]. exact HP.
  - intros a Ha. subst r. exists w, w'. exact Hrun.
Qed.

Lemma emits_measure (P : event -> Prop) (samps : list complex) (freq : R) :
  P (Measured freq (measureToneLevel samps freq SAMPLE_RATE)) ->
  emits (D := D) P (fun _ => True) (measure samps freq).
Proof.
  intros He w. eexists. unfold measure. simpl. splits; eauto.
Qed.

End Emits.

Section EmitsSearch.

Context {D : Device}.

Variable fuel : nat.
Variable P : event -> Prop.

Hypothesis P_stream : forall e, is_stream e -> P e.
Hypothesis P_iq : forall d ch c, P (SetIQBalance d ch c).
Hypothesis P_dc_clamped :
  forall ch x y,
    P (SetDCOffset SOAPY_SDR_TX ch (Complex (dc_clamp x) (dc_clamp y))).
Hypothesis P_measured :
  forall samps ch f,
    @captured D fuel samps -> (ch < 2)%nat -> In f tone_freqs ->
    P (Measured f (measureToneLevel (nth ch samps []) f SAMPLE_RATE)).

Lemma channel_lt_2 (ch : nat) : In ch channels -> (ch < 2)%nat.
Proof. unfold channels. simpl. intros [<- | [<- | []]]; lia. Qed.

Lemma cordic_tone (ch : nat) :
  In ch channels -> In (TX_FREQ_DELTA - nth ch TX_CORDIC_FREQ 0) tone_freqs.
Proof.
  unfold channels, tone_freqs. simpl.
  intros [<- | [<- | []]]; simpl; auto.
Qed.

Ltac silent :=
  first [ apply emits_silent, getitem_silent
        | apply emits_silent, getlevel_silent
        | apply emits_silent, setitem_silent
        | apply emits_silent, setlevel_silent
        | apply emits_silent, copy_copy_silent ].

Lemma emits_rx_keep_best (best lv : ref) (new : list complex)
    (samps : list (list complex)) :
  @captured D fuel samps ->
  emits (D := D) P (fun _ => True) (rx_keep_best best lv new samps).
Proof.
  intros Hc. unfold rx_keep_best. apply emits_for_each. intros ch Hch.
  eapply emits_mbind.
  { apply emits_measure. apply P_measured; auto using channel_lt_2.
    unfold tone_freqs. simpl. auto. }
  intros lvl _. eapply emits_mbind; [silent |].
  intros b _. destruct (Rlt_dec lvl b).
  - eapply emits_mbind; [silent | intros; silent].
  - apply emits_mret. exact I.
Qed.

Lemma emits_rx_point (best lv iter : ref) (point : complex * complex) :
  emits (D := D) P (fun _ => True) (rx_point fuel best lv iter point).
Proof.
  unfold rx_point. eapply emits_mbind.
  { unfold rx_candidates. apply (emits_foldM P (fun _ => True)); [| exact I].
    intros new ch _ _. eapply emits_mbind; [silent |].
    intros b _. eapply emits_mbind; [apply emits_emit, P_iq |].
    intros. apply emits_mret. exact I. }
  intros new _. eapply emits_mbind; [apply emits_readSamps; exact P_stream |].
  intros samps Hc. apply emits_rx_keep_best. exact Hc.
Qed.

Lemma emits_rx_depth (best lv : ref) (depth : Z) :
  emits (D := D) P (fun _ => True) (rx_depth fuel best lv depth).
Proof.
  unfold rx_depth. eapply emits_mbind; [silent |].
  intros iter _. apply emits_for_each. intros pt _. apply emits_rx_point.
Qed.

Lemma emits_tx_keep_best (bIq lIq bDc lDc : ref) (newIq newDc : list complex)
    (samps : list (list complex)) :
  @captured D fuel samps ->
  emits (D := D) P (fun _ => True) (tx_keep_best bIq lIq bDc lDc newIq newDc samps).
Proof.
  intros Hc. unfold tx_keep_best. apply emits_for_each. intros ch Hch.
  eapply emits_mbind.
  { apply emits_measure. apply P_measured; auto using channel_lt_2, cordic_tone. }
  intros lvl _. eapply emits_mbind; [silent |].
  intros b _. eapply emits_mbind.
  { destruct (Rlt_dec lvl b).
    - eapply emits_mbind; [silent | intros; silent].
    - apply emits_mret. exact I. }
  intros _ _. eapply emits_mbind.
  { apply emits_measure. apply P_measured; auto using channel_lt_2.
    unfold tone_freqs. simpl. auto. }
  intros lvl' _. eapply emits_mbind; [silent |].
  intros b' _. destruct (Rlt_dec lvl' b').
  - eapply emits_mbind; [silent | intros; silent].
  - apply emits_mret. exact I.
Qed.

Lemma emits_tx_point (bIq lIq bDc lDc iIq iDc : ref)
    (point : complex * complex) :
  emits (D := D) P (fun _ => True) (tx_point fuel bIq lIq bDc lDc iIq iDc point).
Proof.
  unfold tx_point. eapply emits_mbind.
  { unfold tx_candidates. apply (emits_foldM P (fun _ => True)); [| exact I].
    intros new ch _ _. eapply emits_mbind; [silent |].
    intros bq _. eapply emits_mbind; [silent |].
    intros b1 _. eapply emits_mbind; [silent |].
    intros b2 _. eapply emits_mbind; [apply emits_emit, P_iq |].
    intros _ _. eapply emits_mbind; [apply emits_emit, P_dc_clamped |].
    intros. apply emits_mret. exact I. }
  intros new _. eapply emits_mbind; [apply emits_readSamps; exact P_stream |].
  intros samps Hc. apply emits_tx_keep_best. exact Hc.
Qed.

Lemma emits_tx_depth (bIq lIq bDc lDc : ref) (depth : Z) :
  emits (D := D) P (fun _ => True) (tx_depth fuel bIq lIq bDc lDc depth).
Proof.
  unfold tx_depth. eapply emits_mbind; [silent |].
  intros iIq _. eapply emits_mbind; [silent |].
  intros iDc _. apply emits_for_each. intros pt _. apply emits_tx_point.
Qed.

End EmitsSearch.

(* ================================================================== *)
(** * The Rx gain adjustment                                           *)
(* ================================================================== *)

Section RxGain.

Context {D : Device}.

(** The trace of the stage: PGA set to [PGA_GAIN] on both channels, one
    capture, then for each channel one measurement and one gain call. *)
Lemma adjust_rx_gain_spec (fuel : nat) (w : world D) :
  exists r w' evs,
    adjust_rx_gain fuel w = (r, w') /\
    trace w' = trace w ++ evs /\
    (acquires D fuel -> r = Returned tt) /\
    (r = Returned tt ->
     exists reads samps,
       @captured D fuel samps /\ Forall is_stream reads /\
       let lvl0 := measureToneLevel (nth 0 samps []) TX_FREQ_DELTA SAMPLE_RATE in
       let lvl1 := measureToneLevel (nth 1 samps []) TX_FREQ_DELTA SAMPLE_RATE in
       evs =
         [SetGain SOAPY_SDR_RX 0 "PGA" PGA_GAIN;
          SetGain SOAPY_SDR_RX 1 "PGA" PGA_GAIN]
         ++ reads ++
         [Measured TX_FREQ_DELTA lvl0;
          SetGain SOAPY_SDR_RX 0 "PGA" (Rmin 19 (PGA_GAIN + (-10 - lvl0)));
          Measured TX_FREQ_DELTA lvl1;
          SetGain SOAPY_SDR_RX 1 "PGA" (Rmin 19 (PGA_GAIN + (-10 - lvl1)))]).
Proof.
  unfold adjust_rx_gain.
  set (reset := [SetGain SOAPY_SDR_RX 0 "PGA" PGA_GAIN;
                 SetGain SOAPY_SDR_RX 1 "PGA" PGA_GAIN]).
  assert (Hreset : exists w1,
             for_each channels
               (fun ch => setGain SOAPY_SDR_RX ch "PGA" PGA_GAIN) w
             = (Returned tt, w1) /\ trace w1 = trace w ++ reset).
  { unfold for_each, channels. simpl foldM. unfold mbind, setGain, emit, mret.
    eexists. split; [reflexivity |]. simpl. rewrite <- app_assoc. reflexivity. }
  destruct Hreset as (w1 & Hrun1 & Ht1).
  rewrite (mbind_returned _ _ _ _ _ Hrun1).
  destruct (readSamps_spec fuel SAMPS_PER_CAPTURE w1)
    as (r2 & w2 & evs2 & Hrun2 & _ & _ & Ht2 & Hs2 & _).
  assert (Hacq2 : acquires D fuel -> r2 <> OutOfFuel /\ forall x, r2 <> Raised x).
  { intros Hacq. destruct (Hacq w1) as (s & w' & Hret).
    rewrite Hret in Hrun2. injection Hrun2 as <- _. split; intros; discriminate. }
  assert (Htr2 : trace w2 = trace w ++ reset ++ evs2).
  { rewrite Ht2, Ht1, <- app_assoc. reflexivity. }
  destruct r2 as [samps | x |];
    [ rewrite (mbind_returned _ _ _ _ _ Hrun2)
    | rewrite (mbind_raised _ _ _ _ _ Hrun2);
      exists (Raised x), w2, (reset ++ evs2); splits; auto; try discriminate;
      intros Hacq; destruct (Hacq2 Hacq) as [_ H]; destruct (H x eq_refl)
    | rewrite (mbind_out_of_fuel _ _ _ _ Hrun2);
      exists OutOfFuel, w2, (reset ++ evs2); splits; auto; try discriminate;
      intros Hacq; destruct (Hacq2 Hacq) as [H _]; destruct (H eq_refl) ].
  unfold for_each, channels. simpl foldM.
  unfold mbind, measure, setGain, emit, mret. simpl.
  eexists. eexists. eexists. split; [reflexivity |]. simpl.
  rewrite Htr2, !py_min_Rmin, <- !app_assoc. simpl.
  splits; auto.
  intros _. exists evs2, samps. splits; auto.
  exists w1, w2. exact Hrun2.
Qed.

End RxGain.

(* ================================================================== *)
(** * The devices                                                      *)
(* ================================================================== *)

Lemma sin_lower (x : R) : 1 / 5 <= x <= 1 -> 1 / 6 <= sin x.
Proof.
  intros [Hlo Hhi].
  pose proof PI2_3_2 as Hpi.
  destruct (sin_bound x 0 ltac:(lra) ltac:(lra)) as [Hlb _].
  unfold sin_approx, sin_term in Hlb. simpl in Hlb.
  nra.
Qed.

Lemma sin_lower_abs (x : R) : 1 / 5 <= Rabs x <= 1 -> 1 / 6 <= Rabs (sin x).
Proof.
  intros H. unfold Rabs in H. destruct (Rcase_abs x) as [Hneg | Hpos].
  - pose proof (sin_lower (- x) H) as Hs. rewrite sin_neg in Hs.
    unfold Rabs. destruct (Rcase_abs (sin x)); lra.
  - pose proof (sin_lower x H) as Hs.
    unfold Rabs. destruct (Rcase_abs (sin x)); lra.
Qed.

Lemma Csum_np_mul_zeros (k : nat) (l : list complex) :
  Csum (np_mul (repeat (Complex 0 0) k) l) = Complex 0 0.
Proof.
  revert l. induction k as [| k IH]; intros [| y l]; simpl; try reflexivity.
  change (Cadd (Cmul (Complex 0 0) y)
            (Csum (np_mul (repeat (Complex 0 0) k) l)) = Complex 0 0).
  rewrite IH. apply complex_eq; simpl; ring.
Qed.

Lemma length_np_mul (a b : list complex) :
  length (np_mul a b) = Nat.min (length a) (length b).
Proof.
  revert b. induction a as [| x a IH]; intros [| y b]; simpl; auto.
Qed.

Lemma Cabs_ge_imag (z : complex) : Rabs (imag z) <= Cabs z.
Proof.
  unfold Cabs. rewrite <- sqrt_Rsqr_abs. apply sqrt_le_1_alt. unfold Rsqr. nra.
Qed.

Lemma linspace_two_more (a b : R) (k : nat) :
  linspace a b (S (S k)) =
  map (fun i => a + INR i * ((b - a) / INR (S (S k) - 1)))
      (0%nat :: 1%nat :: seq 2 k).
Proof. reflexivity. Qed.

Lemma log10_10 : log10 10 = 1.
Proof. unfold log10. field. pose proof ln_10_pos. lra. Qed.

(** The level of the loud block, when the second point of the phase ramp
    is far enough from a multiple of pi. *)
Lemma tone_block_level (k : nat) (freq rate : R) :
  10 * INR (S (S k)) <=
    TONE_AMPLITUDE *
    Rabs (sin (INR (S (S k)) * (-2 * PI * freq / rate) / INR (S (S k) - 1))) ->
  1 <= measureToneLevel (tone_block (S (S k))) freq rate.
Proof.
  set (theta := INR (S (S k)) * (-2 * PI * freq / rate) / INR (S (S k) - 1)).
  intros Hbig.
  assert (Hn : 0 < INR (S (S k))) by (apply lt_0_INR; lia).
  unfold measureToneLevel.
  assert (Hlen : length (tone_block (S (S k))) = S (S k)).
  { simpl. rewrite repeat_length. reflexivity. }
  rewrite Hlen, linspace_two_more.
  set (step := -2 * PI * freq / rate) in *.
  set (N := INR (S (S k))) in *. set (N1 := INR (S (S k) - 1)) in *.
  rewrite !map_cons, !Cexp_j.
  set (rest := map _ (map _ (seq 2 k))).
  change (tone_block (S (S k))) with
    (of_float TONE_AMPLITUDE :: of_float (- TONE_AMPLITUDE)
       :: repeat (Complex 0 0) k).
  cbn [np_mul].
  replace (0 + INR 0 * ((N * step - 0) / N1)) with 0 by (simpl; ring).
  replace (0 + INR 1 * ((N * step - 0) / N1)) with theta
    by (unfold theta; simpl; unfold Rdiv; ring).
  rewrite cos_0, sin_0.
  set (m := np_mean _).
  assert (Him : imag m = - TONE_AMPLITUDE * sin theta / N).
  { unfold m, np_mean. cbn [length]. rewrite length_np_mul, repeat_length.
    unfold rest. rewrite !length_map, length_seq, Nat.min_id. fold N.
    cbn [Csum fold_right]. fold (Csum (np_mul (repeat (Complex 0 0) k) rest)).
    rewrite Csum_np_mul_zeros. unfold Cdiv_real, Cadd, Cmul, of_float.
    cbn [real imag]. field. lra. }
  pose proof (Cabs_ge_imag m) as Hge. rewrite Him in Hge.
  assert (H10 : 10 <= Cabs m).
  { eapply Rle_trans; [| exact Hge].
    unfold Rdiv. rewrite Rabs_mult, Rabs_mult, Rabs_Ropp.
    rewrite (Rabs_right TONE_AMPLITUDE) by (unfold TONE_AMPLITUDE; lra).
    rewrite (Rabs_right (/ N)) by (left; apply Rinv_0_lt_compat; exact Hn).
    apply Rmult_le_reg_r with N; [exact Hn |].
    rewrite Rmult_assoc, Rinv_l by lra. lra. }
  rewrite py_max_Rmax. rewrite Rmax_right by lra.
  destruct (Req_dec (Cabs m) 10) as [Heq | Hne].
  - rewrite Heq, log10_10. lra.
  - pose proof (log10_increasing 10 (Cabs m) ltac:(lra) ltac:(lra)) as Hl.
    rewrite log10_10 in Hl. lra.
Qed.

Lemma samps_per_capture_eq : SAMPS_PER_CAPTURE = S (S (1024 * 8 - 2)).
Proof. reflexivity. Qed.

(** At each of the measured tones the loud block is above 1 dB. *)
Lemma tone_capture_level (freq : R) :
  In freq tone_freqs ->
  1 <= measureToneLevel (tone_block SAMPS_PER_CAPTURE) freq SAMPLE_RATE.
Proof.
  intros Hin. rewrite samps_per_capture_eq. apply tone_block_level.
  replace (INR (S (S (1024 * 8 - 2)))) with 8192
    by (rewrite INR_IZR_INZ; reflexivity).
  replace (INR (S (S (1024 * 8 - 2)) - 1)) with 8191
    by (rewrite INR_IZR_INZ; reflexivity).
  pose proof PI2_3_2 as Hpi3. pose proof PI_4 as Hpi4.
  unfold tone_freqs, TX_FREQ_DELTA, TX_CORDIC_FREQ, SAMPLE_RATE in *.
  simpl in Hin.
  assert (Hs : forall x, 1 / 5 <= Rabs x <= 1 ->
                         10 * 8192 <= TONE_AMPLITUDE * Rabs (sin x)).
  { intros x Hx. pose proof (sin_lower_abs x Hx). unfold TONE_AMPLITUDE. lra. }
  apply Hs.
  unfold Rabs.
  destruct Hin as [<- | [<- | [<- | [<- | []]]]];
    match goal with |- context [Rcase_abs ?e] => destruct (Rcase_abs e) end; lra.
Qed.

Lemma length_tone_block (n : nat) : length (tone_block n) = n.
Proof.
  destruct n as [| [| k]]; simpl; try reflexivity.
  rewrite repeat_length. reflexivity.
Qed.

Lemma Csum_zeros (k : nat) : Csum (repeat (Complex 0 0) k) = Complex 0 0.
Proof.
  induction k as [| k IH]; [reflexivity |].
  change (Cadd (Complex 0 0) (Csum (repeat (Complex 0 0) k)) = Complex 0 0).
  rewrite IH. apply complex_eq; simpl; ring.
Qed.

Lemma Csum_tone_block (n : nat) : Csum (tone_block n) = Complex 0 0.
Proof.
  destruct n as [| [| k]]; try apply Csum_zeros.
  change (Cadd (of_float TONE_AMPLITUDE)
            (Cadd (of_float (- TONE_AMPLITUDE))
               (Csum (repeat (Complex 0 0) k))) = Complex 0 0).
  rewrite Csum_zeros. apply complex_eq; simpl; ring.
Qed.

(** The loud block has no DC to remove. *)
Lemma remove_dc_tone_block (n : nat) : remove_dc (tone_block n) = tone_block n.
Proof.
  unfold remove_dc, np_mean. rewrite Csum_tone_block.
  rewrite <- (map_id (tone_block n)) at 2.
  apply map_ext. intros s. unfold Csub, Cdiv_real. simpl.
  apply complex_eq; simpl; unfold Rdiv; ring.
Qed.

Lemma blit_all (buf data : list complex) :
  length data = length buf -> blit buf 0 data = data.
Proof.
  intros Hlen. unfold blit. simpl firstn. rewrite Nat.sub_0_r, <- Hlen.
  rewrite firstn_all. simpl (0 + _)%nat. rewrite Hlen, skipn_all, app_nil_r.
  reflexivity.
Qed.

Lemma blit_nothing (buf : list complex) : blit buf 0 [] = buf.
Proof. unfold blit. rewrite firstn_nil. reflexivity. Qed.

Lemma read_loop_done {D : Device} (fuel : nat) (rx0 rx1 : list complex)
    (pos : nat) (w : world D) :
  (length rx0 - pos = 0)%nat ->
  read_loop fuel rx0 rx1 pos w = (Returned (rx0, rx1), w).
Proof. intros H. destruct fuel; simpl; rewrite H; reflexivity. Qed.

Lemma block_delivers (block : nat -> list complex) :
  delivers (block_device block).
Proof. intros n st Hn. simpl. lia. Qed.

(** What a capture on a block device returns. *)
Lemma block_capture (block : nat -> list complex) (fuel n : nat)
    (w w' : world (block_device block)) (samps : list (list complex)) :
  (forall k, length (block k) = k) ->
  readSamps fuel n w = (Returned samps, w') ->
  samps = [remove_dc (block n); remove_dc (block n)].
Proof.
  intros Hblock.
  unfold readSamps, mbind at 1, activateStream, emit.
  set (w1 := {| hw := _; trace := _; clists := _; flists := _ |}).
  set (zeros := repeat (Complex 0 0) n).
  assert (Hz : length zeros = n) by apply repeat_length.
  assert (H0 : n = 0%nat -> zeros = block n).
  { intros ->. specialize (Hblock 0%nat).
    destruct (block 0%nat); [reflexivity | discriminate]. }
  assert (Hloop : forall ab w2,
             read_loop fuel zeros zeros 0 w1 = (Returned ab, w2) ->
             ab = (block n, block n)).
  { intros ab w2. destruct fuel as [| fuel]; simpl; rewrite Hz, Nat.sub_0_r.
    - destruct (n =? 0)%nat eqn:Hn0; [| discriminate].
      apply Nat.eqb_eq in Hn0. intros H. injection H as <- _.
      rewrite (H0 Hn0). reflexivity.
    - destruct (n =? 0)%nat eqn:Hn0.
      + apply Nat.eqb_eq in Hn0. intros H. injection H as <- _.
        rewrite (H0 Hn0). reflexivity.
      + unfold mbind, readStream. simpl.
        replace (Z.of_nat n <? 0)%Z with false by (symmetry; apply Z.ltb_ge; lia).
        rewrite !blit_all by (rewrite Hblock; lia).
        rewrite read_loop_done.
        * intros H. injection H as <- _. reflexivity.
        * rewrite Hblock. lia. }
  unfold mbind.
  destruct (read_loop fuel zeros zeros 0 w1) as [[ab | e |] w2] eqn:Hrun;
    try discriminate.
  rewrite (Hloop ab w2 eq_refl). simpl.
  intros H. injection H as <- _. reflexivity.
Qed.

Lemma loud_delivers : delivers loud_device.
Proof. apply block_delivers. Qed.

(** What a capture on the loud device returns. *)
Lemma loud_capture (fuel n : nat) (w w' : world loud_device)
    (samps : list (list complex)) :
  readSamps fuel n w = (Returned samps, w') ->
  samps = [tone_block n; tone_block n].
Proof.
  intros H. rewrite <- (remove_dc_tone_block n).
  exact (block_capture tone_block fuel n w w' samps length_tone_block H).
Qed.

Lemma loud_acquires (fuel : nat) :
  (SAMPS_PER_CAPTURE <= fuel)%nat -> acquires loud_device fuel.
Proof. apply delivers_acquires. exact loud_delivers. Qed.

(** Every level the calibration measures on the loud device is above 1 dB. *)
Lemma loud_levels (fuel : nat) (samps : list (list complex)) (ch : nat)
    (freq : R) :
  @captured loud_device fuel samps -> (ch < 2)%nat -> In freq tone_freqs ->
  1 <= measureToneLevel (nth ch samps []) freq SAMPLE_RATE.
Proof.
  intros (w & w' & Hcap) Hch Hf.
  rewrite (loud_capture _ _ _ _ _ Hcap).
  destruct ch as [| [| ch]]; [| | lia]; simpl nth;
    apply tone_capture_level; exact Hf.
Qed.

(** On the stalled device the read loop never ends, whatever the budget. *)
Lemma stalled_loop (fuel : nat) :
  forall (rx0 rx1 : list complex) (w : world stalled_device),
    (length rx0 <> 0)%nat ->
    fst (read_loop fuel rx0 rx1 0 w) = OutOfFuel.
Proof.
  induction fuel as [| fuel IH]; intros rx0 rx1 w Hlen; simpl;
    rewrite Nat.sub_0_r;
    destruct (length rx0 =? 0)%nat eqn:H0;
    try (apply Nat.eqb_eq in H0; contradiction); try reflexivity.
  unfold mbind, readStream. simpl.
  rewrite !blit_nothing. apply IH. exact Hlen.
Qed.

(* ================================================================== *)
(** * The trace of a stage                                             *)
(* ================================================================== *)

Lemma events_of_eq {D : Device} {A : Type} (m : M D A) (w : world D)
    (evs : list event) :
  trace (snd (m w)) = trace w ++ evs -> events_of m w = evs.
Proof.
  intros H. unfold events_of. rewrite H, skipn_app, skipn_all, Nat.sub_diag.
  reflexivity.
Qed.

Lemma events_of_run {D : Device} {A : Type} (m : M D A) (w w' : world D)
    (r : result A) (evs : list event) :
  m w = (r, w') -> trace w' = trace w ++ evs -> events_of m w = evs.
Proof. intros Hrun Ht. apply events_of_eq. rewrite Hrun. exact Ht. Qed.

Lemma dc_clamp_range (x : R) : -1 <= dc_clamp x <= 1.
Proof.
  unfold dc_clamp, py_max, py_min.
  destruct (Rlt_dec 1 x); destruct (Rlt_dec _ (-1)); lra.
Qed.

Lemma dc_clamp_fixed (x : R) : -1 <= x <= 1 -> dc_clamp x = x.
Proof.
  intros H. unfold dc_clamp, py_max, py_min.
  destruct (Rlt_dec 1 x); destruct (Rlt_dec _ (-1)); lra.
Qed.

Section Traces.

Context {D : Device}.

(** The test points of the Tx search only apply DC corrections in the box. *)
Lemma tx_depths_dc_in_box (fuel : nat) (bIq lIq bDc lDc : ref)
    (depths : list Z) :
  emits (D := D) dc_in_box (fun _ => True)
    (for_each depths (tx_depth fuel bIq lIq bDc lDc)).
Proof.
  apply emits_for_each. intros depth _.
  apply emits_tx_depth.
  - intros [] H; simpl in *; auto; contradiction.
  - intros; exact I.
  - intros ch x y. simpl. split; simpl; apply dc_clamp_range.
  - intros; exact I.
Qed.

Lemma from_capture_other (fuel : nat) (e : event) :
  (forall f lvl, e <> Measured f lvl) -> measured_from_capture D fuel e.
Proof. intros H. destruct e; simpl; auto. exfalso. eapply H. reflexivity. Qed.

Lemma rx_iq_search_from_capture (fuel : nat) :
  emits (D := D) (measured_from_capture D fuel) (fun _ => True) (rx_iq_search fuel).
Proof.
  assert (Hs : forall e, is_stream e -> measured_from_capture D fuel e).
  { intros [] H; simpl in *; auto; contradiction. }
  unfold rx_iq_search.
  eapply emits_mbind; [apply emits_readSamps; exact Hs |]. intros _ _.
  eapply emits_mbind; [apply emits_silent; reflexivity |]. intros best _.
  eapply emits_mbind; [apply emits_silent; reflexivity |]. intros lv _.
  eapply emits_mbind.
  { apply emits_for_each. intros depth _. apply emits_rx_depth.
    - exact Hs.
    - intros; exact I.
    - intros samps ch f Hc Hch Hf. exists samps, ch. auto. }
  intros _ _. eapply emits_mbind.
  { apply emits_for_each. intros ch _.
    eapply emits_mbind; [apply emits_silent, getitem_silent |].
    intros c _. apply emits_emit. exact I. }
  intros _ _. eapply emits_mbind; [apply emits_readSamps; exact Hs |].
  intros. apply emits_mret. exact I.
Qed.

Lemma tx_iq_dc_search_from_capture (fuel : nat) :
  emits (D := D) (measured_from_capture D fuel) (fun _ => True) (tx_iq_dc_search fuel).
Proof.
  assert (Hs : forall e, is_stream e -> measured_from_capture D fuel e).
  { intros [] H; simpl in *; auto; contradiction. }
  unfold tx_iq_dc_search.
  eapply emits_mbind.
  { apply emits_for_each. intros ch _. apply emits_emit. exact I. }
  intros _ _.
  eapply emits_mbind; [apply emits_readSamps; exact Hs |]. intros _ _.
  eapply emits_mbind; [apply emits_silent; reflexivity |]. intros bIq _.
  eapply emits_mbind; [apply emits_silent; reflexivity |]. intros lIq _.
  eapply emits_mbind; [apply emits_silent; reflexivity |]. intros bDc _.
  eapply emits_mbind; [apply emits_silent; reflexivity |]. intros lDc _.
  eapply emits_mbind.
  { apply emits_for_each. intros depth _. apply emits_tx_depth.
    - exact Hs.
    - intros; exact I.
    - intros; exact I.
    - intros samps ch f Hc Hch Hf. exists samps, ch. auto. }
  intros _ _. eapply emits_mbind.
  { apply emits_for_each. intros ch _.
    eapply emits_mbind; [apply emits_silent, getitem_silent |].
    intros cIq _. eapply emits_mbind; [apply emits_emit; exact I |].
    intros _ _. eapply emits_mbind; [apply emits_silent, getitem_silent |].
    intros cDc _. apply emits_emit. exact I. }
  intros _ _. eapply emits_mbind; [apply emits_readSamps; exact Hs |].
  intros. apply emits_mret. exact I.
Qed.

End Traces.

(* ================================================================== *)
(** * A depth of the Rx search on the quiet device                     *)
(* ================================================================== *)

Lemma remove_dc_zeros (n : nat) :
  remove_dc (repeat (Complex 0 0) n) = repeat (Complex 0 0) n.
Proof.
  unfold remove_dc, np_mean. rewrite Csum_zeros.
  rewrite <- (map_id (repeat (Complex 0 0) n)) at 2.
  apply map_ext_in. intros s Hs. apply repeat_spec in Hs. subst s.
  unfold Csub, Cdiv_real. apply complex_eq; simpl; unfold Rdiv; ring.
Qed.

(** Silence measures -400 dB at every frequency. *)
Lemma measureToneLevel_zeros (n : nat) (freq rate : R) :
  measureToneLevel (repeat (Complex 0 0) n) freq rate = -400.
Proof.
  unfold measureToneLevel, np_mean. rewrite Csum_np_mul_zeros.
  unfold Cdiv_real, Cabs. simpl real. simpl imag.
  replace (0 / _ * (0 / _) + 0 / _ * (0 / _)) with 0 by (unfold Rdiv; ring).
  rewrite sqrt_0. unfold py_max.
  destruct (Rlt_dec 1e-20 0) as [H | _]; [lra |].
  rewrite log10_tiny. lra.
Qed.

Lemma quiet_delivers : delivers quiet_device.
Proof. apply block_delivers. Qed.

Lemma quiet_capture (fuel n : nat) (w w' : world quiet_device)
    (samps : list (list complex)) :
  readSamps fuel n w = (Returned samps, w') ->
  samps = [repeat (Complex 0 0) n; repeat (Complex 0 0) n].
Proof.
  intros H. rewrite <- (remove_dc_zeros n).
  apply (block_capture (repeat (Complex 0 0)) fuel n w w' samps); [| exact H].
  intros k. apply repeat_length.
Qed.

(** One Rx test point on the quiet device: both channels measure -400 dB. *)
Lemma quiet_rx_point (best lv iter : ref) (point : complex * complex)
    (w : world quiet_device) (c0 c1 b0 b1 : complex) (l0 l1 : R) :
  iter <> best ->
  store_get (clists w) iter = Some [c0; c1] ->
  store_get (clists w) best = Some [b0; b1] ->
  store_get (flists w) lv = Some [l0; l1] ->
  exists w',
    rx_point SAMPS_PER_CAPTURE best lv iter point w = (Returned tt, w') /\
    store_get (clists w') iter = Some [c0; c1] /\
    store_get (clists w') best =
      Some [better (-400) l0 (composed (snd point) c0) b0;
            better (-400) l1 (composed (snd point) c1) b1] /\
    store_get (flists w') lv = Some [lower (-400) l0; lower (-400) l1].
Proof.
  intros Hne Hc Hb Hl. unfold rx_point.
  destruct (rx_candidates_run iter (snd point) w c0 c1 Hc)
    as (w1 & Hrun1 & Hc1 & Hf1 & _).
  rewrite (mbind_returned _ _ _ _ _ Hrun1).
  destruct (readSamps_returns SAMPS_PER_CAPTURE SAMPS_PER_CAPTURE w1
              quiet_delivers (Nat.le_refl _)) as (samps & w2 & Hrun2).
  rewrite (mbind_returned _ _ _ _ _ Hrun2).
  pose proof (quiet_capture _ _ _ _ _ Hrun2) as Hs.
  destruct (readSamps_spec SAMPS_PER_CAPTURE SAMPS_PER_CAPTURE w1)
    as (r & w2' & evs & Hrun2' & Hc2 & Hf2 & _).
  rewrite Hrun2 in Hrun2'. injection Hrun2' as _ <-.
  rewrite <- Hc1, <- Hc2 in Hb, Hc. rewrite <- Hf1, <- Hf2 in Hl.
  destruct (rx_keep_best_run best lv (composed (snd point) c0)
              (composed (snd point) c1) samps w2 b0 b1 l0 l1 Hb Hl)
    as (w3 & Hrun3 & _ & _ & Hc3 & Hf3).
  rewrite Hs in Hc3, Hf3. cbn [nth] in Hc3, Hf3.
  rewrite !measureToneLevel_zeros in Hc3, Hf3.
  exists w3. split; [exact Hrun3 |].
  rewrite Hc3, Hf3. splits.
  - rewrite store_get_set_neq by congruence. exact Hc.
  - eapply store_get_set_eq; eauto.
  - eapply store_get_set_eq; eauto.
Qed.

(** Once both best levels are at -400 dB, no test point changes the bests. *)
Lemma quiet_rx_points_settled (best lv iter : ref) (c0 c1 : complex) :
  iter <> best ->
  forall (points : list (complex * complex)) (w : world quiet_device)
         (b0 b1 : complex),
    store_get (clists w) iter = Some [c0; c1] ->
    store_get (clists w) best = Some [b0; b1] ->
    store_get (flists w) lv = Some [-400; -400] ->
    exists w',
      for_each points (rx_point SAMPS_PER_CAPTURE best lv iter) w
        = (Returned tt, w') /\
      store_get (clists w') best = Some [b0; b1].
Proof.
  intros Hne. induction points as [| p points IH]; intros w b0 b1 Hc Hb Hl.
  - exists w. split; [reflexivity | exact Hb].
  - destruct (quiet_rx_point best lv iter p w c0 c1 b0 b1 (-400) (-400)
                Hne Hc Hb Hl) as (w1 & Hrun1 & Hc1 & Hb1 & Hl1).
    unfold for_each. simpl foldM.
    rewrite (mbind_returned _ _ _ _ _ Hrun1).
    unfold better, lower in Hb1, Hl1.
    destruct (Rlt_dec (-400) (-400)) as [H | _]; [lra |].
    apply (IH w1 b0 b1 Hc1 Hb1 Hl1).
Qed.

(** A depth of the Rx search on the quiet device, begun with both best
    levels at 1.0: the first test point replaces both bests, and they then
    stay for the rest of the depth. *)
Lemma quiet_rx_depth_moves_best (best lv : ref) (depth : Z)
    (w : world quiet_device) (b0 b1 : complex)
    (p : complex * complex) (points : list (complex * complex)) :
  GenerateTestPoints depth = p :: points ->
  store_get (clists w) best = Some [b0; b1] ->
  store_get (flists w) lv = Some [1; 1] ->
  exists w',
    rx_depth SAMPS_PER_CAPTURE best lv depth w = (Returned tt, w') /\
    store_get (clists w') best
      = Some [composed (snd p) b0; composed (snd p) b1].
Proof.
  intros Hpts Hb Hl. unfold rx_depth.
  destruct (copy_copy_run best w [b0; b1] Hb)
    as (w1 & Hrun1 & _ & Hf1 & Hnew & Hold).
  rewrite (mbind_returned _ _ _ _ _ Hrun1), Hpts.
  assert (Hne : length (clists w) <> best).
  { apply store_get_valid in Hb. lia. }
  rewrite <- Hf1 in Hl.
  destruct (quiet_rx_point best lv (length (clists w)) p w1 b0 b1 b0 b1 1 1
              Hne Hnew (Hold _ _ Hb) Hl) as (w2 & Hrun2 & Hc2 & Hb2 & Hl2).
  unfold for_each. simpl foldM.
  rewrite (mbind_returned _ _ _ _ _ Hrun2).
  unfold better, lower in Hb2, Hl2.
  destruct (Rlt_dec (-400) 1) as [_ | H]; [| lra].
  apply (quiet_rx_points_settled best lv (length (clists w)) b0 b1 Hne
           points w2 _ _ Hc2 Hb2 Hl2).
Qed.

(** The first IQ test point of depth 2 is not the number one. *)
Lemma first_iq_point_of_depth_2 :
  exists p points,
    GenerateTestPoints 2 = p :: points /\
    composed (snd p) (of_float 1) <> of_float 1.
Proof.
  unfold GenerateTestPoints. rewrite dcPoints_grid, iqPoints_grid.
  cbv zeta. cbn [combine].
  eexists. eexists. split; [reflexivity |].
  cbn [snd]. unfold composed. rewrite rect_product.
  intros Heq. apply (f_equal imag) in Heq.
  unfold Cmul, rect, of_float in Heq. cbn [real imag] in Heq.
  rewrite Rmult_0_r, Rplus_0_l, Rmult_1_r, sin_neg in Heq.
  pose proof (pow2_float_pos (- gainMax 2)) as Hpos.
  pose proof (scale_pos 2) as Hs0.
  pose proof (scale_quarter 2 (Z.le_refl 2)) as Hs4.
  pose proof PI2_RGT_0 as Hpi.
  assert (Hsin : 0 < sin (phaseMax 2)).
  { unfold phaseMax. apply sin_gt_0; nra. }
  nra.
Qed.

(* ================================================================== *)
(** * The whole calibration returns                                    *)
(* ================================================================== *)

Lemma emit_returns {D : Device} (e : event)
    (f : dev_state D -> dev_state D) (w : world D) :
  exists w', emit e f w = (Returned tt, w').
Proof. unfold emit. eexists. reflexivity. Qed.

Lemma then_returns {D : Device} (m : M D unit) (k : unit -> M D unit)
    (w : world D) :
  (forall w0, exists w', m w0 = (Returned tt, w')) ->
  (forall w0, exists w', k tt w0 = (Returned tt, w')) ->
  exists w', mbind m k w = (Returned tt, w').
Proof.
  intros Hm Hk. destruct (Hm w) as (w1 & H1).
  rewrite (mbind_returned _ _ _ _ _ H1). apply Hk.
Qed.

Lemma for_each_returns {D : Device} {A : Type} (l : list A)
    (body : A -> M D unit) :
  (forall a w0, exists w', body a w0 = (Returned tt, w')) ->
  forall w, exists w', for_each l body w = (Returned tt, w').
Proof.
  intros Hb. unfold for_each. induction l as [| a l IH]; intros w; simpl.
  - exists w. reflexivity.
  - apply then_returns; [apply Hb | exact IH].
Qed.

Lemma prepare_returns {D : Device} (freq : R) (w : world D) :
  exists w', prepare freq w = (Returned tt, w').
Proof.
  unfold prepare.
  apply then_returns; [intros w0; apply emit_returns | intros w0].
  apply then_returns; [intros w1; apply emit_returns | intros w1].
  apply for_each_returns. intros channel w2.
  apply then_returns; [intros w3; apply emit_returns | intros w3].
  apply then_returns; [intros w4; apply emit_returns | intros w4].
  apply then_returns; [intros w5; apply emit_returns | intros w5].
  apply then_returns; [intros w6; apply emit_returns | intros w6].
  apply emit_returns.
Qed.

(** When every capture returns, so does the calibration: no list access is
    out of range and nothing else raises. *)
Lemma CalibrateAtFreq_returns {D : Device} (fuel : nat) (freq : R)
    (w : world D) :
  acquires D fuel -> fst (CalibrateAtFreq fuel freq w) = Returned tt.
Proof.
  intros Hacq. unfold CalibrateAtFreq.
  destruct (prepare_returns freq w) as (w1 & Hrun1).
  rewrite (mbind_returned _ _ _ _ _ Hrun1).
  destruct (adjust_rx_gain_spec fuel w1) as (r2 & w2 & _ & Hrun2 & _ & Hr2 & _).
  rewrite (Hr2 Hacq) in Hrun2. rewrite (mbind_returned _ _ _ _ _ Hrun2).
  destruct (rx_iq_search_spec fuel w2) as (r3 & w3 & _ & Hrun3 & _ & Hr3 & _).
  rewrite (Hr3 Hacq) in Hrun3. rewrite (mbind_returned _ _ _ _ _ Hrun3).
  destruct (tx_iq_dc_search_spec fuel w3) as (r4 & w4 & _ & Hrun4 & _ & Hr4 & _).
  rewrite (Hr4 Hacq) in Hrun4. rewrite Hrun4. reflexivity.
Qed.

(* ================================================================== *)
(** * The reads of a capture, one by one                               *)
(* ================================================================== *)

Section Content.

Context {D : Device}.

Lemma read_loop_run (fuel : nat) :
  forall (rx0 rx1 : list complex) (pos : nat) (w : world D),
  exists r w' reads,
    read_loop fuel rx0 rx1 pos w = (r, w') /\
    trace w' = trace w ++ reads /\
    clists w' = clists w /\ flists w' = flists w /\
    (length reads <= fuel)%nat /\
    reads = answered (requests reads)
                     (stream_replay D (hw w) (requests reads)) /\
    match r with
    | Returned ab =>
        missing_after (length rx0 - pos) reads = Some 0%nat /\
        ab = collected rx0 rx1 pos
               (stream_replay D (hw w) (requests reads))
    | Raised x =>
        exists pre n s,
          reads = pre ++ [ReadStream n s] /\
          missing_after (length rx0 - pos) pre = Some n /\
          (0 < n)%nat /\ (s < 0)%Z /\ x = StreamError s
    | OutOfFuel =>
        exists k, missing_after (length rx0 - pos) reads = Some k /\
                  (0 < k)%nat /\ length reads = fuel
    end.
Proof.
  induction fuel as [| fuel IH]; intros rx0 rx1 pos w; simpl.
  - destruct (length rx0 - pos =? 0)%nat eqn:Hsize.
    + apply Nat.eqb_eq in Hsize.
      exists (Returned (rx0, rx1)), w, []. rewrite app_nil_r, Hsize.
      repeat split; auto.
    + apply Nat.eqb_neq in Hsize.
      exists OutOfFuel, w, []. rewrite app_nil_r.
      repeat split; auto.
      exists (length rx0 - pos)%nat. repeat split; auto. lia.
  - destruct (length rx0 - pos =? 0)%nat eqn:Hsize.
    + apply Nat.eqb_eq in Hsize.
      exists (Returned (rx0, rx1)), w, []. rewrite app_nil_r, Hsize.
      repeat split; auto. simpl. lia.
    + apply Nat.eqb_neq in Hsize.
      unfold mbind at 1, readStream at 1.
      destruct (dev_readStream D (length rx0 - pos) (hw w)) as [sr h] eqn:Hread.
      set (size := (length rx0 - pos)%nat) in *.
      set (w1 := {| hw := h;
                    trace := trace w ++ [ReadStream size (ret sr)];
                    clists := clists w; flists := flists w |}).
      assert (Hans : forall reads',
                 reads' = answered (requests reads')
                            (stream_replay D h (requests reads')) ->
                 ReadStream size (ret sr) :: reads'
                 = answered (requests (ReadStream size (ret sr) :: reads'))
                     (stream_replay D (hw w)
                        (requests (ReadStream size (ret sr) :: reads')))).
      { intros reads' H. cbn [requests flat_map app stream_replay].
        rewrite Hread. fold (requests reads').
        unfold answered. cbn [combine map fst snd]. f_equal. exact H. }
      destruct (ret sr <? 0)%Z eqn:Hneg.
      * apply Z.ltb_lt in Hneg.
        exists (Raised (StreamError (ret sr))), w1, [ReadStream size (ret sr)].
        split; [reflexivity |]. split; [reflexivity |].
        split; [reflexivity |]. split; [reflexivity |].
        split; [simpl; lia |].
        split; [apply (Hans []); reflexivity |].
        exists [], size, (ret sr). repeat split; auto. lia.
      * apply Z.ltb_ge in Hneg.
        destruct (IH (blit rx0 pos (chan0 sr)) (blit rx1 pos (chan1 sr))
                     (pos + Nat.min (Z.to_nat (ret sr)) size)%nat w1)
          as (r & w' & reads & Hrun & Ht & Hc & Hf & Hlen & Hreads & Hr).
        rewrite length_blit in Hr.
        replace (length rx0 - (pos + Nat.min (Z.to_nat (ret sr)) size))%nat
          with (size - Z.to_nat (ret sr))%nat in Hr by (unfold size; lia).
        assert (Hstep : forall l k,
                   missing_after (size - Z.to_nat (ret sr)) l = Some k ->
                   missing_after size (ReadStream size (ret sr) :: l) = Some k).
        { intros l k Hk. simpl. rewrite Nat.eqb_refl. simpl.
          replace (0 <? size)%nat with true by (symmetry; apply Nat.ltb_lt; lia).
          replace (0 <=? ret sr)%Z with true by (symmetry; apply Z.leb_le; exact Hneg).
          exact Hk. }
        exists r, w', (ReadStream size (ret sr) :: reads).
        rewrite Hrun, Ht. simpl trace. rewrite <- app_assoc.
        split; [reflexivity |]. split; [reflexivity |].
        split; [exact Hc |]. split; [exact Hf |].
        split; [simpl; lia |].
        split; [apply Hans; exact Hreads |].
        destruct r as [ab | x |].
        -- destruct Hr as [Hm Hab]. split; [apply Hstep; exact Hm |].
           cbn [requests flat_map app stream_replay]. rewrite Hread.
           fold (requests reads). cbn [collected]. exact Hab.
        -- destruct Hr as (pre & n & s & -> & Hpre & Hn & Hs & ->).
           exists (ReadStream size (ret sr) :: pre), n, s.
           split; [reflexivity |]. split; [apply Hstep; exact Hpre |].
           repeat split; auto.
        -- destruct Hr as (k & Hk & Hpos & Hl).
           exists k. split; [apply Hstep; exact Hk |].
           split; [exact Hpos | simpl; lia].
Qed.

Lemma length_collected (srs : list StreamResult) :
  forall rx0 rx1 pos,
    length (fst (collected rx0 rx1 pos srs)) = length rx0 /\
    length (snd (collected rx0 rx1 pos srs)) = length rx1.
Proof.
  induction srs as [| sr srs IH]; intros rx0 rx1 pos; simpl; [auto |].
  destruct (IH (blit rx0 pos (chan0 sr)) (blit rx1 pos (chan1 sr))
              (pos + Nat.min (Z.to_nat (ret sr)) (length rx0 - pos))%nat)
    as [H0 H1].
  rewrite !length_blit in *. auto.
Qed.

Lemma readSamps_run (fuel numSamps : nat) (w : world D) :
  let zeros := repeat (Complex 0 0) numSamps in
  exists r w' reads,
    readSamps fuel numSamps w = (r, w') /\
    trace w' = trace w ++ ActivateStream numSamps :: reads /\
    clists w' = clists w /\ flists w' = flists w /\
    (length reads <= fuel)%nat /\
    reads = answered (requests reads)
              (stream_replay D (dev_activateStream D numSamps (hw w))
                 (requests reads)) /\
    match r with
    | Returned samps =>
        missing_after numSamps reads = Some 0%nat /\
        let ab := collected zeros zeros 0
                    (stream_replay D (dev_activateStream D numSamps (hw w))
                       (requests reads)) in
        samps = [remove_dc (fst ab); remove_dc (snd ab)]
    | Raised x =>
        exists pre n s,
          reads = pre ++ [ReadStream n s] /\
          missing_after numSamps pre = Some n /\
          (0 < n)%nat /\ (s < 0)%Z /\ x = StreamError s
    | OutOfFuel =>
        exists k, missing_after numSamps reads = Some k /\
                  (0 < k)%nat /\ length reads = fuel
    end.
Proof.
  intros zeros.
  unfold readSamps, mbind at 1, activateStream, emit. fold zeros.
  set (w1 := {| hw := dev_activateStream D numSamps (hw w);
                trace := trace w ++ [ActivateStream numSamps];
                clists := clists w; flists := flists w |}).
  destruct (read_loop_run fuel zeros zeros 0 w1)
    as (r & w' & reads & Hrun & Ht & Hc & Hf & Hlen & Hreads & Hr).
  replace (length zeros - 0)%nat with numSamps in Hr
    by (unfold zeros; rewrite repeat_length; lia).
  assert (Htr : trace w' = trace w ++ ActivateStream numSamps :: reads).
  { rewrite Ht. simpl trace. rewrite <- app_assoc. reflexivity. }
  unfold mbind. rewrite Hrun.
  destruct r as [ab | x |]; eexists; eexists; exists reads;
    (split; [reflexivity |]); repeat split; auto.
  - apply Hr.
  - destruct Hr as [_ ->]. reflexivity.
Qed.

End Content.

Lemma answered_reads (reqs : list nat) (srs : list StreamResult) :
  Forall is_read (answered reqs srs).
Proof.
  unfold answered. apply Forall_forall. intros e Hin.
  apply in_map_iff in Hin as (p & <- & _). exact I.
Qed.

Lemma missing_after_nonneg (reads : list event) :
  forall missing k,
    missing_after missing reads = Some k -> reads_nonneg reads.
Proof.
  induction reads as [| e reads IH]; intros missing k H n s Hin;
    [destruct Hin |].
  destruct e; simpl in H; try discriminate.
  destruct ((numElems =? missing)%nat && (0 <? missing)%nat) eqn:E1;
    simpl in H; [| discriminate].
  destruct (0 <=? status)%Z eqn:E2; [| discriminate].
  destruct Hin as [Heq | Hin].
  - injection Heq as _ <-. apply Z.leb_le. exact E2.
  - exact (IH _ _ H n s Hin).
Qed.

Lemma reads_nonneg_not_failed (reads : list event) :
  reads_nonneg reads -> ~ read_failed reads.
Proof. intros Hnn (n & s & Hin & Hs). pose proof (Hnn n s Hin). lia. Qed.

(** ** Partial reads *)

Lemma blit_chunk (acc c : list complex) (k pos : nat) :
  pos = length acc -> (length c <= k)%nat ->
  blit (acc ++ repeat (Complex 0 0) k) pos c
  = (acc ++ c) ++ repeat (Complex 0 0) (k - length c).
Proof.
  intros -> Hc. unfold blit.
  rewrite firstn_app, firstn_all, Nat.sub_diag, firstn_0, app_nil_r.
  rewrite length_app, repeat_length.
  replace (length acc + k - length acc)%nat with k by lia.
  rewrite firstn_all2 by exact Hc.
  rewrite skipn_app, skipn_all2 by lia.
  replace (length acc + length c - length acc)%nat with (length c) by lia.
  replace k with (length c + (k - length c))%nat at 1 by lia.
  rewrite repeat_app, skipn_app, repeat_length, skipn_all2
    by (rewrite repeat_length; lia).
  rewrite Nat.sub_diag, skipn_O. simpl. rewrite <- app_assoc. reflexivity.
Qed.

Lemma length_concat_fst_snd (chunks : list (list complex * list complex)) :
  Forall same_length chunks ->
  length (concat (map fst chunks)) = length (concat (map snd chunks)).
Proof.
  induction 1 as [| c chunks Hc _ IH]; simpl; [reflexivity |].
  rewrite !length_app, IH, Hc. reflexivity.
Qed.

Lemma read_loop_scripted (chunks : list (list complex * list complex)) :
  Forall same_length chunks ->
  forall (fuel : nat) (acc0 acc1 : list complex) (w : world scripted_device),
    length acc0 = length acc1 ->
    hw w = chunks ->
    (length chunks <= fuel)%nat ->
    let k := length (concat (map fst chunks)) in
    exists w',
      read_loop fuel (acc0 ++ repeat (Complex 0 0) k)
                     (acc1 ++ repeat (Complex 0 0) k) (length acc0) w
      = (Returned (acc0 ++ concat (map fst chunks),
                   acc1 ++ concat (map snd chunks)), w').
Proof.
  induction 1 as [| [c0 c1] chunks Hc Hall IH];
    intros fuel acc0 acc1 w Hacc Hw Hfuel k.
  - subst k. simpl. rewrite !app_nil_r.
    exists w. apply read_loop_done. lia.
  - pose proof (length_concat_fst_snd _ (Forall_cons _ Hc Hall)) as Hsame.
    unfold same_length in Hc. simpl in Hc.
    destruct (Nat.eq_dec k 0) as [Hk0 | Hk0].
    + (* nothing to collect: every chunk is empty *)
      fold k in Hsame. rewrite Hk0 in Hsame.
      assert (E0 : concat (map fst ((c0, c1) :: chunks)) = [])
        by (apply length_zero_iff_nil; exact Hk0).
      assert (E1 : concat (map snd ((c0, c1) :: chunks)) = [])
        by (apply length_zero_iff_nil; symmetry; exact Hsame).
      rewrite E0, E1, Hk0. simpl repeat. rewrite !app_nil_r.
      exists w. apply read_loop_done. lia.
    + destruct fuel as [| fuel]; [simpl in Hfuel; lia |].
      assert (Hk : k = (length c0 + length (concat (map fst chunks)))%nat).
      { subst k. simpl. rewrite length_app. reflexivity. }
      set (k' := length (concat (map fst chunks))) in *.
      cbn [read_loop].
      rewrite length_app, repeat_length.
      replace (length acc0 + k - length acc0)%nat with k by lia.
      replace (k =? 0)%nat with false by (symmetry; apply Nat.eqb_neq; exact Hk0).
      unfold mbind at 1, readStream at 1. rewrite Hw. cbn [dev_readStream scripted_device].
      cbn [ret chan0 chan1].
      replace (Z.of_nat (length c0) <? 0)%Z with false
        by (symmetry; apply Z.ltb_ge; lia).
      rewrite Nat2Z.id.
      rewrite (blit_chunk acc0 c0 k (length acc0)) by lia.
      rewrite (blit_chunk acc1 c1 k (length acc0)) by lia.
      replace (k - length c0)%nat with k' by lia.
      replace (k - length c1)%nat with k' by lia.
      replace (length acc0 + Nat.min (length c0) k)%nat
        with (length (acc0 ++ c0)) by (rewrite length_app; lia).
      match goal with |- context [read_loop fuel _ _ _ ?w1] =>
        destruct (IH fuel (acc0 ++ c0) (acc1 ++ c1) w1) as (w' & Hrun)
      end.
      * rewrite !length_app. lia.
      * reflexivity.
      * simpl in Hfuel. lia.
      * exists w'. rewrite Hrun. simpl. rewrite <- !app_assoc. reflexivity.
Qed.

(* ================================================================== *)
(** * The loops follow their relations                                 *)
(* ================================================================== *)

Section Semantics.

Context {D : Device}.

(** The loop of the monad follows the relation. *)
Lemma for_each_steps {X S : Type} (St : world D -> S -> Prop)
    (step : X -> S -> list event -> result unit -> S -> Prop)
    (body : X -> M D unit) (l : list X) :
  (forall x w s, In x l -> St w s ->
     exists r w' evs s',
       body x w = (r, w') /\ trace w' = trace w ++ evs /\ St w' s' /\
       step x s evs r s') ->
  forall w s, St w s ->
    exists r w' evs s',
      for_each l body w = (r, w') /\ trace w' = trace w ++ evs /\ St w' s' /\
      steps step l s evs r s'.
Proof.
  unfold for_each. induction l as [| x l IH]; intros Hbody w s HSt.
  - exists (Returned tt), w, [], s. rewrite app_nil_r.
    repeat split; auto. constructor.
  - destruct (Hbody x w s (or_introl eq_refl) HSt)
      as (r1 & w1 & evs1 & s1 & Hrun1 & Ht1 & HSt1 & Hstep1).
    simpl foldM.
    destruct r1 as [[] | e |].
    + rewrite (mbind_returned _ _ _ _ _ Hrun1).
      destruct (IH (fun x' w' s' Hx => Hbody x' w' s' (or_intror Hx)) w1 s1 HSt1)
        as (r & w' & evs & s' & Hrun & Ht & HSt' & Hsteps).
      exists r, w', (evs1 ++ evs), s'.
      repeat split; auto.
      * rewrite Ht, Ht1, <- app_assoc. reflexivity.
      * eapply steps_next; eauto.
    + rewrite (mbind_raised _ _ _ _ _ Hrun1).
      exists (Raised e), w1, evs1, s1. repeat split; auto.
      apply steps_stop; [exact Hstep1 | discriminate].
    + rewrite (mbind_out_of_fuel _ _ _ _ Hrun1).
      exists OutOfFuel, w1, evs1, s1. repeat split; auto.
      apply steps_stop; [exact Hstep1 | discriminate].
Qed.

Lemma mbind_returned_inv {A B : Type} (m : M D A) (k : A -> M D B)
    (w w' : world D) (b : B) :
  mbind m k w = (Returned b, w') ->
  exists a w1, m w = (Returned a, w1) /\ k a w1 = (Returned b, w').
Proof.
  unfold mbind. destruct (m w) as [[a | x |] w1]; intros H;
    try discriminate. exists a, w1. auto.
Qed.

Lemma capture_run (fuel : nat) (w : world D) :
  exists r w' cevs,
    readSamps fuel SAMPS_PER_CAPTURE w = (r, w') /\
    trace w' = trace w ++ cevs /\
    clists w' = clists w /\ flists w' = flists w /\
    capture_ends cevs r.
Proof.
  destruct (readSamps_run fuel SAMPS_PER_CAPTURE w)
    as (r & w' & reads & Hrun & Ht & Hc & Hf & _ & Hreads & Hr).
  exists r, w', (ActivateStream SAMPS_PER_CAPTURE :: reads).
  repeat split; auto.
  - exists reads. split; [reflexivity |]. rewrite Hreads. apply answered_reads.
  - intros x ->. destruct Hr as (pre & n & s & -> & _ & _ & Hs & ->).
    exists (ActivateStream SAMPS_PER_CAPTURE :: pre), n, s. auto.
Qed.

Lemma rx_point_sound (fuel : nat) (best lv iter : ref)
    (c : complex * complex) (p : complex * complex) (w : world D)
    (s : rx_state) :
  iter <> best ->
  holds (clists w) iter c -> rx_stored best lv w s ->
  exists r w' evs s',
    rx_point fuel best lv iter p w = (r, w') /\
    trace w' = trace w ++ evs /\
    (holds (clists w') iter c /\ rx_stored best lv w' s') /\
    rx_point_sem c p s evs r s'.
Proof.
  destruct c as [c0 c1], s as [[b0 b1] [l0 l1]].
  unfold rx_stored, holds. simpl. intros Hne Hc [Hb Hl].
  unfold rx_point.
  destruct (rx_candidates_run iter (snd p) w c0 c1 Hc)
    as (w1 & Hrun1 & Hc1 & Hf1 & Ht1).
  rewrite (mbind_returned _ _ _ _ _ Hrun1).
  destruct (capture_run fuel w1) as (r2 & w2 & cevs & Hrun2 & Ht2 & Hc2 & Hf2 & Hcap).
  assert (Hstop : forall r : result unit,
             capture_ends cevs r -> r <> Returned tt ->
             exists r' w' evs s',
               (r, w2) = (r', w') /\
               trace w' = trace w ++ evs /\
               ((store_get (clists w') iter = Some [c0; c1]) /\
                (store_get (clists w') best = Some [fst (fst s'); snd (fst s')] /\
                 store_get (flists w') lv = Some [fst (snd s'); snd (snd s')])) /\
               rx_point_sem (c0, c1) p (b0, b1, (l0, l1)) evs r' s').
  { intros r Hr Hnot.
    exists r, w2, (rx_applied c0 c1 p ++ cevs), (b0, b1, (l0, l1)).
    rewrite Ht2, Ht1, Hc2, Hc1, Hf2, Hf1, <- app_assoc. simpl.
    repeat split; auto.
    apply (rx_point_stopped (c0, c1) p _ cevs r Hr Hnot). }
  destruct r2 as [samps | e |].
  - rewrite (mbind_returned _ _ _ _ _ Hrun2).
    rewrite <- Hc1, <- Hc2 in Hb. rewrite <- Hf1, <- Hf2 in Hl.
    destruct (rx_keep_best_run best lv (composed (snd p) c0)
                (composed (snd p) c1) samps w2 b0 b1 l0 l1 Hb Hl)
      as (w3 & Hrun3 & _ & Ht3 & Hc3 & Hf3).
    rewrite Hrun3.
    exists (Returned tt), w3, (rx_applied c0 c1 p ++ cevs ++ rx_levels samps),
      (rx_update (c0, c1) p samps (b0, b1, (l0, l1))).
    split; [reflexivity |].
    split; [rewrite Ht3, Ht2, Ht1, <- !app_assoc; reflexivity |].
    split.
    + split.
      * rewrite Hc3, store_get_set_neq by congruence. rewrite Hc2, Hc1. exact Hc.
      * split; [rewrite Hc3 | rewrite Hf3]; eapply store_get_set_eq; eauto.
    + apply (rx_point_measured (c0, c1) p _ cevs samps Hcap).
  - rewrite (mbind_raised _ _ _ _ _ Hrun2). apply Hstop; [| discriminate].
    destruct Hcap as [Hev Hx]. split; [exact Hev |].
    intros x Heq. injection Heq as <-. apply Hx. reflexivity.
  - rewrite (mbind_out_of_fuel _ _ _ _ Hrun2). apply Hstop; [| discriminate].
    destruct Hcap as [Hev Hx]. split; [exact Hev |]. intros x Heq. discriminate.
Qed.

Lemma rx_depth_sound (fuel : nat) (best lv : ref) (depth : Z) (w : world D)
    (s : rx_state) :
  rx_stored best lv w s ->
  exists r w' evs s',
    rx_depth fuel best lv depth w = (r, w') /\
    trace w' = trace w ++ evs /\ rx_stored best lv w' s' /\
    rx_depth_sem depth s evs r s'.
Proof.
  intros [Hb Hl]. unfold rx_depth.
  destruct (copy_copy_run best w _ Hb) as (w1 & Hrun1 & Ht1 & Hf1 & Hnew & Hold).
  rewrite (mbind_returned _ _ _ _ _ Hrun1).
  assert (Hne : length (clists w) <> best).
  { apply store_get_valid in Hb. lia. }
  set (iter := length (clists w)) in *.
  destruct (for_each_steps
              (fun w0 s0 => holds (clists w0) iter (fst s) /\ rx_stored best lv w0 s0)
              (rx_point_sem (fst s))
              (rx_point fuel best lv iter) (GenerateTestPoints depth))
    with (w := w1) (s := s)
    as (r & w' & evs & s' & Hrun & Ht & [_ HSt] & Hsteps).
  - intros p w0 s0 _ [Hc0 HSt0].
    apply (rx_point_sound fuel best lv iter (fst s) p w0 s0 Hne Hc0 HSt0).
  - split; [exact Hnew |]. split; [apply Hold; exact Hb |].
    unfold holds. rewrite Hf1. exact Hl.
  - exists r, w', evs, s'. rewrite <- Ht1. repeat split; auto; apply HSt.
Qed.

Lemma rx_depths_sound (fuel : nat) (best lv : ref) (depths : list Z)
    (w : world D) (s : rx_state) :
  rx_stored best lv w s ->
  exists r w' evs s',
    for_each depths (rx_depth fuel best lv) w = (r, w') /\
    trace w' = trace w ++ evs /\ rx_stored best lv w' s' /\
    steps rx_depth_sem depths s evs r s'.
Proof.
  apply for_each_steps. intros d w0 s0 _ HSt.
  apply rx_depth_sound. exact HSt.
Qed.

Lemma tx_point_sound (fuel : nat) (bIq lIq bDc lDc iIq iDc : ref)
    (ci cd : complex * complex) (p : complex * complex) (w : world D)
    (s : tx_state) :
  bIq <> bDc -> lIq <> lDc ->
  iIq <> bIq -> iIq <> bDc -> iDc <> bIq -> iDc <> bDc ->
  holds (clists w) iIq ci -> holds (clists w) iDc cd ->
  tx_stored bIq lIq bDc lDc w s ->
  exists r w' evs s',
    tx_point fuel bIq lIq bDc lDc iIq iDc p w = (r, w') /\
    trace w' = trace w ++ evs /\
    ((holds (clists w') iIq ci /\ holds (clists w') iDc cd) /\
     tx_stored bIq lIq bDc lDc w' s') /\
    tx_point_sem ci cd p s evs r s'.
Proof.
  intros Hnc Hnf Hn1 Hn2 Hn3 Hn4 Hci Hcd [[Hq Ha] [Hd He]].
  destruct p as [dcPoint iqPoint].
  destruct ci as [i0 i1], cd as [j0 j1], s as [[[q0 q1] [a0 a1]] [[d0 d1] [e0 e1]]].
  unfold tx_stored, holds in *. simpl fst in *. simpl snd in *.
  unfold tx_point. simpl fst. simpl snd.
  destruct (tx_candidates_run iIq iDc dcPoint iqPoint w i0 i1 j0 j1 Hci Hcd)
    as (w1 & Hrun1 & Hc1 & Hf1 & Ht1).
  rewrite (mbind_returned _ _ _ _ _ Hrun1). simpl fst. simpl snd.
  set (applied := tx_applied i0 i1 j0 j1 (dcPoint, iqPoint)) in *.
  set (s0 := (q0, q1, (a0, a1), (d0, d1, (e0, e1))) : tx_state).
  destruct (capture_run fuel w1)
    as (r2 & w2 & cevs & Hrun2 & Ht2 & Hc2 & Hf2 & Hcap).
  assert (Hstop : forall r : result unit,
             capture_ends cevs r -> r <> Returned tt ->
             exists r' w' evs s',
               (r, w2) = (r', w') /\
               trace w' = trace w ++ evs /\
               ((store_get (clists w') iIq = Some [i0; i1] /\
                 store_get (clists w') iDc = Some [j0; j1]) /\
                ((store_get (clists w') bIq
                    = Some [fst (fst (fst s')); snd (fst (fst s'))] /\
                  store_get (flists w') lIq
                    = Some [fst (snd (fst s')); snd (snd (fst s'))]) /\
                 (store_get (clists w') bDc
                    = Some [fst (fst (snd s')); snd (fst (snd s'))] /\
                  store_get (flists w') lDc
                    = Some [fst (snd (snd s')); snd (snd (snd s'))]))) /\
               tx_point_sem (i0, i1) (j0, j1) (dcPoint, iqPoint) s0 evs r' s').
  { intros r Hr Hnot.
    exists r, w2, (applied ++ cevs), s0.
    rewrite Ht2, Ht1, Hc2, Hc1, Hf2, Hf1, <- app_assoc. simpl.
    repeat split; auto.
    apply (tx_point_stopped (i0, i1) (j0, j1) (dcPoint, iqPoint) s0 cevs r Hr Hnot). }
  destruct r2 as [samps | x |].
  - rewrite (mbind_returned _ _ _ _ _ Hrun2).
    rewrite <- Hc1, <- Hc2 in Hq, Hd, Hci, Hcd. rewrite <- Hf1, <- Hf2 in Ha, He.
    destruct (tx_keep_best_run bIq lIq bDc lDc
                (composed iqPoint i0) (composed iqPoint i1)
                (shifted dcPoint j0) (shifted dcPoint j1)
                samps w2 q0 q1 d0 d1 a0 a1 e0 e1 Hnc Hnf Hq Hd Ha He)
      as (w3 & Hrun3 & _ & Ht3 & Hq3 & Hd3 & Ha3 & He3 & Hframe).
    rewrite Hrun3.
    exists (Returned tt), w3, (applied ++ cevs ++ tx_levels samps),
      (tx_update (i0, i1) (j0, j1) (dcPoint, iqPoint) samps s0).
    split; [reflexivity |].
    split; [rewrite Ht3, Ht2, Ht1, <- !app_assoc; reflexivity |].
    split.
    + simpl. repeat split; auto.
    + apply (tx_point_measured (i0, i1) (j0, j1) (dcPoint, iqPoint) s0 cevs samps Hcap).
  - rewrite (mbind_raised _ _ _ _ _ Hrun2). apply Hstop; [| discriminate].
    destruct Hcap as [Hev Hx]. split; [exact Hev |].
    intros y Heq. injection Heq as <-. apply Hx. reflexivity.
  - rewrite (mbind_out_of_fuel _ _ _ _ Hrun2). apply Hstop; [| discriminate].
    destruct Hcap as [Hev Hx]. split; [exact Hev |]. intros y Heq. discriminate.
Qed.

Lemma tx_depth_sound (fuel : nat) (bIq lIq bDc lDc : ref) (depth : Z)
    (w : world D) (s : tx_state) :
  bIq <> bDc -> lIq <> lDc ->
  tx_stored bIq lIq bDc lDc w s ->
  exists r w' evs s',
    tx_depth fuel bIq lIq bDc lDc depth w = (r, w') /\
    trace w' = trace w ++ evs /\ tx_stored bIq lIq bDc lDc w' s' /\
    tx_depth_sem depth s evs r s'.
Proof.
  intros Hnc Hnf [[Hq Ha] [Hd He]]. unfold tx_depth.
  destruct (copy_copy_run bIq w _ Hq) as (w1 & Hrun1 & Ht1 & Hf1 & Hnew1 & Hold1).
  rewrite (mbind_returned _ _ _ _ _ Hrun1).
  pose proof (Hold1 _ _ Hd) as Hd1.
  destruct (copy_copy_run bDc w1 _ Hd1) as (w2 & Hrun2 & Ht2 & Hf2 & Hnew2 & Hold2).
  rewrite (mbind_returned _ _ _ _ _ Hrun2).
  pose proof (store_get_valid _ _ _ Hq) as Vq.
  pose proof (store_get_valid _ _ _ Hd) as Vd.
  pose proof (store_get_valid _ _ _ (Hold1 _ _ Hq)) as Vq1.
  pose proof (store_get_valid _ _ _ Hd1) as Vd1.
  set (iIq := length (clists w)) in *. set (iDc := length (clists w1)) in *.
  destruct (for_each_steps
              (fun w0 s0 =>
                 (holds (clists w0) iIq (fst (fst s)) /\
                  holds (clists w0) iDc (fst (snd s))) /\
                 tx_stored bIq lIq bDc lDc w0 s0)
              (tx_point_sem (fst (fst s)) (fst (snd s)))
              (tx_point fuel bIq lIq bDc lDc iIq iDc) (GenerateTestPoints depth))
    with (w := w2) (s := s)
    as (r & w' & evs & s' & Hrun & Ht & [_ HSt] & Hsteps).
  - intros p w0 s0 _ [[Hc0 Hc1] HSt0].
    apply (tx_point_sound fuel bIq lIq bDc lDc iIq iDc (fst (fst s)) (fst (snd s))
             p w0 s0 Hnc Hnf); auto; lia.
  - unfold tx_stored, holds in *. rewrite Hf2, Hf1.
    repeat split; auto.
  - exists r, w', evs, s'. rewrite <- Ht1, <- Ht2. repeat split; auto; apply HSt.
Qed.

Lemma tx_depths_sound (fuel : nat) (bIq lIq bDc lDc : ref) (depths : list Z)
    (w : world D) (s : tx_state) :
  bIq <> bDc -> lIq <> lDc ->
  tx_stored bIq lIq bDc lDc w s ->
  exists r w' evs s',
    for_each depths (tx_depth fuel bIq lIq bDc lDc) w = (r, w') /\
    trace w' = trace w ++ evs /\ tx_stored bIq lIq bDc lDc w' s' /\
    steps tx_depth_sem depths s evs r s'.
Proof.
  intros Hnc Hnf. apply for_each_steps. intros d w0 s0 _ HSt.
  apply tx_depth_sound; assumption.
Qed.

End Semantics.

(* ================================================================== *)
(** * What a test point records                                        *)
(* ================================================================== *)

Lemma recorded_or_kept_run (m l : R) (n b : complex) :
  l <= 1 ->
  recorded_or_kept m l n b (better m l n b) (lower m l) /\ lower m l <= 1.
Proof.
  intros Hl. unfold recorded_or_kept, better, lower.
  destruct (Rlt_dec m l) as [H | H].
  - split; [left; repeat split; lra | lra].
  - split; [right; repeat split; lra | lra].
Qed.

Section Records.

Context {D : Device}.

Lemma rx_point_records (fuel : nat) (best lv iter : ref)
    (c p : complex * complex) (w : world D) (s : rx_state) :
  iter <> best ->
  holds (clists w) iter c -> rx_stored best lv w s -> rx_below_one s ->
  exists r w' evs s',
    rx_point fuel best lv iter p w = (r, w') /\
    trace w' = trace w ++ evs /\
    (holds (clists w') iter c /\ rx_stored best lv w' s' /\ rx_below_one s') /\
    rx_point_outcome D fuel c p s evs r s'.
Proof.
  destruct c as [c0 c1], s as [[b0 b1] [l0 l1]].
  unfold rx_stored, rx_below_one, holds. simpl.
  intros Hne Hc [Hb Hl] [Hl0 Hl1].
  unfold rx_point.
  destruct (rx_candidates_run iter (snd p) w c0 c1 Hc)
    as (w1 & Hrun1 & Hc1 & Hf1 & Ht1).
  rewrite (mbind_returned _ _ _ _ _ Hrun1).
  destruct (readSamps_spec fuel SAMPS_PER_CAPTURE w1)
    as (r2 & w2 & cevs & Hrun2 & Hc2 & Hf2 & Ht2 & Hs2 & _).
  assert (Hstop : forall r : result unit,
             (forall u, r <> Returned u) ->
             exists r' w' evs s',
               (r, w2) = (r', w') /\
               trace w' = trace w ++ evs /\
               (store_get (clists w') iter = Some [c0; c1] /\
                (store_get (clists w') best
                   = Some [fst (fst s'); snd (fst s')] /\
                 store_get (flists w') lv
                   = Some [fst (snd s'); snd (snd s')]) /\
                (fst (snd s') <= 1 /\ snd (snd s') <= 1)) /\
               rx_point_outcome D fuel (c0, c1) p (b0, b1, (l0, l1))
                 evs r' s').
  { intros r Hnot.
    exists r, w2, (rx_applied c0 c1 p ++ cevs), (b0, b1, (l0, l1)).
    rewrite Ht2, Ht1, Hc2, Hc1, Hf2, Hf1, <- app_assoc. simpl.
    repeat split; auto.
    destruct r as [u | x |]; [destruct (Hnot u eq_refl) | |]; reflexivity. }
  destruct r2 as [samps | x |].
  - rewrite (mbind_returned _ _ _ _ _ Hrun2).
    rewrite <- Hc1, <- Hc2 in Hb. rewrite <- Hf1, <- Hf2 in Hl.
    destruct (rx_keep_best_run best lv (composed (snd p) c0)
                (composed (snd p) c1) samps w2 b0 b1 l0 l1 Hb Hl)
      as (w3 & Hrun3 & _ & Ht3 & Hc3 & Hf3).
    rewrite Hrun3.
    destruct (recorded_or_kept_run (rx_level samps 0) l0
                (composed (snd p) c0) b0 Hl0) as [Hr0 Hle0].
    destruct (recorded_or_kept_run (rx_level samps 1) l1
                (composed (snd p) c1) b1 Hl1) as [Hr1 Hle1].
    exists (Returned tt), w3, (rx_applied c0 c1 p ++ cevs ++ rx_levels samps),
      (rx_update (c0, c1) p samps (b0, b1, (l0, l1))).
    split; [reflexivity |].
    split; [rewrite Ht3, Ht2, Ht1, <- !app_assoc; reflexivity |].
    split.
    + split.
      * rewrite Hc3, store_get_set_neq by congruence. rewrite Hc2, Hc1. exact Hc.
      * split.
        -- split; [rewrite Hc3 | rewrite Hf3]; eapply store_get_set_eq; eauto.
        -- split; [exact Hle0 | exact Hle1].
    + simpl. split; [split; assumption |].
      exists cevs, samps. split; [exists w1, w2; exact Hrun2 |].
      split; [exact Hs2 |]. split; [reflexivity |].
      split; [exact Hr0 | exact Hr1].
  - rewrite (mbind_raised _ _ _ _ _ Hrun2). apply Hstop. intros u; discriminate.
  - rewrite (mbind_out_of_fuel _ _ _ _ Hrun2). apply Hstop.
    intros u; discriminate.
Qed.

Lemma rx_depth_records (fuel : nat) (best lv : ref) (depth : Z) (w : world D)
    (s : rx_state) :
  rx_stored best lv w s /\ rx_below_one s ->
  exists r w' evs s',
    rx_depth fuel best lv depth w = (r, w') /\
    trace w' = trace w ++ evs /\
    (rx_stored best lv w' s' /\ rx_below_one s') /\
    rx_depth_outcome D fuel depth s evs r s'.
Proof.
  intros [[Hb Hl] Hle]. unfold rx_depth.
  destruct (copy_copy_run best w _ Hb) as (w1 & Hrun1 & Ht1 & Hf1 & Hnew & Hold).
  rewrite (mbind_returned _ _ _ _ _ Hrun1).
  assert (Hne : length (clists w) <> best).
  { apply store_get_valid in Hb. lia. }
  set (iter := length (clists w)) in *.
  destruct (for_each_steps
              (fun (w0 : world D) s0 => holds (clists w0) iter (fst s) /\
                            rx_stored best lv w0 s0 /\ rx_below_one s0)
              (rx_point_outcome D fuel (fst s))
              (rx_point fuel best lv iter) (GenerateTestPoints depth))
    with (w := w1) (s := s)
    as (r & w' & evs & s' & Hrun & Ht & (_ & HSt & Hle') & Hsteps).
  - intros p w0 s0 _ (Hc0 & HSt0 & Hle0).
    apply (rx_point_records fuel best lv iter (fst s) p w0 s0 Hne Hc0 HSt0 Hle0).
  - split; [exact Hnew |]. split; [| exact Hle].
    split; [apply Hold; exact Hb |]. unfold holds. rewrite Hf1. exact Hl.
  - exists r, w', evs, s'. rewrite <- Ht1. repeat split; auto; apply HSt || apply Hle'.
Qed.

Lemma rx_depths_records (fuel : nat) (best lv : ref) (depths : list Z)
    (w : world D) (s : rx_state) :
  rx_stored best lv w s /\ rx_below_one s ->
  exists r w' evs s',
    for_each depths (rx_depth fuel best lv) w = (r, w') /\
    trace w' = trace w ++ evs /\
    (rx_stored best lv w' s' /\ rx_below_one s') /\
    steps (rx_depth_outcome D fuel) depths s evs r s'.
Proof.
  apply (for_each_steps
           (fun (w0 : world D) s0 => rx_stored best lv w0 s0 /\ rx_below_one s0)).
  intros d w0 s0 _ HSt. apply rx_depth_records. exact HSt.
Qed.

Lemma tx_point_records (fuel : nat) (bIq lIq bDc lDc iIq iDc : ref)
    (ci cd : complex * complex) (p : complex * complex) (w : world D)
    (s : tx_state) :
  bIq <> bDc -> lIq <> lDc ->
  iIq <> bIq -> iIq <> bDc -> iDc <> bIq -> iDc <> bDc ->
  holds (clists w) iIq ci -> holds (clists w) iDc cd ->
  tx_stored bIq lIq bDc lDc w s -> tx_below_one s ->
  exists r w' evs s',
    tx_point fuel bIq lIq bDc lDc iIq iDc p w = (r, w') /\
    trace w' = trace w ++ evs /\
    ((holds (clists w') iIq ci /\ holds (clists w') iDc cd) /\
     tx_stored bIq lIq bDc lDc w' s' /\ tx_below_one s') /\
    tx_point_outcome D fuel ci cd p s evs r s'.
Proof.
  intros Hnc Hnf Hn1 Hn2 Hn3 Hn4 Hci Hcd [[Hq Ha] [Hd He]] [[Ha0 Ha1] [He0 He1]].
  destruct p as [dcPoint iqPoint].
  destruct ci as [i0 i1], cd as [j0 j1], s as [[[q0 q1] [a0 a1]] [[d0 d1] [e0 e1]]].
  unfold tx_stored, tx_below_one, holds in *. simpl fst in *. simpl snd in *.
  unfold tx_point. simpl fst. simpl snd.
  destruct (tx_candidates_run iIq iDc dcPoint iqPoint w i0 i1 j0 j1 Hci Hcd)
    as (w1 & Hrun1 & Hc1 & Hf1 & Ht1).
  rewrite (mbind_returned _ _ _ _ _ Hrun1). simpl fst. simpl snd.
  set (applied := tx_applied i0 i1 j0 j1 (dcPoint, iqPoint)) in *.
  set (s0 := (q0, q1, (a0, a1), (d0, d1, (e0, e1))) : tx_state).
  destruct (readSamps_spec fuel SAMPS_PER_CAPTURE w1)
    as (r2 & w2 & cevs & Hrun2 & Hc2 & Hf2 & Ht2 & Hs2 & _).
  assert (Hstop : forall r : result unit,
             (forall u, r <> Returned u) ->
             exists r' w' evs s',
               (r, w2) = (r', w') /\
               trace w' = trace w ++ evs /\
               ((store_get (clists w') iIq = Some [i0; i1] /\
                 store_get (clists w') iDc = Some [j0; j1]) /\
                ((store_get (clists w') bIq
                    = Some [fst (fst (fst s')); snd (fst (fst s'))] /\
                  store_get (flists w') lIq
                    = Some [fst (snd (fst s')); snd (snd (fst s'))]) /\
                 (store_get (clists w') bDc
                    = Some [fst (fst (snd s')); snd (fst (snd s'))] /\
                  store_get (flists w') lDc
                    = Some [fst (snd (snd s')); snd (snd (snd s'))])) /\
                ((fst (snd (fst s')) <= 1 /\ snd (snd (fst s')) <= 1) /\
                 (fst (snd (snd s')) <= 1 /\ snd (snd (snd s')) <= 1))) /\
               tx_point_outcome D fuel (i0, i1) (j0, j1) (dcPoint, iqPoint)
                 s0 evs r' s').
  { intros r Hnot.
    exists r, w2, (applied ++ cevs), s0.
    rewrite Ht2, Ht1, Hc2, Hc1, Hf2, Hf1, <- app_assoc. simpl.
    repeat split; auto.
    destruct r as [u | x |]; [destruct (Hnot u eq_refl) | |]; reflexivity. }
  destruct r2 as [samps | x |].
  - rewrite (mbind_returned _ _ _ _ _ Hrun2).
    rewrite <- Hc1, <- Hc2 in Hq, Hd, Hci, Hcd. rewrite <- Hf1, <- Hf2 in Ha, He.
    destruct (tx_keep_best_run bIq lIq bDc lDc
                (composed iqPoint i0) (composed iqPoint i1)
                (shifted dcPoint j0) (shifted dcPoint j1)
                samps w2 q0 q1 d0 d1 a0 a1 e0 e1 Hnc Hnf Hq Hd Ha He)
      as (w3 & Hrun3 & _ & Ht3 & Hq3 & Hd3 & Ha3 & He3 & Hframe).
    rewrite Hrun3.
    destruct (recorded_or_kept_run (tx_iq_level samps 0) a0
                (composed iqPoint i0) q0 Ha0) as [Hrq0 Hlq0].
    destruct (recorded_or_kept_run (tx_iq_level samps 1) a1
                (composed iqPoint i1) q1 Ha1) as [Hrq1 Hlq1].
    destruct (recorded_or_kept_run (tx_dc_level samps 0) e0
                (shifted dcPoint j0) d0 He0) as [Hrd0 Hld0].
    destruct (recorded_or_kept_run (tx_dc_level samps 1) e1
                (shifted dcPoint j1) d1 He1) as [Hrd1 Hld1].
    exists (Returned tt), w3, (applied ++ cevs ++ tx_levels samps),
      (tx_update (i0, i1) (j0, j1) (dcPoint, iqPoint) samps s0).
    split; [reflexivity |].
    split; [rewrite Ht3, Ht2, Ht1, <- !app_assoc; reflexivity |].
    split.
    + simpl. repeat split; auto.
    + simpl. split; [repeat split; assumption |].
      exists cevs, samps. split; [exists w1, w2; exact Hrun2 |].
      split; [exact Hs2 |]. split; [reflexivity |].
      repeat split; assumption.
  - rewrite (mbind_raised _ _ _ _ _ Hrun2). apply Hstop. intros u; discriminate.
  - rewrite (mbind_out_of_fuel _ _ _ _ Hrun2). apply Hstop.
    intros u; discriminate.
Qed.

Lemma tx_depth_records (fuel : nat) (bIq lIq bDc lDc : ref) (depth : Z)
    (w : world D) (s : tx_state) :
  bIq <> bDc -> lIq <> lDc ->
  tx_stored bIq lIq bDc lDc w s /\ tx_below_one s ->
  exists r w' evs s',
    tx_depth fuel bIq lIq bDc lDc depth w = (r, w') /\
    trace w' = trace w ++ evs /\
    (tx_stored bIq lIq bDc lDc w' s' /\ tx_below_one s') /\
    tx_depth_outcome D fuel depth s evs r s'.
Proof.
  intros Hnc Hnf [[[Hq Ha] [Hd He]] Hle]. unfold tx_depth.
  destruct (copy_copy_run bIq w _ Hq) as (w1 & Hrun1 & Ht1 & Hf1 & Hnew1 & Hold1).
  rewrite (mbind_returned _ _ _ _ _ Hrun1).
  pose proof (Hold1 _ _ Hd) as Hd1.
  destruct (copy_copy_run bDc w1 _ Hd1) as (w2 & Hrun2 & Ht2 & Hf2 & Hnew2 & Hold2).
  rewrite (mbind_returned _ _ _ _ _ Hrun2).
  pose proof (store_get_valid _ _ _ Hq) as Vq.
  pose proof (store_get_valid _ _ _ Hd) as Vd.
  pose proof (store_get_valid _ _ _ (Hold1 _ _ Hq)) as Vq1.
  pose proof (store_get_valid _ _ _ Hd1) as Vd1.
  set (iIq := length (clists w)) in *. set (iDc := length (clists w1)) in *.
  destruct (for_each_steps
              (fun (w0 : world D) s0 =>
                 (holds (clists w0) iIq (fst (fst s)) /\
                  holds (clists w0) iDc (fst (snd s))) /\
                 tx_stored bIq lIq bDc lDc w0 s0 /\ tx_below_one s0)
              (tx_point_outcome D fuel (fst (fst s)) (fst (snd s)))
              (tx_point fuel bIq lIq bDc lDc iIq iDc) (GenerateTestPoints depth))
    with (w := w2) (s := s)
    as (r & w' & evs & s' & Hrun & Ht & (_ & HSt & Hle') & Hsteps).
  - intros p w0 s0 _ ([Hc0 Hc1] & HSt0 & Hle0).
    apply (tx_point_records fuel bIq lIq bDc lDc iIq iDc (fst (fst s))
             (fst (snd s)) p w0 s0 Hnc Hnf); auto; lia.
  - unfold tx_stored, holds in *. rewrite Hf2, Hf1.
    repeat split; auto; apply Hle.
  - exists r, w', evs, s'. rewrite <- Ht1, <- Ht2.
    repeat split; auto; apply HSt || apply Hle'.
Qed.

Lemma tx_depths_records (fuel : nat) (bIq lIq bDc lDc : ref)
    (depths : list Z) (w : world D) (s : tx_state) :
  bIq <> bDc -> lIq <> lDc ->
  tx_stored bIq lIq bDc lDc w s /\ tx_below_one s ->
  exists r w' evs s',
    for_each depths (tx_depth fuel bIq lIq bDc lDc) w = (r, w') /\
    trace w' = trace w ++ evs /\
    (tx_stored bIq lIq bDc lDc w' s' /\ tx_below_one s') /\
    steps (tx_depth_outcome D fuel) depths s evs r s'.
Proof.
  intros Hnc Hnf.
  apply (for_each_steps
           (fun (w0 : world D) s0 =>
              tx_stored bIq lIq bDc lDc w0 s0 /\ tx_below_one s0)).
  intros d w0 s0 _ HSt. apply tx_depth_records; assumption.
Qed.

(** The Rx stage when it returns: the first capture, the search, the calls
    that apply the final bests, and the last capture. *)
Lemma rx_iq_search_records (fuel : nat) (w w' : world D) :
  rx_iq_search fuel w = (Returned tt, w') ->
  exists init search post c0 c1 l0 l1,
    trace w' = trace w ++ (init ++ search)
                 ++ [SetIQBalance SOAPY_SDR_RX 0 c0;
                     SetIQBalance SOAPY_SDR_RX 1 c1] ++ post /\
    Forall is_stream init /\ Forall is_stream post /\
    steps (rx_depth_outcome D fuel) MAX_SEARCH_DEPTHS
          ((of_float 1, of_float 1), (1, 1)) search (Returned tt)
          ((c0, c1), (l0, l1)) /\
    progress (of_float 1) 1 c0 l0 search /\
    progress (of_float 1) 1 c1 l1 search.
Proof.
  unfold rx_iq_search. intros H.
  apply mbind_returned_inv in H as (samps0 & w0 & Hrun0 & H).
  apply mbind_returned_inv in H as (best & w1 & Hrun1 & H).
  apply mbind_returned_inv in H as (lv & w2 & Hrun2 & H).
  apply mbind_returned_inv in H as ([] & w3 & Hrun3 & H).
  apply mbind_returned_inv in H as ([] & w4 & Hrun4 & H).
  apply mbind_returned_inv in H as (samps5 & w5 & Hrun5 & H).
  unfold mret in H. injection H as <-.
  destruct (readSamps_spec fuel SAMPS_PER_CAPTURE w)
    as (r0 & w0' & evs0 & Hrun0' & _ & _ & Ht0 & Hs0 & _).
  rewrite Hrun0 in Hrun0'. injection Hrun0' as <- <-.
  destruct (new_clist_run [of_float 1; of_float 1] w0)
    as (w1' & Hrun1' & Ht1 & Hf1 & Hb1 & _).
  rewrite Hrun1 in Hrun1'. injection Hrun1' as -> <-.
  destruct (new_flist_run [1; 1] w1) as (w2' & Hrun2' & Ht2 & Hc2 & Hl2 & _).
  rewrite Hrun2 in Hrun2'. injection Hrun2' as -> <-.
  rewrite <- Hc2 in Hb1.
  set (best := length (clists w0)) in *.
  set (lv := length (flists w1)) in *.
  destruct (rx_depths_records fuel best lv MAX_SEARCH_DEPTHS w2
              ((of_float 1, of_float 1), (1, 1)))
    as (r3 & w3' & search & [[c0 c1] [l0 l1]] & Hrun3' & Ht3 & [[Hb3 Hl3] _]
        & Hsteps).
  { split; [split; assumption | split; simpl; lra]. }
  rewrite Hrun3 in Hrun3'. injection Hrun3' as <- <-.
  destruct (rx_depths_spec fuel best lv MAX_SEARCH_DEPTHS w2
              (of_float 1) (of_float 1) 1 1 Hb1 Hl2)
    as (r3 & w3' & evs3 & c0' & c1' & l0' & l1' & Hrun3' & Ht3' & Hb3' & Hl3'
        & Hp0 & Hp1 & _).
  rewrite Hrun3 in Hrun3'. injection Hrun3' as <- <-.
  rewrite Ht3 in Ht3'. apply app_inv_head in Ht3'. subst evs3.
  unfold holds in Hb3, Hl3. simpl in Hb3, Hl3.
  rewrite Hb3 in Hb3'. injection Hb3' as <- <-.
  rewrite Hl3 in Hl3'. injection Hl3' as <- <-.
  destruct (rx_apply_best_run best w3 c0 c1 Hb3) as (w4' & Hrun4' & Ht4).
  rewrite Hrun4 in Hrun4'. injection Hrun4' as <-.
  destruct (readSamps_spec fuel SAMPS_PER_CAPTURE w4)
    as (r5 & w5' & evs5 & Hrun5' & _ & _ & Ht5 & Hs5 & _).
  rewrite Hrun5 in Hrun5'. injection Hrun5' as <- <-.
  exists evs0, search, evs5, c0, c1, l0, l1.
  split; [rewrite Ht5, Ht4, Ht3, Ht2, Ht1, Ht0, <- !app_assoc; reflexivity |].
  splits; assumption.
Qed.

(** The Tx stage when it returns. *)
Lemma tx_iq_dc_search_records (fuel : nat) (w w' : world D) :
  tx_iq_dc_search fuel w = (Returned tt, w') ->
  exists init search post q d a e,
    trace w' = trace w ++
      ([SetFrequency SOAPY_SDR_TX 0 "BB" (nth 0 TX_CORDIC_FREQ 0);
        SetFrequency SOAPY_SDR_TX 1 "BB" (nth 1 TX_CORDIC_FREQ 0)]
       ++ init ++ search)
      ++ [SetIQBalance SOAPY_SDR_TX 0 (fst q); SetDCOffset SOAPY_SDR_TX 0 (fst d);
          SetIQBalance SOAPY_SDR_TX 1 (snd q); SetDCOffset SOAPY_SDR_TX 1 (snd d)]
      ++ post /\
    Forall is_stream init /\ Forall is_stream post /\
    steps (tx_depth_outcome D fuel) MAX_SEARCH_DEPTHS
          (((of_float 1, of_float 1), (1, 1)),
           ((of_float 0, of_float 0), (1, 1)))
          search (Returned tt) ((q, a), (d, e)) /\
    progress2 (of_float 1, of_float 1) (1, 1) q a search /\
    progress2 (of_float 0, of_float 0) (1, 1) d e search.
Proof.
  unfold tx_iq_dc_search. intros H.
  apply mbind_returned_inv in H as ([] & wc & Hrunc & H).
  apply mbind_returned_inv in H as (samps0 & w0 & Hrun0 & H).
  apply mbind_returned_inv in H as (bIq & w1 & Hrun1 & H).
  apply mbind_returned_inv in H as (lIq & w2 & Hrun2 & H).
  apply mbind_returned_inv in H as (bDc & w3 & Hrun3 & H).
  apply mbind_returned_inv in H as (lDc & w4 & Hrun4 & H).
  apply mbind_returned_inv in H as ([] & w5 & Hrun5 & H).
  apply mbind_returned_inv in H as ([] & w6 & Hrun6 & H).
  apply mbind_returned_inv in H as (samps7 & w7 & Hrun7 & H).
  unfold mret in H. injection H as <-.
  destruct (tx_set_cordic_run w) as (wc' & Hrunc' & Hcc & Hfc & Htc).
  rewrite Hrunc in Hrunc'. injection Hrunc' as <-.
  destruct (readSamps_spec fuel SAMPS_PER_CAPTURE wc)
    as (r0 & w0' & evs0 & Hrun0' & _ & _ & Ht0 & Hs0 & _).
  rewrite Hrun0 in Hrun0'. injection Hrun0' as <- <-.
  destruct (new_clist_run [of_float 1; of_float 1] w0)
    as (w1' & Hrun1' & Ht1 & Hf1 & Hq1 & _).
  rewrite Hrun1 in Hrun1'. injection Hrun1' as -> <-.
  destruct (new_flist_run [1; 1] w1) as (w2' & Hrun2' & Ht2 & Hc2 & Ha2 & _).
  rewrite Hrun2 in Hrun2'. injection Hrun2' as -> <-.
  destruct (new_clist_run [of_float 0; of_float 0] w2)
    as (w3' & Hrun3' & Ht3 & Hf3 & Hd3 & Hold3).
  rewrite Hrun3 in Hrun3'. injection Hrun3' as -> <-.
  destruct (new_flist_run [1; 1] w3) as (w4' & Hrun4' & Ht4 & Hc4 & He4 & Hold4).
  rewrite Hrun4 in Hrun4'. injection Hrun4' as -> <-.
  rewrite <- Hc2 in Hq1.
  pose proof (store_get_valid _ _ _ Hq1) as Vq.
  apply Hold3 in Hq1. rewrite <- Hc4 in Hq1, Hd3.
  rewrite <- Hf3 in Ha2.
  pose proof (store_get_valid _ _ _ Ha2) as Va.
  apply Hold4 in Ha2.
  set (bIq := length (clists w0)) in *.
  set (lIq := length (flists w1)) in *.
  set (bDc := length (clists w2)) in *.
  set (lDc := length (flists w3)) in *.
  assert (Hnc : bIq <> bDc) by lia.
  assert (Hnf : lIq <> lDc) by lia.
  destruct (tx_depths_records fuel bIq lIq bDc lDc MAX_SEARCH_DEPTHS w4
              (((of_float 1, of_float 1), (1, 1)),
               ((of_float 0, of_float 0), (1, 1))) Hnc Hnf)
    as (r5 & w5' & search & [[q a] [d e]] & Hrun5' & Ht5
        & [[[Hq5 Ha5] [Hd5 He5]] _] & Hsteps).
  { split; [repeat split; assumption | repeat split; simpl; lra]. }
  rewrite Hrun5 in Hrun5'. injection Hrun5' as <- <-.
  destruct (tx_depths_spec fuel bIq lIq bDc lDc Hnc Hnf MAX_SEARCH_DEPTHS w4
              (of_float 1, of_float 1) (of_float 0, of_float 0) (1, 1) (1, 1)
              Hq1 Hd3 Ha2 He4)
    as (r5 & w5' & evs5 & q' & d' & a' & e' & Hrun5' & Ht5' & Hq5' & Hd5'
        & Ha5' & He5' & Hp1 & Hp2 & _).
  rewrite Hrun5 in Hrun5'. injection Hrun5' as <- <-.
  rewrite Ht5 in Ht5'. apply app_inv_head in Ht5'. subst evs5.
  simpl fst in *. simpl snd in *.
  assert (Eq : q' = q).
  { unfold holds in Hq5, Hq5'. rewrite Hq5 in Hq5'.
    destruct q, q'. simpl in Hq5'. congruence. }
  assert (Ed : d' = d).
  { unfold holds in Hd5, Hd5'. rewrite Hd5 in Hd5'.
    destruct d, d'. simpl in Hd5'. congruence. }
  assert (Ea : a' = a).
  { unfold holds in Ha5, Ha5'. rewrite Ha5 in Ha5'.
    destruct a, a'. simpl in Ha5'. congruence. }
  assert (Ee : e' = e).
  { unfold holds in He5, He5'. rewrite He5 in He5'.
    destruct e, e'. simpl in He5'. congruence. }
  subst q' d' a' e'.
  destruct (tx_apply_best_run bIq bDc w5 q d Hq5 Hd5) as (w6' & Hrun6' & Ht6).
  rewrite Hrun6 in Hrun6'. injection Hrun6' as <-.
  destruct (readSamps_spec fuel SAMPS_PER_CAPTURE w6)
    as (r7 & w7' & evs7 & Hrun7' & _ & _ & Ht7 & Hs7 & _).
  rewrite Hrun7 in Hrun7'. injection Hrun7' as <- <-.
  exists evs0, search, evs7, q, d, a, e.
  split.
  { rewrite Ht7, Ht6, Ht5, Ht4, Ht3, Ht2, Ht1, Ht0, Htc, <- !app_assoc.
    reflexivity. }
  splits; try assumption; apply Hp1 || apply Hp2.
Qed.

End Records.

(** What a level below its start tells: progress from the start (b, 1). *)
Lemma progress_from_one (b c : complex) (l : R) (evs : list event) :
  progress b 1 c l evs ->
  (c <> b -> exists f lvl, In (Measured f lvl) evs /\ lvl < 1) /\
  ((forall f lvl, In (Measured f lvl) evs -> 1 <= lvl) -> c = b).
Proof.
  intros (Hle & Heq & Hlt). split.
  - intros Hne. destruct (Rlt_dec l 1) as [H | H].
    + destruct (Hlt H) as (f & Hin). exists f, l. auto.
    + exfalso. apply Hne, Heq. lra.
  - intros Hall. apply Heq. destruct (Rlt_dec l 1) as [H | H]; [| lra].
    destruct (Hlt H) as (f & Hin). pose proof (Hall f l Hin). lra.
Qed.

(* ================================================================== *)
(** * The identity point                                               *)
(* ================================================================== *)

Lemma Cabs_one : Cabs (Complex 1 0) = 1.
Proof.
  unfold Cabs. simpl. replace (1 * 1 + 0 * 0) with 1 by ring. apply sqrt_1.
Qed.

Lemma phase_one : phase (Complex 1 0) = 0.
Proof.
  unfold phase, atan2. simpl.
  destruct (Rlt_dec 0 1) as [_ | H]; [| lra].
  replace (0 / 1) with 0 by field. apply atan_0.
Qed.

(** The candidate of the identity point: the best taken through its polar
    form. *)
Lemma composed_one (b : complex) :
  composed (Complex 1 0) b = rect (Cabs b) (phase b).
Proof.
  unfold composed. rewrite Cabs_one, phase_one, Rmult_1_l, Rplus_0_l.
  reflexivity.
Qed.

Lemma shifted_zero (d : complex) :
  shifted (Complex 0 0) d = Complex (dc_clamp (real d)) (dc_clamp (imag d)).
Proof. unfold shifted. simpl. rewrite !Rplus_0_r. reflexivity. Qed.

Lemma shifted_zero_in_box (d : complex) :
  in_box d -> shifted (Complex 0 0) d = d.
Proof.
  intros [Hr Hi]. rewrite shifted_zero, !dc_clamp_fixed by assumption.
  destruct d. reflexivity.
Qed.

Lemma depth_in_range (D : Z) :
  (0 <= D <= 1023)%Z ->
  GenerateTestPoints_py (Z.to_N D) = Points (GenerateTestPoints D).
Proof.
  intros HD. unfold GenerateTestPoints_py.
  rewrite Z2N.id by lia.
  replace (2 ^ Z.to_N D <? 2 ^ 1024)%N with true; [reflexivity |].
  symmetry. apply N.ltb_lt. apply N.pow_lt_mono_r; lia.
Qed.

Lemma identity_point_at_4 (D : Z) :
  nth_error (GenerateTestPoints D) 4 = Some (Complex 0 0, Complex 1 0).
Proof.
  unfold GenerateTestPoints. rewrite dcPoints_grid, iqPoints_grid.
  simpl. rewrite rect_unit. reflexivity.
Qed.

Lemma nth_error_split5 {A : Type} (l : list A) (x : A) :
  length l = 9%nat -> nth_error l 4 = Some x ->
  exists p0 p1 p2 p3 p5 p6 p7 p8, l = [p0; p1; p2; p3; x; p5; p6; p7; p8].
Proof.
  intros Hlen Hx.
  do 9 (destruct l as [| ? l]; [discriminate |]).
  destruct l; [| discriminate].
  simpl in Hx. injection Hx as ->. repeat eexists.
Qed.

Lemma length_GenerateTestPoints (d : Z) : length (GenerateTestPoints d) = 9%nat.
Proof.
  unfold GenerateTestPoints. rewrite length_combine, dcPoints_grid, iqPoints_grid.
  reflexivity.
Qed.

Section Identity.

Context {Dev : Device}.

Lemma rx_depth_identity_candidates (fuel : nat) (best lv : ref) (D : Z)
    (w : world Dev) (b : complex * complex) (l : R * R) :
  holds (clists w) best b -> holds (flists w) lv l ->
  fst (rx_depth fuel best lv D w) = Returned tt ->
  let setters := filter is_setter (events_of (rx_depth fuel best lv D) w) in
  nth_error setters 8
    = Some (SetIQBalance SOAPY_SDR_RX 0 (rect (Cabs (fst b)) (phase (fst b)))) /\
  nth_error setters 9
    = Some (SetIQBalance SOAPY_SDR_RX 1 (rect (Cabs (snd b)) (phase (snd b)))).
Proof.
  intros Hb Hl Hret.
  destruct (rx_depth_spec fuel best lv D w _ _ _ _ Hb Hl)
    as (r & w' & evs & _ & _ & _ & _ & Hrun & Ht & (rest & Hset & Hrest) & _).
  rewrite Hrun in Hret. simpl in Hret.
  rewrite (events_of_run _ _ _ _ _ Hrun Ht). cbv zeta.
  rewrite (Hrest Hret), app_nil_r in Hset. rewrite <- Hset.
  destruct (nth_error_split5 _ _ (length_GenerateTestPoints D) (identity_point_at_4 D))
    as (p0 & p1 & p2 & p3 & p5 & p6 & p7 & p8 & ->).
  simpl. rewrite !composed_one. split; reflexivity.
Qed.

Lemma tx_depth_identity_candidates (fuel : nat) (bIq lIq bDc lDc : ref) (D : Z)
    (w : world Dev) (q d : complex * complex) (a e : R * R) :
  bIq <> bDc -> lIq <> lDc ->
  holds (clists w) bIq q -> holds (clists w) bDc d ->
  holds (flists w) lIq a -> holds (flists w) lDc e ->
  fst (tx_depth fuel bIq lIq bDc lDc D w) = Returned tt ->
  let setters :=
    filter is_setter (events_of (tx_depth fuel bIq lIq bDc lDc D) w) in
  nth_error setters 16
    = Some (SetIQBalance SOAPY_SDR_TX 0 (rect (Cabs (fst q)) (phase (fst q)))) /\
  nth_error setters 17
    = Some (SetDCOffset SOAPY_SDR_TX 0
              (Complex (dc_clamp (real (fst d))) (dc_clamp (imag (fst d))))) /\
  nth_error setters 18
    = Some (SetIQBalance SOAPY_SDR_TX 1 (rect (Cabs (snd q)) (phase (snd q)))) /\
  nth_error setters 19
    = Some (SetDCOffset SOAPY_SDR_TX 1
              (Complex (dc_clamp (real (snd d))) (dc_clamp (imag (snd d))))).
Proof.
  intros Hnc Hnf Hq Hd Ha He Hret.
  destruct (tx_depth_spec fuel bIq lIq bDc lDc D w q d a e Hnc Hnf Hq Hd Ha He)
    as (r & w' & evs & _ & _ & _ & _ & Hrun & Ht & (rest & Hset & Hrest) & _).
  rewrite Hrun in Hret. simpl in Hret.
  rewrite (events_of_run _ _ _ _ _ Hrun Ht). cbv zeta.
  rewrite (Hrest Hret), app_nil_r in Hset. rewrite <- Hset.
  destruct (nth_error_split5 _ _ (length_GenerateTestPoints D) (identity_point_at_4 D))
    as (p0 & p1 & p2 & p3 & p5 & p6 & p7 & p8 & ->).
  simpl. rewrite !composed_one, !shifted_zero. repeat split; reflexivity.
Qed.

End Identity.

(* ================================================================== *)
(** * The reach of the search                                          *)
(* ================================================================== *)

Lemma pow2_float_add (g h : R) :
  pow2_float (g + h) = pow2_float g * pow2_float h.
Proof. unfold pow2_float. apply Rpower_plus. Qed.

Lemma rect_mul (r s a b : R) :
  Cmul (rect r a) (rect s b) = rect (r * s) (a + b).
Proof.
  unfold Cmul, rect. simpl. rewrite cos_plus, sin_plus.
  apply complex_eq; simpl; ring.
Qed.

Lemma composed_Cmul (a b : complex) : composed a b = Cmul a b.
Proof. unfold composed. apply rect_product. Qed.

(** ** Failures *)

Lemma stream_failure_after (pre evs : list event) (x : exn) :
  stream_failure x evs -> stream_failure x (pre ++ evs).
Proof.
  intros (p & n & s & -> & Hs & Hx).
  exists (pre ++ p), n, s. rewrite app_assoc. auto.
Qed.

Lemma steps_failure {X S : Type}
    (step : X -> S -> list event -> result unit -> S -> Prop) :
  (forall y s0 evs0 e s1,
      step y s0 evs0 (Raised e) s1 -> stream_failure e evs0) ->
  forall xs s evs r s',
    steps step xs s evs r s' ->
    forall x, r = Raised x -> stream_failure x evs.
Proof.
  intros Hstep xs s evs r s' H.
  induction H as [s | y xs s s1 s' evs1 evs r H1 H IH | y xs s s' evs r H1 Hr];
    intros x Hx.
  - discriminate.
  - apply stream_failure_after. apply IH. exact Hx.
  - subst r. eapply Hstep. exact H1.
Qed.

Lemma rx_point_failure (c p : complex * complex) (s s' : rx_state)
    (evs : list event) (x : exn) :
  rx_point_sem c p s evs (Raised x) s' -> stream_failure x evs.
Proof.
  inversion 1 as [| cevs r [_ Hcap] _]; subst.
  apply stream_failure_after. apply Hcap. reflexivity.
Qed.

Lemma tx_point_failure (ci cd p : complex * complex) (s s' : tx_state)
    (evs : list event) (x : exn) :
  tx_point_sem ci cd p s evs (Raised x) s' -> stream_failure x evs.
Proof.
  inversion 1 as [| cevs r [_ Hcap] _]; subst.
  apply stream_failure_after. apply Hcap. reflexivity.
Qed.

Lemma rx_depths_failure (depths : list Z) (s s' : rx_state)
    (evs : list event) (x : exn) :
  steps rx_depth_sem depths s evs (Raised x) s' -> stream_failure x evs.
Proof.
  intros H. eapply steps_failure; [| exact H | reflexivity].
  intros d s0 evs0 e s1 Hd. unfold rx_depth_sem in Hd.
  eapply steps_failure; [| exact Hd | reflexivity].
  intros p s2 evs2 e2 s3. apply rx_point_failure.
Qed.

Lemma tx_depths_failure (depths : list Z) (s s' : tx_state)
    (evs : list event) (x : exn) :
  steps tx_depth_sem depths s evs (Raised x) s' -> stream_failure x evs.
Proof.
  intros H. eapply steps_failure; [| exact H | reflexivity].
  intros d s0 evs0 e s1 Hd. unfold tx_depth_sem in Hd.
  eapply steps_failure; [| exact Hd | reflexivity].
  intros p s2 evs2 e2 s3. apply tx_point_failure.
Qed.

(** ** Captures *)

Lemma activations_app (a b : list event) :
  activations (a ++ b) = (activations a + activations b)%nat.
Proof. unfold activations. rewrite filter_app, length_app. reflexivity. Qed.

Lemma activations_reads (reads : list event) :
  Forall is_read reads -> activations reads = 0%nat.
Proof.
  unfold activations. induction 1 as [| e reads He _ IH]; [reflexivity |].
  destruct e; simpl in *; try contradiction. exact IH.
Qed.

Lemma capture_activations {A : Type} (cevs : list event) (r : result A) :
  capture_ends cevs r -> activations cevs = 1%nat.
Proof.
  intros [(reads & -> & Hreads) _].
  change (ActivateStream SAMPS_PER_CAPTURE :: reads)
    with ([ActivateStream SAMPS_PER_CAPTURE] ++ reads).
  rewrite activations_app, (activations_reads _ Hreads). reflexivity.
Qed.

Lemma rx_point_activations (c p : complex * complex) (s s' : rx_state)
    (evs : list event) (r : result unit) :
  rx_point_sem c p s evs r s' -> activations evs = 1%nat.
Proof.
  inversion 1 as [cevs samps Hcap | cevs r0 Hcap _]; subst;
    rewrite !activations_app, (capture_activations _ _ Hcap); reflexivity.
Qed.

Lemma tx_point_activations (ci cd p : complex * complex) (s s' : tx_state)
    (evs : list event) (r : result unit) :
  tx_point_sem ci cd p s evs r s' -> activations evs = 1%nat.
Proof.
  inversion 1 as [cevs samps Hcap | cevs r0 Hcap _]; subst;
    rewrite !activations_app, (capture_activations _ _ Hcap); reflexivity.
Qed.

Lemma steps_activations {X S : Type}
    (step : X -> S -> list event -> result unit -> S -> Prop) (k : nat) :
  (forall y s0 evs0 s1,
      step y s0 evs0 (Returned tt) s1 -> activations evs0 = k) ->
  forall xs s evs r s',
    steps step xs s evs r s' -> r = Returned tt ->
    activations evs = (k * length xs)%nat.
Proof.
  intros Hstep xs s evs r s' H.
  induction H as [s | y xs s s1 s' evs1 evs r H1 H IH | y xs s s' evs r H1 Hr];
    intros Hret.
  - cbn [length]. rewrite Nat.mul_0_r. reflexivity.
  - rewrite activations_app, (Hstep _ _ _ _ H1), (IH Hret).
    cbn [length]. rewrite Nat.mul_succ_r. lia.
  - contradiction.
Qed.

Lemma rx_depths_activations (depths : list Z) (s s' : rx_state)
    (evs : list event) :
  steps rx_depth_sem depths s evs (Returned tt) s' ->
  activations evs = (9 * length depths)%nat.
Proof.
  intros H. eapply steps_activations; [| exact H | reflexivity].
  intros d s0 evs0 s1 Hd. unfold rx_depth_sem in Hd.
  rewrite (steps_activations _ 1 (fun p s2 evs2 s3 => rx_point_activations _ p s2 s3 evs2 _)
             _ _ _ _ _ Hd eq_refl).
  rewrite length_GenerateTestPoints. reflexivity.
Qed.

Lemma tx_depths_activations (depths : list Z) (s s' : tx_state)
    (evs : list event) :
  steps tx_depth_sem depths s evs (Returned tt) s' ->
  activations evs = (9 * length depths)%nat.
Proof.
  intros H. eapply steps_activations; [| exact H | reflexivity].
  intros d s0 evs0 s1 Hd. unfold tx_depth_sem in Hd.
  rewrite (steps_activations _ 1
             (fun p s2 evs2 s3 => tx_point_activations _ _ p s2 s3 evs2 _)
             _ _ _ _ _ Hd eq_refl).
  rewrite length_GenerateTestPoints. reflexivity.
Qed.

(** ** Reach *)

Lemma iq_reach_mono (B B' : R) (c : complex) :
  B <= B' -> iq_reach B c -> iq_reach B' c.
Proof.
  intros HB (g & phi & -> & Hg & Hphi). exists g, phi.
  pose proof PI2_RGT_0. repeat split; auto; nra.
Qed.

Lemma dc_reach_mono (B B' : R) (c : complex) :
  B <= B' -> dc_reach B c -> dc_reach B' c.
Proof. unfold dc_reach. intros HB [H1 H2]. lra. Qed.

Lemma event_allowed_mono (B B' : R) (e : event) :
  B <= B' -> event_allowed B e -> event_allowed B' e.
Proof.
  intros HB. destruct e; simpl; auto.
  - apply iq_reach_mono; exact HB.
  - intros [Hd Hc]. split; [exact Hd | eapply dc_reach_mono; eassumption].
Qed.

Lemma Forall_event_allowed_mono (B B' : R) (evs : list event) :
  B <= B' -> Forall (event_allowed B) evs -> Forall (event_allowed B') evs.
Proof.
  intros HB H. eapply Forall_impl; [| exact H].
  intros e. apply event_allowed_mono. exact HB.
Qed.

Lemma iq_reach_one (B : R) : 0 <= B -> iq_reach B (of_float 1).
Proof.
  intros HB. exists 0, 0. rewrite rect_unit, Rabs_R0.
  pose proof PI2_RGT_0. repeat split; auto; nra.
Qed.

Lemma dc_reach_zero (B : R) : 0 <= B -> dc_reach B (of_float 0).
Proof. intros HB. unfold dc_reach, of_float. simpl. rewrite Rabs_R0. auto. Qed.

Lemma iq_reach_composed (B1 B2 : R) (a b : complex) :
  iq_reach B1 a -> iq_reach B2 b -> iq_reach (B1 + B2) (composed a b).
Proof.
  intros (g1 & p1 & -> & Hg1 & Hp1) (g2 & p2 & -> & Hg2 & Hp2).
  exists (g1 + g2), (p1 + p2).
  rewrite composed_Cmul, rect_mul, <- pow2_float_add.
  pose proof (Rabs_triang g1 g2). pose proof (Rabs_triang p1 p2).
  repeat split; auto; lra.
Qed.

Lemma dc_clamp_contracts (x : R) : Rabs (dc_clamp x) <= Rabs x.
Proof.
  unfold dc_clamp, py_max, py_min.
  destruct (Rlt_dec 1 x) as [H1 | H1].
  - destruct (Rlt_dec 1 (-1)); [lra |].
    unfold Rabs. destruct (Rcase_abs 1), (Rcase_abs x); lra.
  - destruct (Rlt_dec x (-1)) as [H2 | H2]; [| lra].
    unfold Rabs. destruct (Rcase_abs (-1)), (Rcase_abs x); lra.
Qed.

Lemma dc_reach_shifted (B1 B2 : R) (dcPoint b : complex) :
  dc_reach B1 dcPoint -> dc_reach B2 b -> dc_reach (B1 + B2) (shifted dcPoint b).
Proof.
  intros [H1 H2] [H3 H4]. unfold dc_reach, shifted. simpl.
  pose proof (dc_clamp_contracts (real b + real dcPoint)).
  pose proof (dc_clamp_contracts (imag b + imag dcPoint)).
  pose proof (Rabs_triang (real b) (real dcPoint)).
  pose proof (Rabs_triang (imag b) (imag dcPoint)).
  lra.
Qed.

Lemma test_point_reach (d : Z) (p : complex * complex) :
  In p (GenerateTestPoints d) ->
  dc_reach (scale d) (fst p) /\ iq_reach (scale d) (snd p).
Proof.
  pose proof (scale_pos d) as Hs. pose proof PI2_RGT_0 as Hpi.
  assert (Habs : Rabs (scale d) = scale d) by (apply Rabs_right; lra).
  assert (Hiq : forall g ph,
             Rabs g <= scale d -> Rabs ph <= (PI / 2) * scale d ->
             iq_reach (scale d) (rect (pow2_float g) ph)).
  { intros g ph Hg Hph. exists g, ph. auto. }
  assert (Hph : Rabs (PI / 2 * scale d) = PI / 2 * scale d)
    by (apply Rabs_right; nra).
  unfold GenerateTestPoints. rewrite dcPoints_grid, iqPoints_grid.
  unfold offMax, gainMax, phaseMax. rewrite !Rmult_1_l. simpl.
  intros Hin.
  repeat (destruct Hin as [<- | Hin];
          [ split;
            [ unfold dc_reach; simpl;
              rewrite ?Rabs_Ropp, ?Rabs_R0, ?Habs; lra
            | apply Hiq; rewrite ?Rabs_Ropp, ?Rabs_R0, ?Habs, ?Hph; nra ]
          | ]).
  contradiction.
Qed.

Lemma better_cases (lvl l : R) (n b : complex) (P : complex -> Prop) :
  P n -> P b -> P (better lvl l n b).
Proof. intros Hn Hb. unfold better. destruct (Rlt_dec lvl l); assumption. Qed.

Lemma Forall_reads_reach (B : R) (reads : list event) :
  Forall is_read reads -> Forall (event_allowed B) reads.
Proof.
  intros H. eapply Forall_impl; [| exact H].
  intros [] He; simpl in *; auto; contradiction.
Qed.

Lemma capture_reach {A : Type} (B : R) (cevs : list event) (r : result A) :
  capture_ends cevs r -> Forall (event_allowed B) cevs.
Proof.
  intros [(reads & -> & Hreads) _].
  constructor; [exact I | apply Forall_reads_reach; exact Hreads].
Qed.

Lemma steps_invariant {X S : Type}
    (step : X -> S -> list event -> result unit -> S -> Prop)
    (I : S -> Prop) (P : event -> Prop) :
  forall xs s evs r s',
    steps step xs s evs r s' ->
    (forall x s0 evs0 r0 s1,
        In x xs -> I s0 -> step x s0 evs0 r0 s1 -> I s1 /\ Forall P evs0) ->
    I s -> I s' /\ Forall P evs.
Proof.
  intros xs s evs r s' H.
  induction H as [s | y xs s s1 s' evs1 evs r H1 H IH | y xs s s' evs r H1 Hr];
    intros Hstep HI.
  - split; [exact HI | constructor].
  - destruct (Hstep y s evs1 _ s1 (or_introl eq_refl) HI H1) as [HI1 HP1].
    destruct (IH (fun x s0 evs0 r0 s2 Hx => Hstep x s0 evs0 r0 s2 (or_intror Hx)) HI1)
      as [HI' HP].
    split; [exact HI' | apply Forall_app; auto].
  - apply (Hstep y s evs r s' (or_introl eq_refl) HI H1).
Qed.

Lemma rx_point_reach (B : R) (d : Z) (c p : complex * complex)
    (s s' : rx_state) (evs : list event) (r : result unit) :
  In p (GenerateTestPoints d) ->
  iq_reach B (fst c) -> iq_reach B (snd c) ->
  rx_reach (B + scale d) s ->
  rx_point_sem c p s evs r s' ->
  rx_reach (B + scale d) s' /\ Forall (event_allowed (B + scale d)) evs.
Proof.
  intros Hp Hc0 Hc1 [Hs0 Hs1] Hsem.
  destruct (test_point_reach d p Hp) as [_ Hiq].
  assert (Hn0 : iq_reach (B + scale d) (composed (snd p) (fst c))).
  { rewrite Rplus_comm. apply iq_reach_composed; assumption. }
  assert (Hn1 : iq_reach (B + scale d) (composed (snd p) (snd c))).
  { rewrite Rplus_comm. apply iq_reach_composed; assumption. }
  assert (Happ : Forall (event_allowed (B + scale d)) (rx_applied (fst c) (snd c) p)).
  { unfold rx_applied.
    repeat (apply Forall_cons; [simpl; assumption |]). apply Forall_nil. }
  inversion Hsem as [cevs samps Hcap | cevs r0 Hcap _]; subst.
  - split.
    + split; simpl; apply better_cases; assumption.
    + apply Forall_app. split; [exact Happ |].
      apply Forall_app. split; [eapply capture_reach; exact Hcap |].
      repeat constructor.
  - split; [split; assumption |].
    apply Forall_app. split; [exact Happ | eapply capture_reach; exact Hcap].
Qed.

Lemma rx_depth_reach (B : R) (d : Z) (s s' : rx_state) (evs : list event)
    (r : result unit) :
  rx_reach B s -> rx_depth_sem d s evs r s' ->
  rx_reach (B + scale d) s' /\ Forall (event_allowed (B + scale d)) evs.
Proof.
  intros [H0 H1] Hsem. unfold rx_depth_sem in Hsem.
  pose proof (scale_pos d) as Hs.
  apply (steps_invariant _ (rx_reach (B + scale d)) _ _ _ _ _ _ Hsem).
  - intros p s0 evs0 r0 s1 Hp HI Hstep.
    apply (rx_point_reach B d (fst s) p s0 s1 evs0 r0); assumption.
  - split; eapply iq_reach_mono; try eassumption; lra.
Qed.

Lemma total_reach_nonneg (depths : list Z) : 0 <= total_reach depths.
Proof.
  induction depths as [| d depths IH]; simpl; [lra |].
  pose proof (scale_pos d). lra.
Qed.

Lemma rx_depths_reach (depths : list Z) :
  forall (s s' : rx_state) (evs : list event) (r : result unit) (B : R),
    steps rx_depth_sem depths s evs r s' -> rx_reach B s ->
    rx_reach (B + total_reach depths) s' /\
    Forall (event_allowed (B + total_reach depths)) evs.
Proof.
  intros s s' evs r B H. revert B.
  induction H as [s | d ds s s1 s' evs1 evs r H1 H IH | d ds s s' evs r H1 Hr];
    intros B HB.
  - simpl. rewrite Rplus_0_r. split; [exact HB | constructor].
  - destruct (rx_depth_reach B d s s1 evs1 _ HB H1) as [HB1 HP1].
    destruct (IH _ HB1) as [HB' HP].
    pose proof (total_reach_nonneg ds) as Hnn.
    simpl total_reach. rewrite <- Rplus_assoc.
    split; [exact HB' |].
    apply Forall_app. split; [| exact HP].
    eapply Forall_event_allowed_mono; [| exact HP1]. lra.
  - destruct (rx_depth_reach B d s s' evs _ HB H1) as [[HB0 HB1] HP1].
    pose proof (total_reach_nonneg ds) as Hnn.
    simpl total_reach.
    split; [split; eapply iq_reach_mono; try eassumption; lra |].
    eapply Forall_event_allowed_mono; [| exact HP1]. lra.
Qed.

Lemma tx_point_reach (B : R) (d : Z) (ci cd p : complex * complex)
    (s s' : tx_state) (evs : list event) (r : result unit) :
  In p (GenerateTestPoints d) ->
  iq_reach B (fst ci) -> iq_reach B (snd ci) ->
  dc_reach B (fst cd) -> dc_reach B (snd cd) ->
  tx_reach (B + scale d) s ->
  tx_point_sem ci cd p s evs r s' ->
  tx_reach (B + scale d) s' /\ Forall (event_allowed (B + scale d)) evs.
Proof.
  intros Hp Hi0 Hi1 Hd0 Hd1 [[Hq0 Hq1] [He0 He1]] Hsem.
  destruct (test_point_reach d p Hp) as [Hdc Hiq].
  assert (Hn0 : iq_reach (B + scale d) (composed (snd p) (fst ci))).
  { rewrite Rplus_comm. apply iq_reach_composed; assumption. }
  assert (Hn1 : iq_reach (B + scale d) (composed (snd p) (snd ci))).
  { rewrite Rplus_comm. apply iq_reach_composed; assumption. }
  assert (Hk0 : dc_reach (B + scale d) (shifted (fst p) (fst cd))).
  { rewrite Rplus_comm. apply dc_reach_shifted; assumption. }
  assert (Hk1 : dc_reach (B + scale d) (shifted (fst p) (snd cd))).
  { rewrite Rplus_comm. apply dc_reach_shifted; assumption. }
  assert (Happ : Forall (event_allowed (B + scale d))
                   (tx_applied (fst ci) (snd ci) (fst cd) (snd cd) p)).
  { unfold tx_applied.
    repeat (apply Forall_cons; [simpl; auto |]). apply Forall_nil. }
  inversion Hsem as [cevs samps Hcap | cevs r0 Hcap _]; subst.
  - split.
    + split; split; simpl; apply better_cases; assumption.
    + apply Forall_app. split; [exact Happ |].
      apply Forall_app. split; [eapply capture_reach; exact Hcap |].
      repeat constructor.
  - split; [split; split; assumption |].
    apply Forall_app. split; [exact Happ | eapply capture_reach; exact Hcap].
Qed.

Lemma tx_reach_mono (B B' : R) (s : tx_state) :
  B <= B' -> tx_reach B s -> tx_reach B' s.
Proof.
  intros HB [[H0 H1] [H2 H3]].
  split; split; first [eapply iq_reach_mono | eapply dc_reach_mono]; eassumption.
Qed.

Lemma tx_depth_reach (B : R) (d : Z) (s s' : tx_state) (evs : list event)
    (r : result unit) :
  tx_reach B s -> tx_depth_sem d s evs r s' ->
  tx_reach (B + scale d) s' /\ Forall (event_allowed (B + scale d)) evs.
Proof.
  intros HB Hsem. unfold tx_depth_sem in Hsem.
  pose proof (scale_pos d) as Hs.
  apply (steps_invariant _ (tx_reach (B + scale d)) _ _ _ _ _ _ Hsem).
  - intros p s0 evs0 r0 s1 Hp HI Hstep.
    destruct HB as [[H0 H1] [H2 H3]].
    apply (tx_point_reach B d (fst (fst s)) (fst (snd s)) p s0 s1 evs0 r0);
      assumption.
  - eapply tx_reach_mono; [| exact HB]. lra.
Qed.

Lemma tx_depths_reach (depths : list Z) :
  forall (s s' : tx_state) (evs : list event) (r : result unit) (B : R),
    steps tx_depth_sem depths s evs r s' -> tx_reach B s ->
    tx_reach (B + total_reach depths) s' /\
    Forall (event_allowed (B + total_reach depths)) evs.
Proof.
  intros s s' evs r B H. revert B.
  induction H as [s | d ds s s1 s' evs1 evs r H1 H IH | d ds s s' evs r H1 Hr];
    intros B HB.
  - simpl. rewrite Rplus_0_r. split; [exact HB | constructor].
  - destruct (tx_depth_reach B d s s1 evs1 _ HB H1) as [HB1 HP1].
    destruct (IH _ HB1) as [HB' HP].
    pose proof (total_reach_nonneg ds) as Hnn.
    simpl total_reach. rewrite <- Rplus_assoc.
    split; [exact HB' |].
    apply Forall_app. split; [| exact HP].
    eapply Forall_event_allowed_mono; [| exact HP1]. lra.
  - destruct (tx_depth_reach B d s s' evs _ HB H1) as [HB1 HP1].
    pose proof (total_reach_nonneg ds) as Hnn.
    simpl total_reach.
    split; [eapply tx_reach_mono; [| exact HB1]; lra |].
    eapply Forall_event_allowed_mono; [| exact HP1]. lra.
Qed.

Lemma total_reach_of_search : total_reach MAX_SEARCH_DEPTHS = 511 / 1024.
Proof.
  unfold total_reach, MAX_SEARCH_DEPTHS, scale, pow2_int. simpl. field.
Qed.

(* ================================================================== *)
(** * Summary of a run                                                 *)
(* ================================================================== *)

Section Runs.

Context {D : Device}.

Lemma run_ok_raised {A : Type} (B : R) (k : nat) (evs : list event) (x : exn) :
  Forall (event_allowed B) evs -> stream_failure x evs ->
  run_ok B k evs (Raised x : result A).
Proof.
  intros HP Hx. split; [exact HP |]. split.
  - intros y Hy. injection Hy as <-. exact Hx.
  - intros a Ha. discriminate.
Qed.

Lemma run_ok_starved {A : Type} (B : R) (k : nat) (evs : list event) :
  Forall (event_allowed B) evs -> run_ok B k evs (OutOfFuel : result A).
Proof. intros HP. split; [exact HP |]. split; intros ? H; discriminate. Qed.

Lemma run_ok_returned {A : Type} (B : R) (k : nat) (evs : list event) (a : A) :
  Forall (event_allowed B) evs -> activations evs = k ->
  run_ok B k evs (Returned a).
Proof.
  intros HP Hk. split; [exact HP |]. split.
  - intros x H. discriminate.
  - intros b _. exact Hk.
Qed.

Lemma run_ok_seq {A A' : Type} (B : R) (k1 k2 : nat) (evs1 evs2 : list event)
    (a : A) (r : result A') :
  run_ok B k1 evs1 (Returned a) -> run_ok B k2 evs2 r ->
  run_ok B (k1 + k2) (evs1 ++ evs2) r.
Proof.
  intros (HP1 & _ & Hk1) (HP2 & Hx2 & Hk2). split; [apply Forall_app; auto |].
  split.
  - intros x Hx. apply stream_failure_after. apply Hx2. exact Hx.
  - intros b Hb. rewrite activations_app, (Hk1 a eq_refl), (Hk2 b Hb). reflexivity.
Qed.

(** A run that did not return, seen as the run of what it was part of. *)
Lemma run_ok_stop {A A' : Type} (B : R) (k k' : nat) (evs : list event)
    (r : result A) (r' : result A') :
  run_ok B k evs r ->
  match r with
  | Returned _ => False
  | Raised x => r' = Raised x
  | OutOfFuel => r' = OutOfFuel
  end ->
  run_ok B k' evs r'.
Proof.
  intros (HP & Hx & _) Hr. destruct r as [a | x |]; [contradiction | |]; subst r'.
  - apply run_ok_raised; [exact HP | apply Hx; reflexivity].
  - apply run_ok_starved. exact HP.
Qed.

Lemma ran_mbind {A A' : Type} (B : R) (k1 k2 : nat) (m : M D A)
    (f : A -> M D A') (w : world D) :
  ran B k1 m w ->
  (forall a w1, m w = (Returned a, w1) -> ran B k2 (f a) w1) ->
  ran B (k1 + k2) (mbind m f) w.
Proof.
  intros (evs1 & Ht1 & Hok1) Hf.
  unfold ran, mbind. destruct (m w) as [[a | x |] w1] eqn:Hrun; simpl in *.
  - destruct (Hf a w1 eq_refl) as (evs2 & Ht2 & Hok2).
    exists (evs1 ++ evs2). rewrite Ht2, Ht1, <- app_assoc.
    split; [reflexivity |]. eapply run_ok_seq; eassumption.
  - exists evs1. split; [exact Ht1 |].
    apply (run_ok_stop B k1 _ evs1 (Raised x : result A)); [exact Hok1 | reflexivity].
  - exists evs1. split; [exact Ht1 |].
    apply (run_ok_stop B k1 _ evs1 (OutOfFuel : result A)); [exact Hok1 | reflexivity].
Qed.

Lemma ran_silent {A : Type} (B : R) (m : M D A) (w w' : world D) (a : A) :
  m w = (Returned a, w') -> trace w' = trace w -> ran B 0 m w.
Proof.
  intros Hrun Ht. exists []. rewrite Hrun. simpl. rewrite app_nil_r.
  split; [exact Ht |]. apply run_ok_returned; [constructor | reflexivity].
Qed.

Lemma ran_mono {A : Type} (B B' : R) (k : nat) (m : M D A) (w : world D) :
  B <= B' -> ran B k m w -> ran B' k m w.
Proof.
  intros HB (evs & Ht & HP & Hx & Hk). exists evs. split; [exact Ht |].
  split; [eapply Forall_event_allowed_mono; eassumption | auto].
Qed.

Lemma runs_mret {A : Type} (B : R) (a : A) : runs (D := D) B 0 (mret a).
Proof.
  intros w. exists []. simpl. rewrite app_nil_r. split; [reflexivity |].
  apply run_ok_returned; [constructor | reflexivity].
Qed.

Lemma runs_mbind {A A' : Type} (B : R) (k1 k2 : nat) (m : M D A)
    (f : A -> M D A') :
  runs B k1 m -> (forall a, runs B k2 (f a)) -> runs B (k1 + k2) (mbind m f).
Proof.
  intros Hm Hf w. apply ran_mbind; [apply Hm |]. intros a w1 _. apply Hf.
Qed.

Lemma runs_for_each {X : Type} (B : R) (k : nat) (body : X -> M D unit)
    (l : list X) :
  (forall x, runs B k (body x)) -> runs B (k * length l) (for_each l body).
Proof.
  intros Hb. unfold for_each. induction l as [| x l IH].
  - cbn [length foldM]. rewrite Nat.mul_0_r. apply runs_mret.
  - cbn [length foldM]. rewrite Nat.mul_succ_r, Nat.add_comm.
    apply runs_mbind; [apply Hb | intros []; exact IH].
Qed.

Lemma runs_emit (B : R) (e : event) (f : dev_state D -> dev_state D) :
  event_allowed B e -> is_activation e = false -> runs B 0 (emit e f).
Proof.
  intros He Ha w. exists [e]. split; [reflexivity |].
  apply run_ok_returned; [repeat constructor; exact He |].
  unfold activations. simpl. rewrite Ha. reflexivity.
Qed.

Lemma runs_measure (B : R) (samps : list complex) (freq : R) :
  runs (D := D) B 0 (measure samps freq).
Proof.
  intros w. eexists. split; [reflexivity |].
  apply run_ok_returned; [repeat constructor | reflexivity].
Qed.

Lemma capture_run_ok {A : Type} (B : R) (cevs : list event) (r : result A) :
  capture_ends cevs r -> run_ok B 1 cevs r.
Proof.
  intros Hcap. split; [eapply capture_reach; exact Hcap |]. split.
  - apply Hcap.
  - intros a _. eapply capture_activations; exact Hcap.
Qed.

Lemma runs_readSamps (B : R) (fuel : nat) :
  runs (D := D) B 1 (readSamps fuel SAMPS_PER_CAPTURE).
Proof.
  intros w. destruct (capture_run fuel w) as (r & w' & cevs & Hrun & Ht & _ & _ & Hcap).
  exists cevs. rewrite Hrun. split; [exact Ht |].
  apply capture_run_ok. exact Hcap.
Qed.

Lemma runs_prepare (B : R) (freq : R) : 0 <= B -> runs (D := D) B 0 (prepare freq).
Proof.
  intros HB. unfold prepare.
  apply (runs_mbind B 0 0); [apply runs_emit; [exact I | reflexivity] | intros _].
  apply (runs_mbind B 0 0); [apply runs_emit; [exact I | reflexivity] | intros _].
  change 0%nat with (0 * length channels)%nat.
  apply runs_for_each. intros ch.
  apply (runs_mbind B 0 0); [apply runs_emit; [exact I | reflexivity] | intros _].
  apply (runs_mbind B 0 0); [apply runs_emit; [exact I | reflexivity] | intros _].
  apply (runs_mbind B 0 0);
    [apply runs_emit;
       [split; [reflexivity | apply dc_reach_zero; exact HB] | reflexivity]
    | intros _].
  apply (runs_mbind B 0 0);
    [apply runs_emit; [apply iq_reach_one; exact HB | reflexivity] | intros _].
  apply runs_emit; [apply iq_reach_one; exact HB | reflexivity].
Qed.

Lemma runs_adjust_rx_gain (B : R) (fuel : nat) :
  runs (D := D) B 1 (adjust_rx_gain fuel).
Proof.
  unfold adjust_rx_gain.
  apply (runs_mbind B 0 1).
  { change 0%nat with (0 * length channels)%nat. apply runs_for_each.
    intros ch. apply runs_emit; [| reflexivity].
    simpl. unfold PGA_GAIN. repeat split; lra. }
  intros _. apply (runs_mbind B 1 0); [apply runs_readSamps | intros samps].
  change 0%nat with (0 * length channels)%nat. apply runs_for_each.
  intros ch. apply (runs_mbind B 0 0); [apply runs_measure | intros lvl].
  apply runs_emit; [| reflexivity].
  simpl. repeat split. rewrite py_min_Rmin. apply Rmin_l.
Qed.

(** ** The Rx stage *)

Lemma ran_rx_depths (fuel : nat) (best lv : ref) (depths : list Z)
    (w : world D) (s : rx_state) (B : R) :
  rx_stored best lv w s -> rx_reach B s ->
  ran (B + total_reach depths) (9 * length depths)
      (for_each depths (rx_depth fuel best lv)) w /\
  forall w', for_each depths (rx_depth fuel best lv) w = (Returned tt, w') ->
    exists s', rx_stored best lv w' s' /\ rx_reach (B + total_reach depths) s'.
Proof.
  intros HSt HB.
  destruct (rx_depths_sound fuel best lv depths w s HSt)
    as (r & w1 & evs & s' & Hrun & Ht & HSt' & Hsteps).
  destruct (rx_depths_reach depths s s' evs r B Hsteps HB) as [HB' HP].
  split.
  - exists evs. rewrite Hrun. simpl. split; [exact Ht |].
    split; [exact HP |]. split.
    + intros x ->. eapply rx_depths_failure. exact Hsteps.
    + intros [] ->. eapply rx_depths_activations. exact Hsteps.
  - intros w' Hrun'. rewrite Hrun in Hrun'. injection Hrun' as _ <-.
    exists s'. auto.
Qed.

Lemma ran_tail (B : R) (fuel : nat) (w : world D) :
  ran B (1 + 0)
      (mbind (readSamps fuel SAMPS_PER_CAPTURE) (fun _ => mret tt)) w.
Proof.
  apply runs_mbind; [apply runs_readSamps | intros _; apply runs_mret].
Qed.

Lemma runs_rx_iq_search (fuel : nat) :
  runs (D := D) (total_reach MAX_SEARCH_DEPTHS)
       (1 + (0 + (0 + (9 * length MAX_SEARCH_DEPTHS + (0 + (1 + 0))))))
       (rx_iq_search fuel).
Proof.
  set (T := total_reach MAX_SEARCH_DEPTHS).
  pose proof (total_reach_nonneg MAX_SEARCH_DEPTHS) as HT. fold T in HT.
  intros w. unfold rx_iq_search.
  apply ran_mbind; [apply runs_readSamps |]. intros _ w0 _.
  destruct (new_clist_run [of_float 1; of_float 1] w0)
    as (w1 & Hrun1 & Ht1 & Hf1 & Hb1 & _).
  apply ran_mbind; [eapply ran_silent; eassumption |].
  intros best w1' Hrun1'. rewrite Hrun1 in Hrun1'. injection Hrun1' as <- <-.
  destruct (new_flist_run [1; 1] w1) as (w2 & Hrun2 & Ht2 & Hc2 & Hl2 & _).
  apply ran_mbind; [eapply ran_silent; eassumption |].
  intros lv w2' Hrun2'. rewrite Hrun2 in Hrun2'. injection Hrun2' as <- <-.
  rewrite <- Hc2 in Hb1.
  set (best := length (clists w0)) in *. set (lv := length (flists w1)) in *.
  assert (HSt : rx_stored best lv w2 ((of_float 1, of_float 1), (1, 1)))
    by (split; assumption).
  assert (HB : rx_reach 0 ((of_float 1, of_float 1), (1, 1)))
    by (split; apply iq_reach_one; lra).
  destruct (ran_rx_depths fuel best lv MAX_SEARCH_DEPTHS w2 _ 0 HSt HB)
    as [Hran Hpost].
  rewrite Rplus_0_l in Hran, Hpost. fold T in Hran, Hpost.
  apply ran_mbind; [exact Hran |]. intros [] w3 Hrun3.
  destruct (Hpost w3 Hrun3) as ([[c0 c1] l] & [Hb3 _] & [Hr0 Hr1]).
  destruct (rx_apply_best_run best w3 c0 c1 Hb3) as (w4 & Hrun4 & Ht4).
  apply ran_mbind.
  - eexists. rewrite Hrun4. split; [exact Ht4 |].
    apply run_ok_returned; [| reflexivity].
    repeat (apply Forall_cons; [simpl; assumption |]). apply Forall_nil.
  - intros [] w4' _. apply ran_tail.
Qed.

(** ** The Tx stage *)

Lemma ran_tx_depths (fuel : nat) (bIq lIq bDc lDc : ref) (depths : list Z)
    (w : world D) (s : tx_state) (B : R) :
  bIq <> bDc -> lIq <> lDc ->
  tx_stored bIq lIq bDc lDc w s -> tx_reach B s ->
  ran (B + total_reach depths) (9 * length depths)
      (for_each depths (tx_depth fuel bIq lIq bDc lDc)) w /\
  forall w', for_each depths (tx_depth fuel bIq lIq bDc lDc) w = (Returned tt, w') ->
    exists s', tx_stored bIq lIq bDc lDc w' s' /\
               tx_reach (B + total_reach depths) s'.
Proof.
  intros Hnc Hnf HSt HB.
  destruct (tx_depths_sound fuel bIq lIq bDc lDc depths w s Hnc Hnf HSt)
    as (r & w1 & evs & s' & Hrun & Ht & HSt' & Hsteps).
  destruct (tx_depths_reach depths s s' evs r B Hsteps HB) as [HB' HP].
  split.
  - exists evs. rewrite Hrun. simpl. split; [exact Ht |].
    split; [exact HP |]. split.
    + intros x ->. eapply tx_depths_failure. exact Hsteps.
    + intros [] ->. eapply tx_depths_activations. exact Hsteps.
  - intros w' Hrun'. rewrite Hrun in Hrun'. injection Hrun' as _ <-.
    exists s'. auto.
Qed.

Lemma runs_tx_iq_dc_search (fuel : nat) :
  runs (D := D) (total_reach MAX_SEARCH_DEPTHS)
       (0 * length channels
        + (1 + (0 + (0 + (0 + (0 + (9 * length MAX_SEARCH_DEPTHS
                                    + (0 + (1 + 0)))))))))
       (tx_iq_dc_search fuel).
Proof.
  set (T := total_reach MAX_SEARCH_DEPTHS).
  pose proof (total_reach_nonneg MAX_SEARCH_DEPTHS) as HT. fold T in HT.
  intros w. unfold tx_iq_dc_search.
  apply ran_mbind.
  { apply runs_for_each. intros ch. apply runs_emit; [exact I | reflexivity]. }
  intros _ wc _.
  apply ran_mbind; [apply runs_readSamps |]. intros _ w0 _.
  destruct (new_clist_run [of_float 1; of_float 1] w0)
    as (w1 & Hrun1 & Ht1 & Hf1 & Hq1 & _).
  apply ran_mbind; [eapply ran_silent; eassumption |].
  intros bIq w1' Hrun1'. rewrite Hrun1 in Hrun1'. injection Hrun1' as <- <-.
  destruct (new_flist_run [1; 1] w1) as (w2 & Hrun2 & Ht2 & Hc2 & Ha2 & _).
  apply ran_mbind; [eapply ran_silent; eassumption |].
  intros lIq w2' Hrun2'. rewrite Hrun2 in Hrun2'. injection Hrun2' as <- <-.
  destruct (new_clist_run [of_float 0; of_float 0] w2)
    as (w3 & Hrun3 & Ht3 & Hf3 & Hd3 & Hold3).
  apply ran_mbind; [eapply ran_silent; eassumption |].
  intros bDc w3' Hrun3'. rewrite Hrun3 in Hrun3'. injection Hrun3' as <- <-.
  destruct (new_flist_run [1; 1] w3) as (w4 & Hrun4 & Ht4 & Hc4 & He4 & Hold4).
  apply ran_mbind; [eapply ran_silent; eassumption |].
  intros lDc w4' Hrun4'. rewrite Hrun4 in Hrun4'. injection Hrun4' as <- <-.
  rewrite <- Hc2 in Hq1.
  pose proof (store_get_valid _ _ _ Hq1) as Vq.
  apply Hold3 in Hq1. rewrite <- Hc4 in Hq1, Hd3.
  rewrite <- Hf3 in Ha2.
  pose proof (store_get_valid _ _ _ Ha2) as Va.
  apply Hold4 in Ha2.
  set (bIq := length (clists w0)) in *.
  set (lIq := length (flists w1)) in *.
  set (bDc := length (clists w2)) in *.
  set (lDc := length (flists w3)) in *.
  assert (Hnc : bIq <> bDc) by lia.
  assert (Hnf : lIq <> lDc) by lia.
  set (s0 := (((of_float 1, of_float 1), (1, 1)),
              ((of_float 0, of_float 0), (1, 1))) : tx_state).
  assert (HSt : tx_stored bIq lIq bDc lDc w4 s0).
  { split; split; assumption. }
  assert (HB : tx_reach 0 s0).
  { split; split; simpl; first [apply iq_reach_one | apply dc_reach_zero]; lra. }
  destruct (ran_tx_depths fuel bIq lIq bDc lDc MAX_SEARCH_DEPTHS w4 s0 0
              Hnc Hnf HSt HB) as [Hran Hpost].
  rewrite Rplus_0_l in Hran, Hpost. fold T in Hran, Hpost.
  apply ran_mbind; [exact Hran |]. intros [] w5 Hrun5.
  destruct (Hpost w5 Hrun5)
    as ([[q a] [d e]] & [[Hq5 _] [Hd5 _]] & [[Hr0 Hr1] [Hr2 Hr3]]).
  simpl in Hq5, Hd5, Hr0, Hr1, Hr2, Hr3.
  destruct (tx_apply_best_run bIq bDc w5 q d Hq5 Hd5) as (w6 & Hrun6 & Ht6).
  apply ran_mbind.
  - eexists. rewrite Hrun6. split; [exact Ht6 |].
    apply run_ok_returned; [| reflexivity].
    repeat (apply Forall_cons; [simpl; auto |]). apply Forall_nil.
  - intros [] w6' _. apply ran_tail.
Qed.

(** ** The whole calibration *)

Lemma runs_CalibrateAtFreq (fuel : nat) (freq : R) :
  runs (D := D) (511 / 1024) 167 (CalibrateAtFreq fuel freq).
Proof.
  rewrite <- total_reach_of_search.
  pose proof (total_reach_nonneg MAX_SEARCH_DEPTHS) as HT.
  unfold CalibrateAtFreq.
  change 167%nat with
    (0 + (1 + ((1 + (0 + (0 + (9 * length MAX_SEARCH_DEPTHS + (0 + (1 + 0))))))
               + (0 * length channels
                  + (1 + (0 + (0 + (0 + (0 + (9 * length MAX_SEARCH_DEPTHS
                                              + (0 + (1 + 0))))))))))))%nat.
  apply runs_mbind; [apply runs_prepare; exact HT | intros _].
  apply runs_mbind; [apply runs_adjust_rx_gain | intros _].
  apply runs_mbind; [apply runs_rx_iq_search | intros _].
  apply runs_tx_iq_dc_search.
Qed.

End Runs.

(** ** Devices *)

Lemma loud_calibration_returns (freq : R) :
  fst (CalibrateAtFreq SAMPS_PER_CAPTURE freq (fresh loud_device tt))
  = Returned tt.
Proof.
  apply CalibrateAtFreq_returns. apply loud_acquires. apply Nat.le_refl.
Qed.



(* ================================================================== *)
(** * Properties of the calibration                                    *)
(* ================================================================== *)

(** ** Test points *)

(** C2, as the code has it.  For every integer depth [D] from 2 to 1023
    [GenerateTestPoints(D)] raises nothing and yields
    [NUM_STEPS_PER_ITER * NUM_STEPS_PER_ITER] pairs (9 with the default 3);
    it pairs the list of DC deltas and the list of IQ deltas index by
    index, both lists having that same length; and in every pair the DC
    delta has real and imaginary part within [2^-D] of zero, and the IQ
    delta is [cmath.rect(2**gain, phase)] for a gain exponent within [2^-D]
    of zero and a phase within [(pi/2) 2^-D] of zero.  (The bounds are on
    the numbers handed to [cmath.rect]: the magnitude and phase read back
    from its result may fall one rounding step outside.) *)
Theorem GenerateTestPoints_grid (D : Z) :
  (2 <= D <= 1023)%Z ->
  GenerateTestPoints_py (Z.to_N D) = Points (GenerateTestPoints D) /\
  length (GenerateTestPoints D) = (NUM_STEPS_PER_ITER * NUM_STEPS_PER_ITER)%nat /\
  GenerateTestPoints D = combine (dcPoints D) (iqPoints D) /\
  length (dcPoints D) = (NUM_STEPS_PER_ITER * NUM_STEPS_PER_ITER)%nat /\
  length (iqPoints D) = (NUM_STEPS_PER_ITER * NUM_STEPS_PER_ITER)%nat /\
  forall dc iq, In (dc, iq) (GenerateTestPoints D) ->
    (Rabs (real dc) <= powerRZ 2 (- D) /\ Rabs (imag dc) <= powerRZ 2 (- D)) /\
    exists gain ph,
      iq = rect (pow2_float gain) ph /\
      Rabs gain <= powerRZ 2 (- D) /\
      Rabs ph <= (PI / 2) * powerRZ 2 (- D).
Proof.
  intros HD.
  assert (Hdc : length (dcPoints D) = 9%nat) by (rewrite dcPoints_grid; reflexivity).
  assert (Hiq : length (iqPoints D) = 9%nat) by (rewrite iqPoints_grid; reflexivity).
  split; [apply depth_in_range; lia |].
  split; [unfold GenerateTestPoints; rewrite length_combine, Hdc, Hiq; reflexivity |].
  split; [reflexivity |]. split; [exact Hdc |]. split; [exact Hiq |].
  intros dc iq Hin.
  pose proof (scale_pos D) as Hs. pose proof PI2_RGT_0 as Hpi.
  rewrite <- scale_as_power.
  assert (Habs : Rabs (scale D) = scale D) by (apply Rabs_right; lra).
  assert (Hph : Rabs (PI / 2 * scale D) = PI / 2 * scale D)
    by (apply Rabs_right; nra).
  unfold GenerateTestPoints in Hin. rewrite dcPoints_grid, iqPoints_grid in Hin.
  unfold offMax, gainMax, phaseMax in Hin. rewrite !Rmult_1_l in Hin.
  simpl in Hin.
  repeat (destruct Hin as [Hin | Hin];
          [ injection Hin as <- <-; split;
            [ simpl; rewrite ?Rabs_Ropp, ?Rabs_R0, ?Habs; lra
            | eexists; eexists; split; [reflexivity |];
              rewrite ?Rabs_Ropp, ?Rabs_R0, ?Habs, ?Hph; nra ]
          | ]).
  contradiction.
Qed.

(** The depth 2 satisfies the hypothesis of [GenerateTestPoints_grid]. *)
Lemma GenerateTestPoints_grid_at_2 :
  (2 <= 2 <= 1023)%Z /\
  GenerateTestPoints_py 2%N = Points (GenerateTestPoints 2) /\
  length (GenerateTestPoints 2) = 9%nat.
Proof.
  assert (H : (2 <= 2 <= 1023)%Z) by lia.
  split; [exact H |].
  destruct (GenerateTestPoints_grid 2 H) as (Hpy & Hlen & _).
  split; [exact Hpy | exact Hlen].
Defined.

(** C2, as stated, fails: the number of pairs is not [NUM_STEPS_PER_ITER]
    (3) but its square. *)
Lemma GenerateTestPoints_count_is_not_steps :
  length (GenerateTestPoints 2) <> NUM_STEPS_PER_ITER.
Proof.
  unfold GenerateTestPoints.
  rewrite dcPoints_grid, iqPoints_grid. simpl. unfold NUM_STEPS_PER_ITER. lia.
Qed.

(** C10, as the code has it.  For every integer depth [D] from 2 to 1023
    [GenerateTestPoints(D)] raises nothing and its pair of index 4 is the
    identity pair: DC delta [0+0j] and IQ delta [1+0j].  So when a depth of
    the Rx search returns, the setter calls of its fifth test point (calls
    8 and 9, counted from 0) apply, per channel, the depth-start best [b]
    taken through its polar form, [cmath.rect(abs(b), cmath.phase(b))];
    and when a depth of the Tx search returns, calls 16 to 19 apply the
    depth-start best IQ correction taken through its polar form and the
    depth-start best DC correction clamped, which is that correction
    itself when both its parts are in [-1, 1]. *)
Theorem identity_point_in_grid (D : Z) :
  (2 <= D <= 1023)%Z ->
  GenerateTestPoints_py (Z.to_N D) = Points (GenerateTestPoints D) /\
  nth_error (GenerateTestPoints D) 4 = Some (Complex 0 0, Complex 1 0) /\
  In (Complex 0 0, Complex 1 0) (GenerateTestPoints D) /\
  (forall (Dev : Device) (fuel : nat) (w : world Dev) (best lv : ref)
          (b : complex * complex) (l : R * R),
      holds (clists w) best b -> holds (flists w) lv l ->
      fst (rx_depth fuel best lv D w) = Returned tt ->
      let setters := filter is_setter (events_of (rx_depth fuel best lv D) w) in
      nth_error setters 8
        = Some (SetIQBalance SOAPY_SDR_RX 0
                  (rect (Cabs (fst b)) (phase (fst b)))) /\
      nth_error setters 9
        = Some (SetIQBalance SOAPY_SDR_RX 1
                  (rect (Cabs (snd b)) (phase (snd b))))) /\
  (forall (Dev : Device) (fuel : nat) (w : world Dev) (bIq lIq bDc lDc : ref)
          (q d : complex * complex) (a e : R * R),
      bIq <> bDc -> lIq <> lDc ->
      holds (clists w) bIq q -> holds (clists w) bDc d ->
      holds (flists w) lIq a -> holds (flists w) lDc e ->
      fst (tx_depth fuel bIq lIq bDc lDc D w) = Returned tt ->
      let setters :=
        filter is_setter (events_of (tx_depth fuel bIq lIq bDc lDc D) w) in
      nth_error setters 16
        = Some (SetIQBalance SOAPY_SDR_TX 0
                  (rect (Cabs (fst q)) (phase (fst q)))) /\
      nth_error setters 17
        = Some (SetDCOffset SOAPY_SDR_TX 0
                  (Complex (dc_clamp (real (fst d))) (dc_clamp (imag (fst d))))) /\
      nth_error setters 18
        = Some (SetIQBalance SOAPY_SDR_TX 1
                  (rect (Cabs (snd q)) (phase (snd q)))) /\
      nth_error setters 19
        = Some (SetDCOffset SOAPY_SDR_TX 1
                  (Complex (dc_clamp (real (snd d))) (dc_clamp (imag (snd d)))))) /\
  (forall d, in_box d ->
     Complex (dc_clamp (real d)) (dc_clamp (imag d)) = d).
Proof.
  intros HD.
  split; [apply depth_in_range; lia |].
  split; [apply identity_point_at_4 |].
  split; [eapply nth_error_In; apply identity_point_at_4 |].
  split; [intros; apply rx_depth_identity_candidates with (l := l); assumption |].
  split.
  - intros Dev fuel w bIq lIq bDc lDc q d a e Hnc Hnf Hq Hd Ha He Hret.
    apply (tx_depth_identity_candidates fuel bIq lIq bDc lDc D w q d a e);
      assumption.
  - intros d Hd. rewrite <- shifted_zero. apply shifted_zero_in_box. exact Hd.
Qed.

(** The depth 2 satisfies the hypothesis of [identity_point_in_grid]. *)
Lemma identity_point_in_grid_at_2 :
  (2 <= 2 <= 1023)%Z /\
  nth_error (GenerateTestPoints 2) 4 = Some (Complex 0 0, Complex 1 0).
Proof.
  assert (H : (2 <= 2 <= 1023)%Z) by lia.
  split; [exact H |].
  exact (proj1 (proj2 (identity_point_in_grid 2 H))).
Defined.

(** C10, as stated, fails: at the depth 1024, which is at least 2,
    [1.0/(2**depth)] raises OverflowError and [GenerateTestPoints] yields
    no pair. *)
Lemma GenerateTestPoints_overflows_at_1024 :
  (2 <= 1024)%Z /\
  GenerateTestPoints_py 1024%N = OverflowError /\
  forall l, GenerateTestPoints_py 1024%N <> Points l.
Proof.
  assert (H : GenerateTestPoints_py 1024%N = OverflowError).
  { unfold GenerateTestPoints_py. rewrite N.ltb_irrefl. reflexivity. }
  split; [lia |]. split; [exact H |]. intros l. rewrite H. discriminate.
Qed.

(** ** Tone level *)

(** C3 fails on the code.  For the two samples [1, 1], frequency 1 and rate
    8, the code multiplies sample 1 by [exp(-i pi/2)] (its ramp has
    [size] points from 0 to [size * step], ends included), where the claim
    has [exp(-i pi/4)]; the level the code returns, [20 log10 (sqrt (1/2))],
    is below the level of the claim's formula. *)
Theorem measureToneLevel_ramp_too_steep :
  measureToneLevel [of_float 1; of_float 1] 1 8 = 20 * log10 (sqrt (1 / 2)) /\
  measureToneLevel_spec [of_float 1; of_float 1] 1 8
    = 20 * log10 (sqrt ((1 + / sqrt 2) / 2)) /\
  measureToneLevel [of_float 1; of_float 1] 1 8
    < measureToneLevel_spec [of_float 1; of_float 1] 1 8.
Proof.
  rewrite measureToneLevel_two_ones, measureToneLevel_spec_two_ones.
  splits; try reflexivity.
  assert (H2 : 0 < / sqrt 2).
  { apply Rinv_0_lt_compat, sqrt_lt_R0. lra. }
  assert (Hlt : sqrt (1 / 2) < sqrt ((1 + / sqrt 2) / 2)).
  { apply sqrt_lt_1; lra. }
  pose proof (log10_increasing _ _ sqrt_half_pos Hlt). lra.
Qed.

(** ** The DC clamp *)

(** C7.  The clamp [max(min(x, 1.0), -1.0)] maps every real into [-1, 1] and
    leaves a clamped value as it is; so every Tx DC candidate has both parts
    in [-1, 1], and so has every DC correction that the test points of the
    Tx search apply to the device. *)
Theorem dc_clamp_keeps_candidates_in_box :
  (forall x, -1 <= dc_clamp x <= 1 /\ dc_clamp (dc_clamp x) = dc_clamp x) /\
  (forall dcPoint b, in_box (shifted dcPoint b)) /\
  forall (D : Device) (fuel : nat) (bIq lIq bDc lDc : ref) (depths : list Z)
         (w : world D),
    Forall dc_in_box
      (events_of (for_each depths (tx_depth fuel bIq lIq bDc lDc)) w).
Proof.
  splits.
  - intros x. split; [apply dc_clamp_range |].
    apply dc_clamp_fixed, dc_clamp_range.
  - intros dcPoint b. unfold in_box, shifted. simpl.
    split; apply dc_clamp_range.
  - intros D fuel bIq lIq bDc lDc depths w.
    destruct (tx_depths_dc_in_box fuel bIq lIq bDc lDc depths w)
      as (evs & Ht & HP & _).
    rewrite (events_of_eq _ _ _ Ht). exact HP.
Qed.

(** ** The base of the candidates *)

(** C1.  Take a world whose store holds the lists of best corrections and
    levels of the three searches, and run one depth of the Rx search and one
    depth of the Tx search from it.  The corrections the depth applies to the
    device are, in order and for every test point, the ones built on the
    corrections that the list of bests held when the depth began (IQ: the
    composition with the test point's IQ delta; DC: the clamped sum with its
    DC delta): all of them when the depth returns, the first of them when a
    capture fails.  The updates the depth makes to the list of bests do not
    change them. *)
Theorem candidates_built_on_depth_start (D : Device) (fuel : nat) (depth : Z)
    (w : world D) (best lv bIq lIq bDc lDc : ref)
    (b q d : complex * complex) (l a e : R * R) :
  holds (clists w) best b -> holds (flists w) lv l ->
  holds (clists w) bIq q -> holds (flists w) lIq a ->
  holds (clists w) bDc d -> holds (flists w) lDc e ->
  bIq <> bDc -> lIq <> lDc ->
  (exists rest,
      flat_map (rx_applied (fst b) (snd b)) (GenerateTestPoints depth)
        = filter is_setter (events_of (rx_depth fuel best lv depth) w) ++ rest /\
      (fst (rx_depth fuel best lv depth w) = Returned tt -> rest = [])) /\
  (exists rest,
      flat_map (tx_applied (fst q) (snd q) (fst d) (snd d))
               (GenerateTestPoints depth)
        = filter is_setter
            (events_of (tx_depth fuel bIq lIq bDc lDc depth) w) ++ rest /\
      (fst (tx_depth fuel bIq lIq bDc lDc depth w) = Returned tt -> rest = [])).
Proof.
  intros Hb Hl Hq Ha Hd He Hnc Hnf. split.
  - destruct (rx_depth_spec fuel best lv depth w _ _ _ _ Hb Hl)
      as (r & w' & evs & _ & _ & _ & _ & Hrun & Ht & (rest & Hset & Hrest) & _).
    exists rest. rewrite (events_of_run _ _ _ _ _ Hrun Ht), Hrun. auto.
  - destruct (tx_depth_spec fuel bIq lIq bDc lDc depth w q d a e
                Hnc Hnf Hq Hd Ha He)
      as (r & w' & evs & _ & _ & _ & _ & Hrun & Ht & (rest & Hset & Hrest) & _).
    exists rest. rewrite (events_of_run _ _ _ _ _ Hrun Ht), Hrun. auto.
Qed.

(** [candidates_built_on_depth_start] at depth 2 on the quiet device.  The
    first test point replaces the best corrections (the stored bests end the
    depth different from 1.0), and all nine test points are still composed
    with the 1.0 that the list held when the depth began. *)
Lemma candidates_built_on_depth_start_at_2 :
  let w := search_world quiet_device tt in
  holds (clists w) 0%nat (of_float 1, of_float 1) /\
  holds (flists w) 0%nat (1, 1) /\
  holds (clists w) 1%nat (of_float 1, of_float 1) /\
  holds (flists w) 1%nat (1, 1) /\
  holds (clists w) 2%nat (of_float 0, of_float 0) /\
  holds (flists w) 2%nat (1, 1) /\
  1%nat <> 2%nat /\
  filter is_setter (events_of (rx_depth SAMPS_PER_CAPTURE 0%nat 0%nat 2) w)
    = flat_map (rx_applied (of_float 1) (of_float 1)) (GenerateTestPoints 2) /\
  exists c,
    holds (clists (snd (rx_depth SAMPS_PER_CAPTURE 0%nat 0%nat 2 w))) 0%nat (c, c) /\
    c <> of_float 1.
Proof.
  intros w.
  assert (H12 : 1%nat <> 2%nat) by discriminate.
  pose proof (candidates_built_on_depth_start quiet_device SAMPS_PER_CAPTURE 2 w
                0%nat 0%nat 1%nat 1%nat 2%nat 2%nat
                (of_float 1, of_float 1) (of_float 1, of_float 1)
                (of_float 0, of_float 0) (1, 1) (1, 1) (1, 1)
                eq_refl eq_refl eq_refl eq_refl eq_refl eq_refl H12 H12)
    as [(rest & Hrx & Hret) _].
  destruct first_iq_point_of_depth_2 as (p & points & Hpts & Hne).
  destruct (quiet_rx_depth_moves_best 0%nat 0%nat 2 w (of_float 1) (of_float 1)
              p points Hpts eq_refl eq_refl) as (w' & Hrun & Hbest).
  repeat (split; [reflexivity || exact H12 |]).
  split.
  - rewrite Hrun in Hret. rewrite (Hret eq_refl), app_nil_r in Hrx.
    symmetry. exact Hrx.
  - exists (composed (snd p) (of_float 1)). rewrite Hrun.
    split; [exact Hbest | exact Hne].
Defined.

(** ** The best level *)

(** C4.  Take a world whose store holds the lists of best corrections and
    levels of the three searches.  One comparison replaces the best level
    and the best correction together, and only when the measured level is
    strictly lower, the new best level being that lower level; at a tie or
    a higher level it keeps both.  The comparison loop of a test point does
    this for each channel and each tracked best.  Across the whole loop over
    the depths, returned or not, each best level ends at or below where it
    began, and where it ends the same the correction is the same. *)
Theorem best_level_only_improves (D : Device) (fuel : nat) (depths : list Z)
    (w : world D) (best lv bIq lIq bDc lDc : ref)
    (b q d : complex * complex) (l a e : R * R) :
  holds (clists w) best b -> holds (flists w) lv l ->
  holds (clists w) bIq q -> holds (flists w) lIq a ->
  holds (clists w) bDc d -> holds (flists w) lDc e ->
  bIq <> bDc -> lIq <> lDc ->
  (forall lvl l0 n b0,
      (lvl < l0 ->
       better lvl l0 n b0 = n /\ lower lvl l0 = lvl /\ lower lvl l0 < l0) /\
      (l0 <= lvl -> better lvl l0 n b0 = b0 /\ lower lvl l0 = l0)) /\
  (forall n0 n1 samps,
      let w' := snd (rx_keep_best best lv [n0; n1] samps w) in
      let m0 := measureToneLevel (nth 0 samps []) (- TX_FREQ_DELTA) SAMPLE_RATE in
      let m1 := measureToneLevel (nth 1 samps []) (- TX_FREQ_DELTA) SAMPLE_RATE in
      holds (clists w') best
        (better m0 (fst l) n0 (fst b), better m1 (snd l) n1 (snd b)) /\
      holds (flists w') lv (lower m0 (fst l), lower m1 (snd l))) /\
  (forall n0 n1 k0 k1 samps,
      let w' :=
        snd (tx_keep_best bIq lIq bDc lDc [n0; n1] [k0; k1] samps w) in
      holds (clists w') bIq
        (better (tx_iq_level samps 0) (fst a) n0 (fst q),
         better (tx_iq_level samps 1) (snd a) n1 (snd q)) /\
      holds (flists w') lIq
        (lower (tx_iq_level samps 0) (fst a),
         lower (tx_iq_level samps 1) (snd a)) /\
      holds (clists w') bDc
        (better (tx_dc_level samps 0) (fst e) k0 (fst d),
         better (tx_dc_level samps 1) (snd e) k1 (snd d)) /\
      holds (flists w') lDc
        (lower (tx_dc_level samps 0) (fst e),
         lower (tx_dc_level samps 1) (snd e))) /\
  (exists b' l',
      holds (clists (snd (for_each depths (rx_depth fuel best lv) w))) best b' /\
      holds (flists (snd (for_each depths (rx_depth fuel best lv) w))) lv l' /\
      progress2 b l b' l'
        (events_of (for_each depths (rx_depth fuel best lv)) w)) /\
  (exists q' a' d' e',
      let w' := snd (for_each depths (tx_depth fuel bIq lIq bDc lDc) w) in
      holds (clists w') bIq q' /\ holds (flists w') lIq a' /\
      holds (clists w') bDc d' /\ holds (flists w') lDc e' /\
      progress2 q a q' a'
        (events_of (for_each depths (tx_depth fuel bIq lIq bDc lDc)) w) /\
      progress2 d e d' e'
        (events_of (for_each depths (tx_depth fuel bIq lIq bDc lDc)) w)).
Proof.
  intros Hb Hl Hq Ha Hd He Hnc Hnf. splits.
  - intros lvl l0 n b0. unfold better, lower.
    destruct (Rlt_dec lvl l0); split; intros; splits; auto; lra.
  - intros n0 n1 samps.
    destruct (rx_keep_best_run best lv n0 n1 samps w _ _ _ _ Hb Hl)
      as (w' & Hrun & _ & _ & Hc & Hf).
    rewrite Hrun. simpl. rewrite Hc, Hf. unfold holds. simpl.
    split; eapply store_get_set_eq; eauto.
  - intros n0 n1 k0 k1 samps.
    destruct (tx_keep_best_run bIq lIq bDc lDc n0 n1 k0 k1 samps w
                _ _ _ _ _ _ _ _ Hnc Hnf Hq Hd Ha He)
      as (w' & Hrun & _ & _ & H1 & H2 & H3 & H4 & _).
    rewrite Hrun. simpl. unfold holds. simpl. auto.
  - destruct (rx_depths_spec fuel best lv depths w _ _ _ _ Hb Hl)
      as (r & w' & evs & b0' & b1' & l0' & l1' & Hrun & Ht & Hb' & Hl'
          & Hp0 & Hp1 & _).
    exists (b0', b1'), (l0', l1').
    rewrite (events_of_run _ _ _ _ _ Hrun Ht), Hrun. simpl.
    unfold holds, progress2. simpl. auto.
  - destruct (tx_depths_spec fuel bIq lIq bDc lDc Hnc Hnf depths w q d a e
                Hq Hd Ha He)
      as (r & w' & evs & q' & d' & a' & e' & Hrun & Ht & Hq' & Hd' & Ha' & He'
          & Hp1 & Hp2 & _).
    exists q', a', d', e'.
    rewrite (events_of_run _ _ _ _ _ Hrun Ht), Hrun. simpl. splits; assumption.
Qed.

(** [best_level_only_improves] over all the depths on the loud device. *)
Lemma best_level_only_improves_on_loud_device :
  let w := search_world loud_device tt in
  holds (clists w) 0%nat (of_float 1, of_float 1) /\
  holds (flists w) 0%nat (1, 1) /\
  holds (clists w) 1%nat (of_float 1, of_float 1) /\
  holds (flists w) 1%nat (1, 1) /\
  holds (clists w) 2%nat (of_float 0, of_float 0) /\
  holds (flists w) 2%nat (1, 1) /\
  1%nat <> 2%nat /\
  exists b' l',
    holds (flists (snd (for_each MAX_SEARCH_DEPTHS
                          (rx_depth SAMPS_PER_CAPTURE 0%nat 0%nat) w)))
          0%nat l' /\
    progress2 (of_float 1, of_float 1) (1, 1) b' l'
      (events_of (for_each MAX_SEARCH_DEPTHS
                    (rx_depth SAMPS_PER_CAPTURE 0%nat 0%nat)) w).
Proof.
  intros w.
  assert (H12 : 1%nat <> 2%nat) by discriminate.
  pose proof (best_level_only_improves loud_device SAMPS_PER_CAPTURE
                MAX_SEARCH_DEPTHS w
                0%nat 0%nat 1%nat 1%nat 2%nat 2%nat
                (of_float 1, of_float 1) (of_float 1, of_float 1)
                (of_float 0, of_float 0) (1, 1) (1, 1) (1, 1)
                eq_refl eq_refl eq_refl eq_refl eq_refl eq_refl H12 H12)
    as (_ & _ & _ & (b' & l' & _ & Hl' & Hp) & _).
  repeat (split; [reflexivity || exact H12 |]).
  exists b', l'. split; [exact Hl' | exact Hp].
Defined.

(** ** Reading samples *)

(** C5, as the code has it.  [readSamps] activates the stream and then
    issues its reads: each read asks for exactly what is still missing, is
    issued only while something is missing, and is answered by the device
    in turn ([reads] is the replay of the device from the state the
    activation left).  It raises exactly when a read it issued reported a
    negative status: that read is the last one, the exception carries its
    status, and no block is returned.  When it returns, nothing is missing,
    and it returns the two buffers as the answers filled them, each less
    its mean ([remove_dc]), each of exactly [numSamps] samples.  When the
    budget of reads runs out, something is still missing.  It does return,
    within [numSamps] reads, when every read that asks for at least one
    sample delivers at least one. *)
Theorem readSamps_collects (D : Device) (fuel numSamps : nat) (w : world D) :
  let st := dev_activateStream D numSamps (hw w) in
  let zeros := repeat (Complex 0 0) numSamps in
  (exists reads,
      events_of (readSamps fuel numSamps) w = ActivateStream numSamps :: reads /\
      (length reads <= fuel)%nat /\
      reads = answered (requests reads) (stream_replay D st (requests reads)) /\
      ((exists x, fst (readSamps fuel numSamps w) = Raised x)
       <-> read_failed reads) /\
      match fst (readSamps fuel numSamps w) with
      | Returned samps =>
          missing_after numSamps reads = Some 0%nat /\
          let ab :=
            collected zeros zeros 0 (stream_replay D st (requests reads)) in
          samps = [remove_dc (fst ab); remove_dc (snd ab)] /\
          length (remove_dc (fst ab)) = numSamps /\
          length (remove_dc (snd ab)) = numSamps
      | Raised x =>
          exists pre n s,
            reads = pre ++ [ReadStream n s] /\
            missing_after numSamps pre = Some n /\
            (0 < n)%nat /\ (s < 0)%Z /\ x = StreamError s
      | OutOfFuel =>
          exists k, missing_after numSamps reads = Some k /\
                    (0 < k)%nat /\ length reads = fuel
      end) /\
  (delivers D -> (numSamps <= fuel)%nat ->
   exists samps, fst (readSamps fuel numSamps w) = Returned samps).
Proof.
  intros st zeros.
  destruct (readSamps_run fuel numSamps w)
    as (r & w' & reads & Hrun & Ht & _ & _ & Hlen & Hans & Hr).
  fold st in Hans, Hr. fold zeros in Hr.
  split.
  - exists reads. rewrite (events_of_run _ _ _ _ _ Hrun Ht), Hrun. simpl fst.
    split; [reflexivity |]. split; [exact Hlen |]. split; [exact Hans |].
    split.
    + destruct r as [samps | x |].
      * destruct Hr as [Hm _]. split; [intros (x & Hx); discriminate |].
        intros Hf. exfalso.
        exact (reads_nonneg_not_failed _ (missing_after_nonneg _ _ _ Hm) Hf).
      * split; [| intros _; exists x; reflexivity]. intros _.
        destruct Hr as (pre & n & s & -> & _ & _ & Hs & _).
        exists n, s. split; [apply in_or_app; right; left; reflexivity | exact Hs].
      * destruct Hr as (k & Hm & _). split; [intros (x & Hx); discriminate |].
        intros Hf. exfalso.
        exact (reads_nonneg_not_failed _ (missing_after_nonneg _ _ _ Hm) Hf).
    + destruct r as [samps | x |]; [| exact Hr | exact Hr].
      destruct Hr as [Hm Hs]. split; [exact Hm |]. cbv zeta in Hs |- *.
      split; [exact Hs |].
      destruct (length_collected
                  (stream_replay D st (requests reads)) zeros zeros 0%nat)
        as [H0 H1].
      rewrite !length_remove_dc, H0, H1. unfold zeros.
      rewrite repeat_length. split; reflexivity.
  - intros Hdel Hfuel.
    destruct (readSamps_returns fuel numSamps w Hdel Hfuel) as (samps & w2 & H).
    rewrite H. exists samps. reflexivity.
Qed.

(** [readSamps_collects] on a stream that delivers six samples in three
    chunks of two, one and three samples: the reads ask for 6, 4 and 3
    samples, and the block returned is the three chunks in a row, less
    their mean.  And on the loud device, which delivers at every read, a
    capture of two samples returns. *)
Lemma readSamps_collects_three_chunks :
  let c1 := [of_float 1; of_float 2] in
  let c2 := [of_float 3] in
  let c3 := [of_float 4; of_float 5; of_float 6] in
  let w := fresh scripted_device [(c1, c1); (c2, c2); (c3, c3)] in
  events_of (readSamps 3 6) w
  = [ActivateStream 6; ReadStream 6 2; ReadStream 4 1; ReadStream 3 3] /\
  fst (readSamps 3 6 w)
  = Returned [remove_dc (c1 ++ c2 ++ c3); remove_dc (c1 ++ c2 ++ c3)] /\
  delivers loud_device /\ (2 <= 2)%nat /\
  exists samps, fst (readSamps 2 2 (fresh loud_device tt)) = Returned samps.
Proof.
  intros c1 c2 c3 w.
  assert (Hev : events_of (readSamps 3 6) w
                = [ActivateStream 6; ReadStream 6 2; ReadStream 4 1;
                   ReadStream 3 3]) by reflexivity.
  assert (Hret : exists samps, fst (readSamps 3 6 w) = Returned samps)
    by (eexists; reflexivity).
  split; [exact Hev |].
  destruct (readSamps_collects scripted_device 3 6 w)
    as [(reads & Hreads & _ & _ & _ & Hout) _].
  rewrite Hev in Hreads. injection Hreads as <-.
  destruct Hret as (samps & Hret). rewrite Hret in Hout |- *.
  destruct Hout as (_ & -> & _).
  split; [reflexivity |].
  split; [exact loud_delivers |]. split; [apply Nat.le_refl |].
  exact (proj2 (readSamps_collects loud_device 2 2 (fresh loud_device tt))
           loud_delivers (Nat.le_refl 2)).
Defined.

(** C5, as stated, fails: on a stream whose every read reports zero samples
    (a non-negative count), [readSamps] neither returns nor raises, whatever
    the number of reads it is allowed. *)
Lemma readSamps_stalls :
  (forall n st, (0 <= ret (fst (dev_readStream stalled_device n st)))%Z) /\
  (forall fuel, fst (readSamps fuel 1 (fresh stalled_device tt)) = OutOfFuel).
Proof.
  split; [intros n st; simpl; lia |].
  intros fuel. unfold readSamps, mbind at 1, activateStream, emit.
  set (w1 := {| hw := _; trace := _; clists := _; flists := _ |}).
  pose proof (stalled_loop fuel (repeat (Complex 0 0) 1) (repeat (Complex 0 0) 1)
                w1 ltac:(discriminate)) as H.
  unfold mbind.
  destruct (read_loop fuel (repeat (Complex 0 0) 1) (repeat (Complex 0 0) 1) 0 w1)
    as [[ab | x |] w2]; simpl in H; try discriminate. reflexivity.
Qed.

(** ** The Rx gain *)

(** C8.  When the gain adjustment returns, its calls are these, in order:
    PGA set to [PGA_GAIN] on both channels; the reads of one capture; then
    for channel 0 and for channel 1 one measurement of the level [lvl] of
    the tone at [TX_FREQ_DELTA] in the captured block and one call setting
    PGA to [min(19, PGA_GAIN + (-10 - lvl))].  No level is measured twice
    and no gain is set again. *)
Theorem rx_gain_adjusted_once (D : Device) (fuel : nat) (w : world D) :
  fst (adjust_rx_gain fuel w) = Returned tt ->
  exists reads samps,
    @captured D fuel samps /\ Forall is_stream reads /\
    let lvl0 := measureToneLevel (nth 0 samps []) TX_FREQ_DELTA SAMPLE_RATE in
    let lvl1 := measureToneLevel (nth 1 samps []) TX_FREQ_DELTA SAMPLE_RATE in
    events_of (adjust_rx_gain fuel) w =
      [SetGain SOAPY_SDR_RX 0 "PGA" PGA_GAIN;
       SetGain SOAPY_SDR_RX 1 "PGA" PGA_GAIN]
      ++ reads ++
      [Measured TX_FREQ_DELTA lvl0;
       SetGain SOAPY_SDR_RX 0 "PGA" (Rmin 19 (PGA_GAIN + (-10 - lvl0)));
       Measured TX_FREQ_DELTA lvl1;
       SetGain SOAPY_SDR_RX 1 "PGA" (Rmin 19 (PGA_GAIN + (-10 - lvl1)))].
Proof.
  destruct (adjust_rx_gain_spec fuel w) as (r & w' & evs & Hrun & Ht & _ & Hret).
  rewrite (events_of_run _ _ _ _ _ Hrun Ht), Hrun. simpl.
  intros Hr. destruct (Hret Hr) as (reads & samps & Hc & Hs & Hev).
  exists reads, samps. splits; auto.
Qed.

Lemma loud_adjust_rx_gain_returns :
  fst (adjust_rx_gain SAMPS_PER_CAPTURE (fresh loud_device tt)) = Returned tt.
Proof.
  destruct (adjust_rx_gain_spec SAMPS_PER_CAPTURE (fresh loud_device tt))
    as (r & w' & evs & Hrun & _ & Hacq & _).
  rewrite Hrun. simpl. apply Hacq, loud_acquires, Nat.le_refl.
Qed.

(** [rx_gain_adjusted_once] on the loud device. *)
Lemma rx_gain_adjusted_once_on_loud_device :
  fst (adjust_rx_gain SAMPS_PER_CAPTURE (fresh loud_device tt)) = Returned tt /\
  exists reads samps,
    @captured loud_device SAMPS_PER_CAPTURE samps /\ Forall is_stream reads /\
    let lvl0 := measureToneLevel (nth 0 samps []) TX_FREQ_DELTA SAMPLE_RATE in
    let lvl1 := measureToneLevel (nth 1 samps []) TX_FREQ_DELTA SAMPLE_RATE in
    events_of (adjust_rx_gain SAMPS_PER_CAPTURE) (fresh loud_device tt) =
      [SetGain SOAPY_SDR_RX 0 "PGA" PGA_GAIN;
       SetGain SOAPY_SDR_RX 1 "PGA" PGA_GAIN]
      ++ reads ++
      [Measured TX_FREQ_DELTA lvl0;
       SetGain SOAPY_SDR_RX 0 "PGA" (Rmin 19 (PGA_GAIN + (-10 - lvl0)));
       Measured TX_FREQ_DELTA lvl1;
       SetGain SOAPY_SDR_RX 1 "PGA" (Rmin 19 (PGA_GAIN + (-10 - lvl1)))].
Proof.
  split; [exact loud_adjust_rx_gain_returns |].
  exact (rx_gain_adjusted_once loud_device SAMPS_PER_CAPTURE
           (fresh loud_device tt) loud_adjust_rx_gain_returns).
Defined.

(** ** Levels that never go below 1 dB *)

(** C9.  The best levels start at 1.0 and never exceed it.  In the loop
    over the depths of the Rx search, started from any world whose best
    levels are at most 1.0, every test point goes as [rx_point_outcome]
    says: each channel compares the level measured on its own block at
    [-TX_FREQ_DELTA] with its own best level, and its candidate is
    recorded, with that level, only when the level is strictly below the
    best level and so strictly below 1.0; otherwise correction and level
    are kept.  When the Rx stage returns, its search ran this way from the
    corrections 1.0 and the levels 1.0, the last calls that set a
    correction apply the final bests, a final correction other than 1.0
    means that a level strictly below 1.0 was measured in the stage, and
    if no level measured in the stage is below 1.0 the final corrections
    are 1.0 on both channels.  The same holds for the Tx stage
    ([tx_point_outcome]): the IQ candidate of a channel is compared on the
    level of that channel's IQ tone with the best IQ level, the DC
    candidate on the level of the DC tone with the best DC level, and the
    initial corrections are 1.0 (IQ) and 0.0 (DC). *)
Theorem identity_kept_without_level_below_one (D : Device) (fuel : nat)
    (w : world D) :
  (forall (best lv : ref) (depths : list Z) (s : rx_state),
      rx_stored best lv w s -> rx_below_one s ->
      exists s',
        rx_stored best lv (snd (for_each depths (rx_depth fuel best lv) w)) s' /\
        rx_below_one s' /\
        steps (rx_depth_outcome D fuel) depths s
          (events_of (for_each depths (rx_depth fuel best lv)) w)
          (fst (for_each depths (rx_depth fuel best lv) w)) s') /\
  (fst (rx_iq_search fuel w) = Returned tt ->
   exists init search post c0 c1 l0 l1,
     events_of (rx_iq_search fuel) w =
       (init ++ search)
       ++ [SetIQBalance SOAPY_SDR_RX 0 c0; SetIQBalance SOAPY_SDR_RX 1 c1]
       ++ post /\
     Forall is_stream init /\ Forall is_stream post /\
     steps (rx_depth_outcome D fuel) MAX_SEARCH_DEPTHS
           ((of_float 1, of_float 1), (1, 1)) search (Returned tt)
           ((c0, c1), (l0, l1)) /\
     (c0 <> of_float 1 \/ c1 <> of_float 1 ->
      exists f lvl, In (Measured f lvl) search /\ lvl < 1) /\
     ((forall f lvl, In (Measured f lvl) search -> 1 <= lvl) ->
      c0 = of_float 1 /\ c1 = of_float 1)) /\
  (forall (bIq lIq bDc lDc : ref) (depths : list Z) (s : tx_state),
      bIq <> bDc -> lIq <> lDc ->
      tx_stored bIq lIq bDc lDc w s -> tx_below_one s ->
      exists s',
        tx_stored bIq lIq bDc lDc
          (snd (for_each depths (tx_depth fuel bIq lIq bDc lDc) w)) s' /\
        tx_below_one s' /\
        steps (tx_depth_outcome D fuel) depths s
          (events_of (for_each depths (tx_depth fuel bIq lIq bDc lDc)) w)
          (fst (for_each depths (tx_depth fuel bIq lIq bDc lDc) w)) s') /\
  (fst (tx_iq_dc_search fuel w) = Returned tt ->
   exists init search post q0 q1 d0 d1 a e,
     events_of (tx_iq_dc_search fuel) w =
       ([SetFrequency SOAPY_SDR_TX 0 "BB" (nth 0 TX_CORDIC_FREQ 0);
         SetFrequency SOAPY_SDR_TX 1 "BB" (nth 1 TX_CORDIC_FREQ 0)]
        ++ init ++ search)
       ++ [SetIQBalance SOAPY_SDR_TX 0 q0; SetDCOffset SOAPY_SDR_TX 0 d0;
           SetIQBalance SOAPY_SDR_TX 1 q1; SetDCOffset SOAPY_SDR_TX 1 d1]
       ++ post /\
     Forall is_stream init /\ Forall is_stream post /\
     steps (tx_depth_outcome D fuel) MAX_SEARCH_DEPTHS
           (((of_float 1, of_float 1), (1, 1)),
            ((of_float 0, of_float 0), (1, 1)))
           search (Returned tt) (((q0, q1), a), ((d0, d1), e)) /\
     (q0 <> of_float 1 \/ q1 <> of_float 1 \/
      d0 <> of_float 0 \/ d1 <> of_float 0 ->
      exists f lvl, In (Measured f lvl) search /\ lvl < 1) /\
     ((forall f lvl, In (Measured f lvl) search -> 1 <= lvl) ->
      q0 = of_float 1 /\ q1 = of_float 1 /\
      d0 = of_float 0 /\ d1 = of_float 0)).
Proof.
  split; [| split; [| split]].
  - intros best lv depths s Hst Hle.
    destruct (rx_depths_records fuel best lv depths w s (conj Hst Hle))
      as (r & w' & evs & s' & Hrun & Ht & [Hst' Hle'] & Hsteps).
    rewrite (events_of_run _ _ _ _ _ Hrun Ht), Hrun. exists s'. auto.
  - intros Hr.
    destruct (rx_iq_search fuel w) as [r w'] eqn:Hrun. simpl in Hr. subst r.
    destruct (rx_iq_search_records fuel w w' Hrun)
      as (init & search & post & c0 & c1 & l0 & l1 & Ht & Hi & Hp & Hsteps
          & Hp0 & Hp1).
    rewrite (events_of_run _ _ _ _ _ Hrun Ht).
    destruct (progress_from_one _ _ _ _ Hp0) as [Hn0 Ha0].
    destruct (progress_from_one _ _ _ _ Hp1) as [Hn1 Ha1].
    exists init, search, post, c0, c1, l0, l1.
    repeat split; auto. intros [H | H]; auto.
  - intros bIq lIq bDc lDc depths s Hnc Hnf Hst Hle.
    destruct (tx_depths_records fuel bIq lIq bDc lDc depths w s Hnc Hnf
                (conj Hst Hle))
      as (r & w' & evs & s' & Hrun & Ht & [Hst' Hle'] & Hsteps).
    rewrite (events_of_run _ _ _ _ _ Hrun Ht), Hrun. exists s'. auto.
  - intros Hr.
    destruct (tx_iq_dc_search fuel w) as [r w'] eqn:Hrun. simpl in Hr. subst r.
    destruct (tx_iq_dc_search_records fuel w w' Hrun)
      as (init & search & post & [q0 q1] & [d0 d1] & a & e & Ht & Hi & Hp
          & Hsteps & [Hq0 Hq1] & [Hd0 Hd1]).
    rewrite (events_of_run _ _ _ _ _ Hrun Ht).
    simpl fst in *. simpl snd in *.
    destruct (progress_from_one _ _ _ _ Hq0) as [Hnq0 Haq0].
    destruct (progress_from_one _ _ _ _ Hq1) as [Hnq1 Haq1].
    destruct (progress_from_one _ _ _ _ Hd0) as [Hnd0 Had0].
    destruct (progress_from_one _ _ _ _ Hd1) as [Hnd1 Had1].
    exists init, search, post, q0, q1, d0, d1, a, e.
    repeat split; auto. intros [H | [H | [H | H]]]; auto.
Qed.

Lemma loud_measured_levels (fuel : nat) (evs : list event) :
  Forall (measured_from_capture loud_device fuel) evs ->
  forall f lvl, In (Measured f lvl) evs -> 1 <= lvl.
Proof.
  intros Hall f lvl Hin.
  rewrite Forall_forall in Hall. specialize (Hall _ Hin). simpl in Hall.
  destruct Hall as (samps & ch & Hc & Hch & Hf & ->).
  eapply loud_levels; eauto.
Qed.

Lemma loud_rx_search_returns :
  fst (rx_iq_search SAMPS_PER_CAPTURE (fresh loud_device tt)) = Returned tt.
Proof.
  destruct (rx_iq_search_spec SAMPS_PER_CAPTURE (fresh loud_device tt))
    as (r & w' & evs & Hrun & _ & Hacq & _).
  rewrite Hrun. simpl. apply Hacq, loud_acquires, Nat.le_refl.
Qed.

Lemma loud_tx_search_returns :
  fst (tx_iq_dc_search SAMPS_PER_CAPTURE (fresh loud_device tt)) = Returned tt.
Proof.
  destruct (tx_iq_dc_search_spec SAMPS_PER_CAPTURE (fresh loud_device tt))
    as (r & w' & evs & Hrun & _ & Hacq & _).
  rewrite Hrun. simpl. apply Hacq, loud_acquires, Nat.le_refl.
Qed.

Lemma loud_rx_search_levels (f lvl : R) :
  In (Measured f lvl)
     (events_of (rx_iq_search SAMPS_PER_CAPTURE) (fresh loud_device tt)) ->
  1 <= lvl.
Proof.
  destruct (rx_iq_search_from_capture (D := loud_device) SAMPS_PER_CAPTURE
              (fresh loud_device tt)) as (evs & Ht & HP & _).
  rewrite (events_of_eq _ _ _ Ht).
  apply (loud_measured_levels SAMPS_PER_CAPTURE). exact HP.
Qed.

Lemma loud_tx_search_levels (f lvl : R) :
  In (Measured f lvl)
     (events_of (tx_iq_dc_search SAMPS_PER_CAPTURE) (fresh loud_device tt)) ->
  1 <= lvl.
Proof.
  destruct (tx_iq_dc_search_from_capture (D := loud_device) SAMPS_PER_CAPTURE
              (fresh loud_device tt)) as (evs & Ht & HP & _).
  rewrite (events_of_eq _ _ _ Ht).
  apply (loud_measured_levels SAMPS_PER_CAPTURE). exact HP.
Qed.

(** [identity_kept_without_level_below_one] on the loud device: both stages
    return, every level they measure is at least 1 dB, and the corrections
    they apply at the end are the initial ones. *)
Lemma identity_kept_on_loud_device :
  let w := fresh loud_device tt in
  fst (rx_iq_search SAMPS_PER_CAPTURE w) = Returned tt /\
  fst (tx_iq_dc_search SAMPS_PER_CAPTURE w) = Returned tt /\
  (exists pre post,
      events_of (rx_iq_search SAMPS_PER_CAPTURE) w =
        pre ++ [SetIQBalance SOAPY_SDR_RX 0 (of_float 1);
                SetIQBalance SOAPY_SDR_RX 1 (of_float 1)] ++ post /\
      forall f lvl, In (Measured f lvl) pre -> 1 <= lvl) /\
  (exists pre post,
      events_of (tx_iq_dc_search SAMPS_PER_CAPTURE) w =
        pre ++ [SetIQBalance SOAPY_SDR_TX 0 (of_float 1);
                SetDCOffset SOAPY_SDR_TX 0 (of_float 0);
                SetIQBalance SOAPY_SDR_TX 1 (of_float 1);
                SetDCOffset SOAPY_SDR_TX 1 (of_float 0)] ++ post /\
      forall f lvl, In (Measured f lvl) pre -> 1 <= lvl).
Proof.
  intros w.
  destruct (identity_kept_without_level_below_one loud_device
              SAMPS_PER_CAPTURE w) as (_ & Hrx & _ & Htx).
  split; [exact loud_rx_search_returns |].
  split; [exact loud_tx_search_returns |].
  split.
  - destruct (Hrx loud_rx_search_returns)
      as (init & search & post & c0 & c1 & l0 & l1 & Hev & _ & _ & _ & _ & Hid).
    assert (Hall : forall f lvl, In (Measured f lvl) (init ++ search) -> 1 <= lvl).
    { intros f lvl Hin. apply (loud_rx_search_levels f lvl).
      fold w. rewrite Hev. apply in_or_app. left. exact Hin. }
    destruct Hid as [H0 H1].
    { intros f lvl Hin. apply (Hall f lvl). apply in_or_app. right. exact Hin. }
    rewrite H0, H1 in Hev.
    exists (init ++ search), post. split; [exact Hev | exact Hall].
  - destruct (Htx loud_tx_search_returns)
      as (init & search & post & q0 & q1 & d0 & d1 & a & e & Hev & _ & _ & _
          & _ & Hid).
    match type of Hev with _ = ?l ++ _ => set (pre := l) in * end.
    assert (Hall : forall f lvl, In (Measured f lvl) pre -> 1 <= lvl).
    { intros f lvl Hin. apply (loud_tx_search_levels f lvl).
      fold w. rewrite Hev. apply in_or_app. left. exact Hin. }
    destruct Hid as (H0 & H1 & H2 & H3).
    { intros f lvl Hin. apply (Hall f lvl). unfold pre.
      apply in_or_app. right. apply in_or_app. right. exact Hin. }
    rewrite H0, H1, H2, H3 in Hev.
    exists pre, post. split; [exact Hev | exact Hall].
Defined.

(* ================================================================== *)
(** * Further properties                                               *)
(* ================================================================== *)

(** ** Test points *)


(** ** Partial reads *)

(** X2.  On a stream that hands over a script of chunks, one pair of chunks
    per read and the two chunks of a pair of the same length, [readSamps]
    asked for the total length returns the chunks of each channel in a row,
    less their mean: no sample is lost, repeated or moved between the
    channels, whatever the sizes of the chunks. *)
Theorem readSamps_assembles_partial_reads
    (chunks : list (list complex * list complex)) (fuel : nat) :
  Forall (fun c => length (fst c) = length (snd c)) chunks ->
  (length chunks <= fuel)%nat ->
  fst (readSamps fuel (length (concat (map fst chunks)))
         (fresh scripted_device chunks))
  = Returned [remove_dc (concat (map fst chunks));
              remove_dc (concat (map snd chunks))].
Proof.
  intros Hall Hfuel.
  set (n := length (concat (map fst chunks))).
  set (w1 := @World scripted_device chunks [ActivateStream n] [] []).
  destruct (read_loop_scripted chunks Hall fuel [] [] w1 eq_refl eq_refl Hfuel)
    as (w' & Hrun).
  simpl in Hrun. fold n in Hrun.
  unfold readSamps, mbind, activateStream, emit, fresh. simpl.
  fold w1. rewrite Hrun. reflexivity.
Qed.

(** [readSamps_assembles_partial_reads] on three chunks of two, one and
    three samples. *)
Lemma readSamps_assembles_three_chunks :
  let c1 := [of_float 1; of_float 2] in
  let c2 := [of_float 3] in
  let c3 := [of_float 4; of_float 5; of_float 6] in
  fst (readSamps 3 6 (fresh scripted_device [(c1, c1); (c2, c2); (c3, c3)]))
  = Returned [remove_dc (c1 ++ c2 ++ c3); remove_dc (c1 ++ c2 ++ c3)].
Proof.
  intros c1 c2 c3.
  apply (readSamps_assembles_partial_reads [(c1, c1); (c2, c2); (c3, c3)] 3).
  - repeat constructor.
  - simpl. lia.
Defined.

(** ** The whole calibration *)





(** X5.  A calibration that returns has made 167 captures: one for the Rx
    gain, and for each of the two searches one before, 9 at each of the 9
    depths, and one after. *)
Theorem calibration_makes_167_captures (D : Device) (fuel : nat) (freq : R)
    (w : world D) :
  fst (CalibrateAtFreq fuel freq w) = Returned tt ->
  activations (events_of (CalibrateAtFreq fuel freq) w) = 167%nat.
Proof.
  intros Hr. destruct (runs_CalibrateAtFreq fuel freq w) as (evs & Ht & _ & _ & Hk).
  rewrite (events_of_eq _ _ _ Ht). apply (Hk tt Hr).
Qed.

(** [calibration_makes_167_captures] on the loud device. *)
Lemma calibration_makes_167_captures_on_loud_device :
  fst (CalibrateAtFreq SAMPS_PER_CAPTURE 1e9 (fresh loud_device tt)) = Returned tt /\
  activations (events_of (CalibrateAtFreq SAMPS_PER_CAPTURE 1e9)
                 (fresh loud_device tt)) = 167%nat.
Proof.
  split; [apply loud_calibration_returns |].
  exact (calibration_makes_167_captures loud_device SAMPS_PER_CAPTURE 1e9
           (fresh loud_device tt) (loud_calibration_returns 1e9)).
Defined.

(** X6.  Whatever the device does, the only gain the calibration sets is
    the Rx PGA, at 19 dB at most, and it sets DC offsets on Tx only. *)
Theorem calibration_sets_no_gain_but_rx_pga (D : Device) (fuel : nat)
    (freq : R) (w : world D) :
  Forall rx_pga_only (events_of (CalibrateAtFreq fuel freq) w).
Proof.
  destruct (runs_CalibrateAtFreq fuel freq w) as (evs & Ht & HP & _).
  rewrite (events_of_eq _ _ _ Ht).
  clear Ht. eapply Forall_impl; [| exact HP].
  intros [] He; simpl in He |- *; auto. apply He.
Qed.

(** X7.  Whatever the device does, every DC offset the calibration sets
    has both parts within [511/1024] of zero, the sum of [2^-D] over the
    depths 2 to 10: the clamp to [-1, 1] never acts in this search. *)
Theorem tx_dc_offsets_within_reach (D : Device) (fuel : nat) (freq : R)
    (w : world D) :
  Forall (dc_within (511 / 1024)) (events_of (CalibrateAtFreq fuel freq) w).
Proof.
  destruct (runs_CalibrateAtFreq fuel freq w) as (evs & Ht & HP & _).
  rewrite (events_of_eq _ _ _ Ht).
  clear Ht. eapply Forall_impl; [| exact HP].
  intros [] He; simpl in He |- *; auto. apply He.
Qed.
